(** * chatdelta-go: retry engine, error taxonomy, sessions and fan-out

    A shallow embedding of the concurrency/resilience layer of the
    [chatdelta] Go package (errors.go, session.go, the utility file with
    [ExecuteWithRetry], [ExecuteParallel], [MergeStreamChunks] and
    [ValidateConfig], and the type declarations they use), together with
    the properties stated about it.

    Conventions.
    - Go [int], [int64] and [time.Duration] are [Z]; where the source
      computes a product that can leave the 64-bit range, the wrap-around
      is written out with [wrap64].
    - Go [float64] is Rocq's primitive binary64 [float].
    - A Go [error] value is [option error]: [None] is [nil].
    - A Go pointer field that may be [nil] ([*float64], [*int]) is an
      [option].
    - A receive-only channel that its producer closes after finitely many
      sends is the list of the values sent, in order. *)

From Stdlib Require Import ZArith Floats.
From stdpp Require Import base strings list pretty.
From Stdlib Require Import Lia.

Set Warnings "-register-all,-clear-no-such-hyp,-inexact-float".

Local Open Scope string_scope.
Local Open Scope Z_scope.

(* ===================================================================== *)
(** ** Machine integers *)
(* ===================================================================== *)

Module Int64.

Definition modulus : Z := 2 ^ 64.
Definition min_signed : Z := - 2 ^ 63.
Definition max_signed : Z := 2 ^ 63 - 1.

(** Two's-complement reduction of an integer into the [int64] range. *)
Definition wrap64 (x : Z) : Z :=
  (x + 2 ^ 63) mod modulus - 2 ^ 63.

Definition in_range (x : Z) : Prop := min_signed <= x <= max_signed.

End Int64.

(* ===================================================================== *)
(** ** errors.go: the error taxonomy *)
(* ===================================================================== *)

Module Errors.

(** [type ErrorType string] with its six constants. *)
Definition ErrorType := string.

Definition ErrorTypeNetwork : ErrorType := "network".
Definition ErrorTypeAPI     : ErrorType := "api".
Definition ErrorTypeAuth    : ErrorType := "auth".
Definition ErrorTypeConfig  : ErrorType := "config".
Definition ErrorTypeParse   : ErrorType := "parse".
Definition ErrorTypeStream  : ErrorType := "stream".

(** The dynamic types of [error] values that the classification functions
    tell apart by type assertion:
    - [*ClientError] with its four fields, the cause being any error or nil;
    - a value implementing [net.Error], with what its [Timeout()] and
      [Temporary()] methods answer;
    - any other error (for instance [context.Canceled]). *)
Inductive error : Type :=
| ClientError (Type_ : ErrorType) (Code : string) (Message : string)
              (Cause : option error)
| NetError (msg : string) (timeout temporary : bool)
| OtherError (msg : string).

(** [NewConfigError] (declared next to [ExecuteParallelConversation]). *)
Definition NewConfigError (message : string) : error :=
  ClientError ErrorTypeConfig "config_error" message None.

Definition NewTimeoutError (rendered_timeout : string) : error :=
  ClientError ErrorTypeNetwork "timeout"
    ("request timed out after " ++ rendered_timeout) None.

Definition NewConnectionError (err : error) : error :=
  ClientError ErrorTypeNetwork "connection_failed"
    "failed to connect to the API server" (Some err).

Definition NewRateLimitError : error :=
  ClientError ErrorTypeAPI "rate_limit" "rate limit exceeded" None.

Definition NewQuotaExceededError : error :=
  ClientError ErrorTypeAPI "quota_exceeded" "API quota has been exceeded" None.

Definition NewBadRequestError (message : string) : error :=
  ClientError ErrorTypeAPI "bad_request" message None.

Definition NewInvalidAPIKeyError : error :=
  ClientError ErrorTypeAuth "invalid_api_key" "invalid or missing API key" None.

(** [fmt.Sprintf("invalid parameter %s: %s", parameter, value)]. *)
Definition NewInvalidParameterError (parameter value : string) : error :=
  ClientError ErrorTypeConfig "invalid_parameter"
    ("invalid parameter " ++ parameter ++ ": " ++ value) None.

Definition NewStreamReadError (err : error) : error :=
  ClientError ErrorTypeStream "stream_read_error"
    "failed to read from stream" (Some err).

(** [IsRetryableError]: the type switch on [*ClientError], then the
    [net.Error] assertion, then [false]. *)
Definition IsRetryableError (err : error) : bool :=
  match err with
  | ClientError ty code _ _ =>
      if String.eqb ty ErrorTypeNetwork then true
      else if String.eqb ty ErrorTypeAPI then
        String.eqb code "rate_limit" || String.eqb code "server_error"
      else false
  | NetError _ timeout temporary => timeout || temporary
  | OtherError _ => false
  end.

(** [IsAuthenticationError]. *)
Definition IsAuthenticationError (err : error) : bool :=
  match err with
  | ClientError ty _ _ _ => String.eqb ty ErrorTypeAuth
  | _ => false
  end.

End Errors.

Import Errors.

(* ===================================================================== *)
(** ** The data model: messages, conversations, chunks, configuration *)
(* ===================================================================== *)

Module Message.
Record t : Type := mk { Role : string; Content : string }.
End Message.

Module Conversation.

Record t : Type := mk { Messages : list Message.t }.

Definition NewConversation : t := mk [].

(** [c.Messages = append(c.Messages, Message{Role: role, Content: content})] *)
Definition AddMessage (c : t) (role content : string) : t :=
  mk (Messages c ++ [Message.mk role content]).

Definition AddSystemMessage (c : t) (content : string) : t :=
  AddMessage c "system" content.

Definition AddUserMessage (c : t) (content : string) : t :=
  AddMessage c "user" content.

Definition AddAssistantMessage (c : t) (content : string) : t :=
  AddMessage c "assistant" content.

End Conversation.

(** [ResponseMetadata]; the untyped [SafetyRatings interface{}] field
    carries no behaviour here and is left out. *)
Record ResponseMetadata : Type := {
  ModelUsed : string;
  PromptTokens : Z;
  CompletionTokens : Z;
  TotalTokens : Z;
  FinishReason : string;
  RequestID : string;
  LatencyMs : Z
}.

Module AiResponse.
Record t : Type := mk { Content : string; Metadata : ResponseMetadata }.
End AiResponse.

Module StreamChunk.
Record t : Type := mk {
  Content : string;
  Finished : bool;
  Metadata : option ResponseMetadata
}.
End StreamChunk.

(** [type RetryStrategy string] and its four constants. *)
Definition RetryStrategy := string.
Definition RetryStrategyFixed : RetryStrategy := "fixed".
Definition RetryStrategyLinear : RetryStrategy := "linear".
Definition RetryStrategyExponentialBackoff : RetryStrategy := "exponential".
Definition RetryStrategyExponentialWithJitter : RetryStrategy :=
  "exponential_with_jitter".

(** One second in [time.Duration] units (nanoseconds). *)
Definition Second : Z := 1000000000.

Module ClientConfig.

Record t : Type := mk {
  Timeout : Z;
  Retries : Z;
  Temperature : option float;
  MaxTokens : option Z;
  TopP : option float;
  FrequencyPenalty : option float;
  PresencePenalty : option float;
  SystemMessage : option string;
  BaseURL : option string;
  Strategy : RetryStrategy       (* field [RetryStrategy] *)
}.

Definition NewClientConfig : t :=
  mk (30 * Second) 3 None None None None None None None
     RetryStrategyExponentialBackoff.

Definition SetTimeout (c : t) (timeout : Z) : t :=
  mk timeout (Retries c) (Temperature c) (MaxTokens c) (TopP c)
     (FrequencyPenalty c) (PresencePenalty c) (SystemMessage c) (BaseURL c)
     (Strategy c).

Definition SetRetries (c : t) (retries : Z) : t :=
  mk (Timeout c) retries (Temperature c) (MaxTokens c) (TopP c)
     (FrequencyPenalty c) (PresencePenalty c) (SystemMessage c) (BaseURL c)
     (Strategy c).

Definition SetTemperature (c : t) (temperature : float) : t :=
  mk (Timeout c) (Retries c) (Some temperature) (MaxTokens c) (TopP c)
     (FrequencyPenalty c) (PresencePenalty c) (SystemMessage c) (BaseURL c)
     (Strategy c).

Definition SetMaxTokens (c : t) (maxTokens : Z) : t :=
  mk (Timeout c) (Retries c) (Temperature c) (Some maxTokens) (TopP c)
     (FrequencyPenalty c) (PresencePenalty c) (SystemMessage c) (BaseURL c)
     (Strategy c).

Definition SetTopP (c : t) (topP : float) : t :=
  mk (Timeout c) (Retries c) (Temperature c) (MaxTokens c) (Some topP)
     (FrequencyPenalty c) (PresencePenalty c) (SystemMessage c) (BaseURL c)
     (Strategy c).

Definition SetFrequencyPenalty (c : t) (penalty : float) : t :=
  mk (Timeout c) (Retries c) (Temperature c) (MaxTokens c) (TopP c)
     (Some penalty) (PresencePenalty c) (SystemMessage c) (BaseURL c)
     (Strategy c).

Definition SetPresencePenalty (c : t) (penalty : float) : t :=
  mk (Timeout c) (Retries c) (Temperature c) (MaxTokens c) (TopP c)
     (FrequencyPenalty c) (Some penalty) (SystemMessage c) (BaseURL c)
     (Strategy c).

Definition SetRetryStrategy (c : t) (strategy : RetryStrategy) : t :=
  mk (Timeout c) (Retries c) (Temperature c) (MaxTokens c) (TopP c)
     (FrequencyPenalty c) (PresencePenalty c) (SystemMessage c) (BaseURL c)
     strategy.

End ClientConfig.

(** The [AIClient] interface.  A method's [ctx] argument and whatever the
    network answers are part of the method value itself: each method is
    the function from what the caller passes to what the call returns.
    A Go [(value, error)] result is a pair whose second component is
    [None] for [nil]; a [*AiResponse] may be [nil].  A returned channel is
    the list of chunks its producer sends before closing it.
    The conversation is passed by pointer and the implementations in the
    repository only read it, so a call leaves it as it is. *)
Module AIClient.
Record t : Type := mk {
  SendPrompt : string -> string * option error;
  SendPromptWithMetadata : string -> option AiResponse.t * option error;
  SendConversation : Conversation.t -> string * option error;
  SendConversationWithMetadata :
    Conversation.t -> option AiResponse.t * option error;
  StreamPrompt : string -> list StreamChunk.t * option error;
  StreamConversation : Conversation.t -> list StreamChunk.t * option error;
  SupportsStreaming : bool;
  SupportsConversations : bool;
  Name : string;
  Model : string
}.
End AIClient.

Module ParallelResult.
Record t : Type := mk {
  ClientName : string;
  Result : string;
  Error : option error
}.
(** The zero value that [make([]ParallelResult, n)] fills the slice with. *)
Definition zero : t := mk "" "" None.
End ParallelResult.

(* ===================================================================== *)
(** ** The retry engine *)
(* ===================================================================== *)

Module Retry.

Import Int64.

(** What a run of the engine does, in order: an invocation of the
    operation with what it returned, a wait that the timer ended, or a
    wait that the context's cancellation ended.  A wait carries the
    value of [delay] as computed, the argument of [time.After]. *)
Inductive event : Type :=
| Invoke (result : option error)
| Sleep (delay : Z)
| Cancelled (delay : Z).

(** The [context.Context] as the engine sees it: for the wait that
    follows attempt number [attempt], whether [<-ctx.Done()] is the case
    the [select] takes, and the non-nil error [ctx.Err()] then returns. *)
Record Context : Type := {
  Done : Z -> bool;
  Err : error
}.

Section Loop.

(** [operation func() error] is a closure: a state of type [St] that it
    reads and updates at each call. *)
Context {St : Type}.
Variable ctx : Context.
Variable retries : Z.
Variable delay_of : Z -> Z.
Variable operation : St -> option error * St.

(** The loop [for attempt := 0; attempt <= retries; attempt++] that
    [ExecuteWithRetry] and [ExecuteWithExponentialBackoff] share word
    for word; they differ in the computation of [delay] only, here
    [delay_of attempt].  The result is the returned error, the state of
    the closure and the events from this iteration on; [None] is a run
    that the fuel cut short. *)
Fixpoint retry_loop (fuel : nat) (attempt : Z) (lastErr : option error)
    (st : St) {struct fuel} : option (option error * St * list event) :=
  match fuel with
  | O => None
  | S fuel' =>
      if attempt <=? retries then
        let '(err, st1) := operation st in
        match err with
        | None => Some (None, st1, [Invoke None])
        | Some e =>
            (* lastErr = err *)
            if negb (IsRetryableError e) then
              Some (Some e, st1, [Invoke err])
            else if attempt =? retries then
              (* break; return lastErr *)
              Some (Some e, st1, [Invoke err])
            else
              let delay := delay_of attempt in
              if Done ctx attempt then
                Some (Some (Err ctx), st1, [Invoke err; Cancelled delay])
              else
                match retry_loop fuel' (attempt + 1) (Some e) st1 with
                | Some (r, st2, tr) =>
                    Some (r, st2, Invoke err :: Sleep delay :: tr)
                | None => None
                end
        end
      else Some (lastErr, st, [])
  end.

End Loop.

(** Iterations the loop can make, plus the final test of its condition. *)
Definition fuel_for (retries : Z) : nat := (Z.to_nat (retries + 1) + 1)%nat.

(** [delay := time.Duration(attempt+1) * time.Second] *)
Definition linear_delay (attempt : Z) : Z :=
  wrap64 (wrap64 (attempt + 1) * Second).

(** [ExecuteWithRetry(ctx, retries, operation)] *)
Definition ExecuteWithRetry {St : Type} (ctx : Context) (retries : Z)
    (operation : St -> option error * St) (st : St)
    : option (option error * St * list event) :=
  retry_loop ctx retries linear_delay operation (fuel_for retries) 0 None st.

(** [time.Duration(math.Pow(2, float64(attempt)))]: [math.Pow] is exact
    on these arguments and the conversion is exact while the power fits
    in an [int64], that is for [attempt <= 62]; beyond, the result of the
    conversion depends on the platform and is the parameter [sat]. *)
Definition pow2_duration (sat : Z) (attempt : Z) : Z :=
  if attempt <=? 62 then 2 ^ attempt else sat.

(** [delay := time.Duration(math.Pow(2, float64(attempt))) * baseDelay]
    followed by [if delay > 30*time.Second { delay = 30 * time.Second }]. *)
Definition backoff_delay (sat : Z) (baseDelay : Z) (attempt : Z) : Z :=
  let delay := wrap64 (pow2_duration sat attempt * baseDelay) in
  if delay >? 30 * Second then 30 * Second else delay.

(** [ExecuteWithExponentialBackoff(ctx, retries, baseDelay, operation)] *)
Definition ExecuteWithExponentialBackoff {St : Type} (sat : Z)
    (ctx : Context) (retries : Z) (baseDelay : Z)
    (operation : St -> option error * St) (st : St)
    : option (option error * St * list event) :=
  retry_loop ctx retries (backoff_delay sat baseDelay) operation
    (fuel_for retries) 0 None st.

(** The retry call that [OpenAIClient.SendConversation],
    [ClaudeClient.SendConversation] and [GeminiClient.SendConversation]
    make with their configuration [c.config]:
    [ExecuteWithRetry(ctx, c.config.Retries, operation)]. *)
Definition client_retry {St : Type} (config : ClientConfig.t)
    (ctx : Context) (operation : St -> option error * St) (st : St)
    : option (option error * St * list event) :=
  ExecuteWithRetry ctx (ClientConfig.Retries config) operation st.

(** Readings of a trace. *)
Definition is_invoke (e : event) : bool :=
  match e with Invoke _ => true | _ => false end.

Definition invocations (tr : list event) : nat :=
  length (List.filter is_invoke tr).

(** [time.After(delay)] fires once [delay] has elapsed, and at once when
    [delay] is not positive: the timer runs for [Z.max 0 delay]. *)
Definition timer (delay : Z) : Z := Z.max 0 delay.

(** The waits of a run, in order: for each the time its timer runs,
    which is the time waited when the timer ends the wait and a bound on
    it when cancellation does. *)
Fixpoint waits (tr : list event) : list Z :=
  match tr with
  | [] => []
  | Invoke _ :: tr' => waits tr'
  | Sleep d :: tr' => timer d :: waits tr'
  | Cancelled d :: tr' => timer d :: waits tr'
  end.

(** The shape of a run that starts with attempt number [a]: the events
    it may consist of and the error it then returns. *)
Inductive run_from (ctx : Context) (retries : Z) (delay_of : Z -> Z)
  : Z -> list event -> option error -> Prop :=
| run_success a :
    a <= retries ->
    run_from ctx retries delay_of a [Invoke None] None
| run_fatal a e :
    a <= retries -> IsRetryableError e = false ->
    run_from ctx retries delay_of a [Invoke (Some e)] (Some e)
| run_exhausted e :
    IsRetryableError e = true ->
    run_from ctx retries delay_of retries [Invoke (Some e)] (Some e)
| run_cancelled a e :
    a < retries -> IsRetryableError e = true -> Done ctx a = true ->
    run_from ctx retries delay_of a
      [Invoke (Some e); Cancelled (delay_of a)] (Some (Err ctx))
| run_retry a e tr r :
    a < retries -> IsRetryableError e = true -> Done ctx a = false ->
    run_from ctx retries delay_of (a + 1) tr r ->
    run_from ctx retries delay_of a
      (Invoke (Some e) :: Sleep (delay_of a) :: tr) r.

End Retry.

(* ===================================================================== *)
(** ** Fan-out over clients *)
(* ===================================================================== *)

Module Parallel.

(** The body of the goroutine that [ExecuteParallel] starts for a client:
    the value it stores in its slot. *)
Definition prompt_task (prompt : string) (c : AIClient.t) : ParallelResult.t :=
  let '(result, err) := AIClient.SendPrompt c prompt in
  ParallelResult.mk (AIClient.Name c) result err.

(** The body of the goroutine of [ExecuteParallelConversation]. *)
Definition conversation_task (conversation : Conversation.t) (c : AIClient.t)
    : ParallelResult.t :=
  let '(result, err) :=
    if AIClient.SupportsConversations c then
      AIClient.SendConversation c conversation
    else
      match last (Conversation.Messages conversation) with
      | Some lastMessage =>
          if String.eqb (Message.Role lastMessage) "user" then
            AIClient.SendPrompt c (Message.Content lastMessage)
          else
            ("", Some (NewConfigError "no user message found in conversation"))
      | None => ("", Some (NewConfigError "empty conversation"))
      end in
  ParallelResult.mk (AIClient.Name c) result err.

(** The goroutine started with [(i, clients[i])] completes with the one
    store [results[i] = ...]. *)
Definition complete (task : AIClient.t -> ParallelResult.t)
    (clients : list AIClient.t) (results : list ParallelResult.t) (i : nat)
    : list ParallelResult.t :=
  match clients !! i with
  | Some c => <[i := task c]> results
  | None => results
  end.

(** [make], one goroutine per client, [wg.Wait()], [return results]:
    [sched] is the order in which the goroutines complete. *)
Definition fan_out (task : AIClient.t -> ParallelResult.t)
    (sched : list nat) (clients : list AIClient.t) : list ParallelResult.t :=
  foldl (complete task clients)
        (replicate (length clients) ParallelResult.zero) sched.

(** A schedule lets every started goroutine complete, once. *)
Definition schedule_of (clients : list AIClient.t) (sched : list nat) : Prop :=
  sched ≡ₚ seq 0 (length clients).

Definition ExecuteParallel (sched : list nat) (clients : list AIClient.t)
    (prompt : string) : list ParallelResult.t :=
  fan_out (prompt_task prompt) sched clients.

Definition ExecuteParallelConversation (sched : list nat)
    (clients : list AIClient.t) (conversation : Conversation.t)
    : list ParallelResult.t :=
  fan_out (conversation_task conversation) sched clients.

End Parallel.

(* ===================================================================== *)
(** ** Draining a chunk channel *)
(* ===================================================================== *)

Module Streams.

(** The loop of [MergeStreamChunks]: [for chunk := range chunks] with
    [result += chunk.Content] and [break] on [chunk.Finished].  Besides
    the string it yields the chunks it has left in the channel. *)
Fixpoint merge_loop (result : string) (chunks : list StreamChunk.t)
    : string * list StreamChunk.t :=
  match chunks with
  | [] => (result, [])
  | chunk :: rest =>
      let result := (result ++ StreamChunk.Content chunk)%string in
      if StreamChunk.Finished chunk then (result, rest)
      else merge_loop result rest
  end.

(** [MergeStreamChunks(chunks)]: the [(string, error)] result, and the
    chunks not received. *)
Definition MergeStreamChunks (chunks : list StreamChunk.t)
    : (string * option error) * list StreamChunk.t :=
  let '(result, unread) := merge_loop "" chunks in
  ((result, None), unread).

(** The chunks of a sequence up to and including the first one with
    [Finished = true] (all of them when there is none). *)
Fixpoint through_first_finished (chunks : list StreamChunk.t)
    : list StreamChunk.t :=
  match chunks with
  | [] => []
  | chunk :: rest =>
      if StreamChunk.Finished chunk then [chunk]
      else chunk :: through_first_finished rest
  end.

(** The contents of a list of chunks, concatenated in order. *)
Definition contents (chunks : list StreamChunk.t) : string :=
  foldr (fun chunk acc => (StreamChunk.Content chunk ++ acc)%string) "" chunks.

End Streams.

(* ===================================================================== *)
(** ** Validation of a configuration *)
(* ===================================================================== *)

Module Validate.

Import ClientConfig.

Section Rendering.

(** How a rejected value is rendered into the message of the error
    ([time.Duration.String()], [string(rune(n))], [int(x)] on a
    [float64]) belongs to the Go runtime. *)
Variable Duration_String : Z -> string.
Variable rune_string : Z -> string.
Variable float_to_int : float -> Z.

(** A guarded early return [if cond { return err }] followed by the
    rest of the function body. *)
Definition return_if (cond : bool) (err : error) (rest : option error)
    : option error :=
  if cond then Some err else rest.

(** The guard [field != nil && ...] on an optional field: the field is
    set and its value is out of range. *)
Definition set_and {A : Type} (field : option A) (bad : A -> bool) : bool :=
  match field with
  | Some v => bad v
  | None => false
  end.

(** The rendering [string(rune(int(v)))] of the value [v] of a set
    [float64] field.
    The guard has established that the field is set where this is used;
    the default is never rendered. *)
Definition rendered_float (field : option float) : string :=
  match field with
  | Some v => rune_string (float_to_int v)
  | None => ""
  end.

Definition rendered_int (field : option Z) : string :=
  match field with
  | Some v => rune_string v
  | None => ""
  end.

Definition ValidateConfig (config : ClientConfig.t) : option error :=
  return_if (Timeout config <=? 0)
    (NewInvalidParameterError "timeout" (Duration_String (Timeout config))) (
  return_if (Retries config <? 0)
    (NewInvalidParameterError "retries" (rune_string (Retries config))) (
  return_if (set_and (Temperature config)
               (fun t => PrimFloat.ltb t 0 || PrimFloat.ltb 2 t)%bool)
    (NewInvalidParameterError "temperature"
       (rendered_float (Temperature config))) (
  return_if (set_and (MaxTokens config) (fun n => n <=? 0))
    (NewInvalidParameterError "max_tokens"
       (rendered_int (MaxTokens config))) (
  return_if (set_and (TopP config)
               (fun p => PrimFloat.ltb p 0 || PrimFloat.ltb 1 p)%bool)
    (NewInvalidParameterError "top_p" (rendered_float (TopP config))) (
  return_if (set_and (FrequencyPenalty config)
               (fun p => PrimFloat.ltb p (-2) || PrimFloat.ltb 2 p)%bool)
    (NewInvalidParameterError "frequency_penalty"
       (rendered_float (FrequencyPenalty config))) (
  return_if (set_and (PresencePenalty config)
               (fun p => PrimFloat.ltb p (-2) || PrimFloat.ltb 2 p)%bool)
    (NewInvalidParameterError "presence_penalty"
       (rendered_float (PresencePenalty config)))
  None)))))).

End Rendering.

(** A set [float64] field whose value is below [lo] or above [hi], in
    the order of IEEE 754 (a NaN is neither). *)
Definition out_of_range (lo hi : float) (field : option float) : Prop :=
  exists v, field = Some v
            /\ (PrimFloat.ltb v lo = true \/ PrimFloat.ltb hi v = true).

End Validate.

(* ===================================================================== *)
(** ** session.go: chat sessions *)
(* ===================================================================== *)

Module Session.

Import Conversation.

Record ChatSession : Type := {
  client : AIClient.t;
  conversation : Conversation.t
}.

Definition NewChatSession (c : AIClient.t) : ChatSession :=
  {| client := c; conversation := NewConversation |}.

Definition NewChatSessionWithSystemMessage (c : AIClient.t) (message : string)
    : ChatSession :=
  {| client := c; conversation := AddSystemMessage NewConversation message |}.

(** [if len(msgs) > 0 { msgs = msgs[:len(msgs)-1] }] *)
Definition remove_last (c : Conversation.t) : Conversation.t :=
  if (0 <? length (Messages c))%nat then
    Conversation.mk (take (length (Messages c) - 1) (Messages c))
  else c.

(** [Send]: the session after the call, and the [(string, error)] result. *)
Definition Send (s : ChatSession) (message : string)
    : ChatSession * (string * option error) :=
  let conv := AddUserMessage (conversation s) message in
  let '(response, err) := AIClient.SendConversation (client s) conv in
  match err with
  | Some e =>
      ({| client := client s; conversation := remove_last conv |},
       ("", Some e))
  | None =>
      ({| client := client s;
          conversation := AddAssistantMessage conv response |},
       (response, None))
  end.

(** [SendWithMetadata]; [None] is the nil dereference [response.Content]
    when a client returns neither a response nor an error. *)
Definition SendWithMetadata (s : ChatSession) (message : string)
    : option (ChatSession * (option AiResponse.t * option error)) :=
  let conv := AddUserMessage (conversation s) message in
  let '(response, err) :=
    AIClient.SendConversationWithMetadata (client s) conv in
  match err with
  | Some e =>
      Some ({| client := client s; conversation := remove_last conv |},
            (None, Some e))
  | None =>
      match response with
      | Some r =>
          Some ({| client := client s;
                   conversation :=
                     AddAssistantMessage conv (AiResponse.Content r) |},
                (Some r, None))
      | None => None
      end
  end.

(** The goroutine of [Stream]: it forwards every chunk to [wrapped],
    accumulates the contents and, at each chunk with [Finished], appends
    the accumulated text as an assistant message; the loop has no
    [break].  The result is the conversation when [chunks] is drained and
    what was forwarded. *)
Fixpoint stream_goroutine (conv : Conversation.t) (fullContent : string)
    (chunks : list StreamChunk.t) : Conversation.t * list StreamChunk.t :=
  match chunks with
  | [] => (conv, [])
  | chunk :: rest =>
      let fullContent := (fullContent ++ StreamChunk.Content chunk)%string in
      let conv' :=
        if StreamChunk.Finished chunk then AddAssistantMessage conv fullContent
        else conv in
      let '(conv'', wrapped) := stream_goroutine conv' fullContent rest in
      (conv'', chunk :: wrapped)
  end.

(** [Stream], observed once the returned channel has been read until it
    is closed: the session then, the chunks delivered, and the error. *)
Definition Stream (s : ChatSession) (message : string)
    : ChatSession * (list StreamChunk.t * option error) :=
  let conv := AddUserMessage (conversation s) message in
  let '(chunks, err) := AIClient.StreamConversation (client s) conv in
  match err with
  | Some e =>
      ({| client := client s; conversation := remove_last conv |},
       ([], Some e))
  | None =>
      let '(conv', wrapped) := stream_goroutine conv "" chunks in
      ({| client := client s; conversation := conv' |}, (wrapped, None))
  end.

Definition AddMessage (s : ChatSession) (message : Message.t) : ChatSession :=
  {| client := client s;
     conversation := Conversation.mk (Messages (conversation s) ++ [message]) |}.

Definition History (s : ChatSession) : Conversation.t := conversation s.

Definition Clear (s : ChatSession) : ChatSession :=
  {| client := client s; conversation := Conversation.mk [] |}.

Definition ResetWithSystem (s : ChatSession) (message : string) : ChatSession :=
  {| client := client s;
     conversation := AddSystemMessage NewConversation message |}.

Definition Len (s : ChatSession) : nat := length (Messages (conversation s)).

Definition IsEmpty (s : ChatSession) : bool :=
  (Len s =? 0)%nat.

(** A conversation ends with a user message that nothing answers. *)
Definition dangling_user (c : Conversation.t) : bool :=
  match last (Messages c) with
  | Some m => String.eqb (Message.Role m) "user"
  | None => false
  end.

End Session.

(* ===================================================================== *)
(** ** Concrete clients, operations and configurations *)
(* ===================================================================== *)

Module Examples.

Import Retry.

(** A context that is never cancelled. *)
Definition background : Context :=
  {| Done := fun _ => false; Err := OtherError "context canceled" |}.

(** An operation that counts its calls and fails with a timeout, a
    retryable error, until it has been called [n] times. *)
Definition flaky (n : nat) (calls : nat) : option error * nat :=
  (if (calls <? n)%nat then Some (NewTimeoutError "30s") else None, S calls).

(** An operation that times out at every call. *)
Definition always_timeout (calls : nat) : option error * nat :=
  (Some (NewTimeoutError "30s"), S calls).

(** [NewClientConfig().SetRetries(2).SetRetryStrategy(RetryStrategyFixed)] *)
Definition fixed_config : ClientConfig.t :=
  ClientConfig.SetRetryStrategy
    (ClientConfig.SetRetries ClientConfig.NewClientConfig 2)
    RetryStrategyFixed.

(** A client given by its name, its conversation capability and its two
    synchronous calls; the calls with metadata answer nothing and the
    streaming calls deliver the synchronous answer as one final chunk. *)
Definition mock_client (name : string) (conversations : bool)
    (sendPrompt : string -> string * option error)
    (sendConversation : Conversation.t -> string * option error)
    : AIClient.t :=
  AIClient.mk sendPrompt
    (fun _ => (None, Some (NewBadRequestError "no metadata")))
    sendConversation
    (fun _ => (None, Some (NewBadRequestError "no metadata")))
    (fun p => ([StreamChunk.mk (fst (sendPrompt p)) true None], None))
    (fun c => ([StreamChunk.mk (fst (sendConversation c)) true None], None))
    false conversations name "mock-model".

(** Answers every request. *)
Definition echo_client : AIClient.t :=
  mock_client "Echo" true
    (fun p => ("echo: " ++ p, None)%string)
    (fun c =>
       (match last (Conversation.Messages c) with
        | Some m => "reply to: " ++ Message.Content m
        | None => "nothing to reply to"
        end, None)%string).

(** Rejects every request: its key is not valid. *)
Definition failing_client : AIClient.t :=
  mock_client "Failing" true
    (fun _ => ("", Some NewInvalidAPIKeyError))
    (fun _ => ("", Some NewInvalidAPIKeyError)).

(** Has no conversation capability. *)
Definition prompt_only_client : AIClient.t :=
  mock_client "PromptOnly" false
    (fun p => ("echo: " ++ p, None)%string)
    (fun _ => ("", Some (NewBadRequestError "conversations not supported"))).

(** A streaming client whose transport ends after one content chunk,
    before any chunk with [Finished]: what [OpenAIClient.streamRequest]
    delivers when the response body ends without a [DONE] line. *)
Definition truncated_stream_client : AIClient.t :=
  AIClient.mk
    (fun p => ("echo: " ++ p, None)%string)
    (fun _ => (None, Some (NewBadRequestError "no metadata")))
    (fun _ => ("answer", None))
    (fun _ => (None, Some (NewBadRequestError "no metadata")))
    (fun _ => ([StreamChunk.mk "par" false None], None))
    (fun _ => ([StreamChunk.mk "par" false None], None))
    true true "Truncated" "mock-model".

Definition question : Conversation.t :=
  Conversation.AddUserMessage
    (Conversation.AddSystemMessage Conversation.NewConversation "Be brief.")
    "What is Go?".

Definition answered : Conversation.t :=
  Conversation.AddAssistantMessage question "A language.".

End Examples.

(* ===================================================================== *)
(** ** Readings of a run of the retry engine *)
(* ===================================================================== *)

Module RetryTrace.

Import Retry.

(** The state of the closure after [n] calls. *)
Fixpoint after_calls {St : Type} (operation : St -> option error * St)
    (n : nat) (st : St) : St :=
  match n with
  | O => st
  | S n' => after_calls operation n' (snd (operation st))
  end.

(** What the invocations of a run returned, in order. *)
Fixpoint results (tr : list event) : list (option error) :=
  match tr with
  | [] => []
  | Invoke r :: tr' => r :: results tr'
  | _ :: tr' => results tr'
  end.


End RetryTrace.

(* ===================================================================== *)
(** ** Further concrete contexts and operations *)
(* ===================================================================== *)

Module Scenarios.

Import Retry.

(** A context whose cancellation ends the wait after the first attempt. *)
Definition cancelled_early : Context :=
  {| Done := fun attempt => attempt =? 0;
     Err := OtherError "context canceled" |}.

(** An operation that counts its calls, is rate-limited at the first and
    rejected for a bad key at the second. *)
Definition limited_then_rejected (calls : nat) : option error * nat :=
  (Some (if (calls =? 0)%nat then NewRateLimitError else NewInvalidAPIKeyError),
   S calls).

End Scenarios.

(* ===================================================================== *)
(** ** errors.go: the methods and the remaining constructors *)
(* ===================================================================== *)

Module ErrorValues.

(** [Error()]: the text of an error.  For a [*ClientError] it is
    [fmt.Sprintf] of kind and message, followed by the text of the cause
    when there is one ([%v] on an error prints its [Error()]); a
    [net.Error] or another error prints its own message. *)
Fixpoint Error (e : error) : string :=
  match e with
  | ClientError ty _ message cause =>
      match cause with
      | Some c =>
          (ty ++ ": " ++ message ++ " (caused by: " ++ Error c ++ ")")%string
      | None => (ty ++ ": " ++ message)%string
      end
  | NetError msg _ _ => msg
  | OtherError msg => msg
  end.

(** [Unwrap()], the method of [*ClientError]; the other errors of the
    model wrap nothing. *)
Definition Unwrap (e : error) : option error :=
  match e with
  | ClientError _ _ _ cause => cause
  | _ => None
  end.

(** [e.Is(target)], the method of [*ClientError]: the receiver [e] is a
    [*ClientError]; on another receiver there is no such method and the
    answer here is [false]. *)
Definition Is (e target : error) : bool :=
  match e with
  | ClientError ty code _ _ =>
      match target with
      | ClientError ty' code' _ _ => String.eqb ty ty' && String.eqb code code'
      | _ => false
      end
  | _ => false
  end.

(** [IsNetworkError].  A [*url.Error] has the methods [Timeout()] and
    [Temporary()], so it is a [net.Error] and is decided by the second
    test; the third test of the source is never reached by it. *)
Definition IsNetworkError (err : error) : bool :=
  match err with
  | ClientError ty _ _ _ => String.eqb ty ErrorTypeNetwork
  | NetError _ timeout temporary => timeout || temporary
  | OtherError _ => false
  end.

Definition NewDNSError (hostname : string) (err : error) : error :=
  ClientError ErrorTypeNetwork "dns_error"
    ("failed to resolve hostname: " ++ hostname) (Some err).

(** [NewRateLimitError(retryAfter)]; the hint, when given, enters the
    message as [time.Duration] prints it. *)
Definition NewRateLimitError (retryAfter : option string) : error :=
  ClientError ErrorTypeAPI "rate_limit"
    match retryAfter with
    | Some rendered => ("rate limit exceeded, retry after " ++ rendered)%string
    | None => "rate limit exceeded"
    end None.

Definition NewInvalidModelError (model : string) : error :=
  ClientError ErrorTypeAPI "invalid_model"
    ("invalid or unsupported model: " ++ model) None.

(** [fmt.Sprintf("server returned status %d: %s", statusCode, message)] *)
Definition NewServerError (statusCode : Z) (message : string) : error :=
  ClientError ErrorTypeAPI "server_error"
    ("server returned status " ++ pretty statusCode ++ ": " ++ message) None.

Definition NewExpiredTokenError : error :=
  ClientError ErrorTypeAuth "expired_token"
    "authentication token has expired" None.

Definition NewPermissionDeniedError (resource : string) : error :=
  ClientError ErrorTypeAuth "permission_denied"
    ("insufficient permissions to access: " ++ resource) None.

Definition NewMissingConfigError (config : string) : error :=
  ClientError ErrorTypeConfig "missing_config"
    ("required configuration missing: " ++ config) None.

Definition NewJSONParseError (err : error) : error :=
  ClientError ErrorTypeParse "json_parse_error"
    "failed to parse JSON response" (Some err).

Definition NewMissingFieldError (field : string) : error :=
  ClientError ErrorTypeParse "missing_field"
    ("required field missing in response: " ++ field) None.

Definition NewStreamClosedError : error :=
  ClientError ErrorTypeStream "stream_closed"
    "stream has been closed unexpectedly" None.

End ErrorValues.

(* ===================================================================== *)
(** ** The vendor clients: responses, errors and the retried request *)
(* ===================================================================== *)

Module Transport.

Import Retry ErrorValues.

(** What one HTTP exchange of [sendRequest] comes to, in the order in
    which the function can leave: the request cannot be marshalled, it
    cannot be built, [httpClient.Do] fails (with the context expired or
    not), the body cannot be read, or a status and a body arrive. *)
Inductive exchange : Type :=
| MarshalFailed (err : error)
| RequestFailed (err : error)
| DoFailed (ctx_expired : bool) (err : error)
| ReadFailed (err : error)
| Responded (statusCode : Z) (body : string).

Section Client.

(** The client: the name its errors give to the API, its model and the
    timeout of its configuration as [time.Duration] prints it. *)
Variable api_name : string.
Variable model : string.
Variable rendered_timeout : string.

(** [strings.Contains(strings.ToLower(message), "model")] *)
Variable mentions_model : string -> bool.

(** [json.Unmarshal] of a body into the error structure, giving the
    message of the error detail, and into the response structure, giving
    the texts of the choices (OpenAI), content blocks (Claude) or first
    parts (Gemini) in order; [inr] is the error of the decoder. *)
Variable decode_error : string -> option string.
Variable decode_response : string -> list string + error.

(** [parseAPIError(statusCode, &errorResp.Error)], the same function in
    the three clients up to [api_name]. *)
Definition parseAPIError (statusCode : Z) (message : string) : error :=
  if statusCode =? 401 then NewInvalidAPIKeyError
  else if statusCode =? 429 then ErrorValues.NewRateLimitError None
  else if statusCode =? 400 then
    if mentions_model message then NewInvalidModelError model
    else NewBadRequestError message
  else if statusCode =? 403 then NewPermissionDeniedError api_name
  else NewServerError statusCode message.

(** [sendRequest] from the marshalling of the request on: the decoded
    response or the error. *)
Definition sendRequest (x : exchange) : list string + error :=
  match x with
  | MarshalFailed err => inr (NewJSONParseError err)
  | RequestFailed err => inr (NewConnectionError err)
  | DoFailed ctx_expired err =>
      if ctx_expired then inr (NewTimeoutError rendered_timeout)
      else inr (NewConnectionError err)
  | ReadFailed err => inr (NewConnectionError err)
  | Responded statusCode body =>
      if negb (statusCode =? 200) then
        match decode_error body with
        | Some message => inr (parseAPIError statusCode message)
        | None => inr (NewServerError statusCode body)
        end
      else
        match decode_response body with
        | inl texts => inl texts
        | inr err => inr (NewJSONParseError err)
        end
  end.

(** The closure [operation] of [SendConversation].  Its state is the
    number of requests made so far and the variable [result];
    [exchanges n] is what the request number [n] comes to; [missing]
    names the field of the response found empty ("choices" for OpenAI,
    "content" for Claude). *)
Variable exchanges : nat -> exchange.
Variable missing : string.

Definition operation (st : nat * string) : option error * (nat * string) :=
  let '(n, result) := st in
  match sendRequest (exchanges n) with
  | inr err => (Some err, (S n, result))
  | inl [] => (Some (NewMissingFieldError missing), (S n, result))
  | inl (text :: _) => (None, (S n, text))
  end.

(** [SendConversation] of the OpenAI and Claude clients:
    [ExecuteWithRetry(ctx, c.config.Retries, operation)], then
    [("", err)] or [(result, nil)].  Beside the result: the number of
    requests made. *)
Definition SendConversation (ctx : Context) (retries : Z)
    : option ((string * option error) * nat) :=
  match ExecuteWithRetry ctx retries operation (0%nat, "") with
  | Some (Some err, (n, _), _) => Some (("", Some err), n)
  | Some (None, (n, result), _) => Some ((result, None), n)
  | None => None
  end.

End Client.

End Transport.

(* ===================================================================== *)
(** ** The vendor clients: streaming *)
(* ===================================================================== *)

Module Normalizer.

Import Retry ErrorValues Transport.

(** The chunk [StreamChunk{Content: text, Finished: finished}]. *)
Definition chunk (text : string) (finished : bool) : StreamChunk.t :=
  StreamChunk.mk text finished None.

(** [strings.HasPrefix(line, "data: ")] and
    [strings.TrimPrefix(line, "data: ")] on a line that has the prefix. *)
Definition is_data (line : string) : bool := String.prefix "data: " line.

Definition data_of (line : string) : string :=
  String.substring 6 (String.length line - 6) line.

(** What one streaming exchange comes to: a failure before any line is
    read (only the failures that [streamRequest] can meet; a status
    other than 200 arrives with the body as read), or a status of 200
    with the lines the scanner yields and the error [scanner.Err()]
    reports once they are exhausted. *)
Inductive stream_exchange : Type :=
| Refused (x : exchange)
| Streaming (lines : list string) (scan_err : option error).

Section Client.

Variable api_name : string.
Variable model : string.
Variable rendered_timeout : string.
Variable mentions_model : string -> bool.
Variable decode_error : string -> option string.

(** The exits of [streamRequest] before the scanner loop. *)
Definition refusal (x : exchange) : error :=
  match x with
  | MarshalFailed err => NewJSONParseError err
  | RequestFailed err => NewConnectionError err
  | DoFailed ctx_expired err =>
      if ctx_expired then NewTimeoutError rendered_timeout
      else NewConnectionError err
  | ReadFailed err => NewConnectionError err
  | Responded statusCode body =>
      match decode_error body with
      | Some message => parseAPIError api_name model mentions_model
                          statusCode message
      | None => NewServerError statusCode body
      end
  end.

(** The end of the scanner loop without a completion frame:
    [scanner.Err()] decides. *)
Definition scan_end (scan_err : option error) : option error :=
  match scan_err with
  | Some err => Some (NewStreamReadError err)
  | None => None
  end.

(** OpenAI.  [json.Unmarshal] of a frame: the choices of the decoded
    response, each with its delta content and whether its finish reason
    is set; [None] when the frame does not decode. *)
Variable decode_chunk : string -> option (list (string * bool)).

(** The scanner loop of [OpenAIClient.streamRequest]: the chunks sent to
    [resultChan] and the error returned. *)
Fixpoint openai_scan (scan_err : option error) (lines : list string)
    : list StreamChunk.t * option error :=
  match lines with
  | [] => ([], scan_end scan_err)
  | line :: rest =>
      if is_data line then
        let data := data_of line in
        if String.eqb data "[DONE]" then ([chunk "" true], None)
        else
          match decode_chunk data with
          | None => openai_scan scan_err rest
          | Some [] => openai_scan scan_err rest
          | Some ((content, finished) :: _) =>
              if finished then ([chunk content finished], None)
              else
                let '(chunks, err) := openai_scan scan_err rest in
                (chunk content finished :: chunks, err)
          end
      else openai_scan scan_err rest
  end.

(** Claude.  [json.Unmarshal] of a frame: the type of the event and its
    delta, when it has one, as type and text. *)
Variable decode_event : string -> option (string * option (string * string)).

(** The scanner loop of [ClaudeClient.streamRequest]. *)
Fixpoint claude_scan (scan_err : option error) (lines : list string)
    : list StreamChunk.t * option error :=
  match lines with
  | [] => ([], scan_end scan_err)
  | line :: rest =>
      if is_data line then
        let data := data_of line in
        if String.eqb data "[DONE]" then ([chunk "" true], None)
        else
          match decode_event data with
          | None => claude_scan scan_err rest
          | Some (type, delta) =>
              if String.eqb type "content_block_delta" then
                match delta with
                | Some (delta_type, text) =>
                    if String.eqb delta_type "text_delta" then
                      let '(chunks, err) := claude_scan scan_err rest in
                      (chunk text false :: chunks, err)
                    else claude_scan scan_err rest
                | None => claude_scan scan_err rest
                end
              else if String.eqb type "message_stop" then
                ([chunk "" true], None)
              else claude_scan scan_err rest
          end
      else claude_scan scan_err rest
  end.

(** [streamRequest], for either scanner loop. *)
Definition streamRequest
    (scan : option error -> list string -> list StreamChunk.t * option error)
    (x : stream_exchange) : list StreamChunk.t * option error :=
  match x with
  | Refused x => ([], Some (refusal x))
  | Streaming lines scan_err => scan scan_err lines
  end.

(** The goroutine of [StreamConversation] in the OpenAI and Claude
    clients: the retried closure sends the chunks of each attempt to
    [resultChan]; its state is the number of attempts made and what has
    been sent.  [exchanges n] is what attempt number [n] comes to. *)
Variable scan :
  option error -> list string -> list StreamChunk.t * option error.
Variable exchanges : nat -> stream_exchange.

Definition stream_operation (st : nat * list StreamChunk.t)
    : option error * (nat * list StreamChunk.t) :=
  let '(n, sent) := st in
  let '(chunks, err) := streamRequest scan (exchanges n) in
  (err, (S n, (sent ++ chunks)%list)).

(** [StreamConversation]: the chunks the returned channel delivers until
    it is closed (the error returned with the channel is always nil),
    and the number of attempts made. *)
Definition StreamConversation (ctx : Context) (retries : Z)
    : option (list StreamChunk.t * nat) :=
  match ExecuteWithRetry ctx retries stream_operation (0%nat, []) with
  | Some (Some _, (n, sent), _) => Some ((sent ++ [chunk "" true])%list, n)
  | Some (None, (n, sent), _) => Some (sent, n)
  | None => None
  end.

End Client.

(** [GeminiClient.StreamConversation] and [StreamPrompt]: the one chunk
    that carries the result of the synchronous call, or nothing when
    that call failed. *)
Definition gemini_stream (call : string * option error)
    : list StreamChunk.t * option error :=
  match snd call with
  | Some _ => ([chunk "" true], None)
  | None => ([chunk (fst call) true], None)
  end.

End Normalizer.

(* ===================================================================== *)
(** ** Shapes of chunk sequences *)
(* ===================================================================== *)

Module ChunkShape.

Import Normalizer.

Definition unfinished (c : StreamChunk.t) : Prop :=
  StreamChunk.Finished c = false.

(** A sequence that ends with a finished chunk, its only one. *)
Definition terminated (chunks : list StreamChunk.t) : Prop :=
  exists pre c,
    chunks = (pre ++ [c])%list /\ Forall unfinished pre
    /\ StreamChunk.Finished c = true.

(** The number of finished chunks of a sequence. *)
Definition finished_count (chunks : list StreamChunk.t) : nat :=
  length (List.filter StreamChunk.Finished chunks).

(** The lines that the scanner loop of the OpenAI client acts on: data
    lines that carry the completion sentinel or decode to a response
    with a choice. *)
Definition openai_frame (decode_chunk : string -> option (list (string * bool)))
    (line : string) : bool :=
  is_data line
  && (String.eqb (data_of line) "[DONE]"
      || match decode_chunk (data_of line) with
         | Some (_ :: _) => true
         | _ => false
         end).

(** The lines that the scanner loop of the Claude client acts on: the
    sentinel, a text delta, or the stop event. *)
Definition claude_frame
    (decode_event : string -> option (string * option (string * string)))
    (line : string) : bool :=
  is_data line
  && (String.eqb (data_of line) "[DONE]"
      || match decode_event (data_of line) with
         | Some (type, delta) =>
             if String.eqb type "content_block_delta" then
               match delta with
               | Some (delta_type, _) => String.eqb delta_type "text_delta"
               | None => false
               end
             else String.eqb type "message_stop"
         | None => false
         end).

(** The two ways a scanner loop ends: at the end of the lines, with
    unfinished chunks only and the verdict of [scanner.Err()], or at a
    completion frame, with a finished last chunk and no error. *)
Definition scan_shape (scan_err : option error)
    (out : list StreamChunk.t * option error) : Prop :=
  (Forall unfinished (fst out) /\ snd out = scan_end scan_err)
  \/ (terminated (fst out) /\ snd out = None).

(** The chunks that the attempts number [0] to [n - 1] of a streaming
    call send, one attempt after the other. *)
Definition sent_by
    (scan : option error -> list string -> list StreamChunk.t * option error)
    (refuse : Transport.exchange -> error)
    (exchanges : nat -> stream_exchange) (n : nat) : list StreamChunk.t :=
  concat (map (fun j => fst (match exchanges j with
                             | Refused x => ([], Some (refuse x))
                             | Streaming lines scan_err => scan scan_err lines
                             end)) (seq 0 n)).

End ChunkShape.

(* ===================================================================== *)
(** ** Streaming helpers and readings of a streamed session *)
(* ===================================================================== *)

Module StreamHelpers.

Import Streams.

(** [StreamToString(ctx, client, prompt)] *)
Definition StreamToString (client : AIClient.t) (prompt : string)
    : string * option error :=
  if negb (AIClient.SupportsStreaming client) then
    AIClient.SendPrompt client prompt
  else
    let '(chunks, err) := AIClient.StreamPrompt client prompt in
    match err with
    | Some e => ("", Some e)
    | None => fst (MergeStreamChunks chunks)
    end.

(** [StreamConversationToString(ctx, client, conversation)] *)
Definition StreamConversationToString (client : AIClient.t)
    (conversation : Conversation.t) : string * option error :=
  if negb (AIClient.SupportsStreaming client) then
    AIClient.SendConversation client conversation
  else
    let '(chunks, err) := AIClient.StreamConversation client conversation in
    match err with
    | Some e => ("", Some e)
    | None => fst (MergeStreamChunks chunks)
    end.

(** The texts accumulated at the finished chunks of a sequence, starting
    from the text [acc]. *)
Fixpoint commits (acc : string) (chunks : list StreamChunk.t) : list string :=
  match chunks with
  | [] => []
  | c :: rest =>
      let acc' := (acc ++ StreamChunk.Content c)%string in
      if StreamChunk.Finished c then acc' :: commits acc' rest
      else commits acc' rest
  end.

(** The message that [AddAssistantMessage] appends. *)
Definition assistant (text : string) : Message.t :=
  Message.mk "assistant" text.

(** [ClientInfo] and [GetClientInfo]. *)
Record ClientInfo : Type := {
  Name : string;
  Model : string;
  SupportsStreaming : bool;
  SupportsConversations : bool
}.

Definition GetClientInfo (client : AIClient.t) : ClientInfo :=
  {| Name := AIClient.Name client;
     Model := AIClient.Model client;
     SupportsStreaming := AIClient.SupportsStreaming client;
     SupportsConversations := AIClient.SupportsConversations client |}.

End StreamHelpers.

(* ===================================================================== *)
(** ** The vendor clients: what a request is built from *)
(* ===================================================================== *)

Module Requests.

Import Conversation.

(** The separator ["\n\n"] between system messages. *)
Definition blank_line : string :=
  String (Ascii.ascii_of_nat 10) (String (Ascii.ascii_of_nat 10) EmptyString).

Definition is_system (msg : Message.t) : bool :=
  String.eqb (Message.Role msg) "system".

(** The loop of [ClaudeClient.sendRequest] and [streamRequest] over the
    messages: system messages are appended to the system prompt, the
    others to the messages of the request. *)
Fixpoint claude_split (systemMessage : string) (messages : list Message.t)
    (msgs : list Message.t) : string * list Message.t :=
  match msgs with
  | [] => (systemMessage, messages)
  | msg :: rest =>
      if is_system msg then
        claude_split
          (if negb (String.eqb systemMessage "") then
             (systemMessage ++ blank_line ++ Message.Content msg)%string
           else Message.Content msg)
          messages rest
      else claude_split systemMessage (messages ++ [msg])%list rest
  end.

(** The [System], [Messages] and [MaxTokens] fields of the request that
    the Claude client builds. *)
Definition claude_request (config : ClientConfig.t)
    (conversation : Conversation.t) : string * list Message.t * Z :=
  let start :=
    match ClientConfig.SystemMessage config with
    | Some s => s
    | None => ""
    end in
  let maxTokens :=
    match ClientConfig.MaxTokens config with
    | Some n => n
    | None => 1024
    end in
  (claude_split start [] (Messages conversation), maxTokens).

(** The loop of [GeminiClient.sendRequest]: system messages are
    collected, the others become contents with the role of the
    assistant renamed. *)
Fixpoint gemini_split (systemMessages : list string)
    (contents : list Message.t) (msgs : list Message.t)
    : list string * list Message.t :=
  match msgs with
  | [] => (systemMessages, contents)
  | msg :: rest =>
      if is_system msg then
        gemini_split (systemMessages ++ [Message.Content msg])%list
          contents rest
      else
        let role :=
          if String.eqb (Message.Role msg) "assistant" then "model"
          else Message.Role msg in
        gemini_split systemMessages
          (contents ++ [Message.mk role (Message.Content msg)])%list rest
  end.

(** The [SystemInstruction] (nil or the text of its one part) and the
    [Contents] of the request that the Gemini client builds. *)
Definition gemini_request (config : ClientConfig.t)
    (conversation : Conversation.t) : option string * list Message.t :=
  let start :=
    match ClientConfig.SystemMessage config with
    | Some s => [s]
    | None => []
    end in
  let '(systemMessages, contents) :=
    gemini_split start [] (Messages conversation) in
  (if (0 <? length systemMessages)%nat
   then Some (String.concat blank_line systemMessages) else None,
   contents).

(** The messages of the request that the OpenAI client builds. *)
Definition openai_request (conversation : Conversation.t) : list Message.t :=
  map (fun msg => Message.mk (Message.Role msg) (Message.Content msg))
      (Messages conversation).

(** The conversation that [SendPrompt] and [StreamPrompt] build from a
    prompt: the OpenAI and Gemini clients put the configured system
    message first, the Claude client does not. *)
Definition prompt_conversation (config : ClientConfig.t) (prompt : string)
    : Conversation.t :=
  AddUserMessage
    match ClientConfig.SystemMessage config with
    | Some s => AddSystemMessage NewConversation s
    | None => NewConversation
    end prompt.

Definition claude_prompt_conversation (prompt : string) : Conversation.t :=
  AddUserMessage NewConversation prompt.

Definition not_system (msg : Message.t) : bool := negb (is_system msg).

(** The system contents of a list of messages, in order. *)
Definition system_texts (msgs : list Message.t) : list string :=
  map Message.Content (List.filter is_system msgs).

(** The configured system message followed by the system messages of a
    conversation. *)
Definition system_parts (config : ClientConfig.t) (c : Conversation.t)
    : list string :=
  (match ClientConfig.SystemMessage config with
   | Some s => [s]
   | None => []
   end ++ system_texts (Messages c))%list.

End Requests.

(* ===================================================================== *)
(** ** The client factory *)
(* ===================================================================== *)

Module Factory.

Import ErrorValues.

(** The three client structures [OpenAIClient], [ClaudeClient] and
    [GeminiClient] have the same fields; [httpClient] is built from the
    timeout of the configuration and is not a field here. *)
Inductive vendor : Type := OpenAI | Claude | Gemini.

Record VendorClient : Type := {
  kind : vendor;
  apiKey : string;
  model : string;
  config : ClientConfig.t
}.

(** The body that [NewOpenAIClient], [NewClaudeClient] and
    [NewGeminiClient] share, with the default model of each. *)
Definition new_client (k : vendor) (default_model : string)
    (key mdl : string) (cfg : option ClientConfig.t)
    : VendorClient + error :=
  if String.eqb key "" then inr NewInvalidAPIKeyError
  else
    inl {| kind := k;
           apiKey := key;
           model := if String.eqb mdl "" then default_model else mdl;
           config := match cfg with
                     | Some c => c
                     | None => ClientConfig.NewClientConfig
                     end |}.

Definition NewOpenAIClient := new_client OpenAI "gpt-3.5-turbo".
Definition NewClaudeClient := new_client Claude "claude-3-haiku-20240307".
Definition NewGeminiClient := new_client Gemini "gemini-1.5-flash".

(** The methods [Name], [SupportsStreaming] and [SupportsConversations]. *)
Definition Name (c : VendorClient) : string :=
  match kind c with
  | OpenAI => "OpenAI"
  | Claude => "Claude"
  | Gemini => "Gemini"
  end.

Definition SupportsStreaming (c : VendorClient) : bool :=
  match kind c with
  | OpenAI => true
  | Claude => true
  | Gemini => false
  end.

Definition SupportsConversations (c : VendorClient) : bool := true.

Definition SupportedProviders : list string :=
  ["openai"; "anthropic"; "claude"; "google"; "gemini"].

(** [getDefaultModel] *)
Definition getDefaultModel (provider : string) : string :=
  if String.eqb provider "openai" then "gpt-3.5-turbo"
  else if String.eqb provider "anthropic" || String.eqb provider "claude"
  then "claude-3-haiku-20240307"
  else if String.eqb provider "google" || String.eqb provider "gemini"
  then "gemini-1.5-flash"
  else "".

Section Environment.

(** [os.Getenv]: the value of a variable, empty when it is not set. *)
Variable Getenv : string -> string.

(** [strings.ToLower(strings.TrimSpace(provider))] *)
Variable normalize : string -> string.

(** The renderings that [ValidateConfig] uses in its messages. *)
Variable Duration_String : Z -> string.
Variable rune_string : Z -> string.
Variable float_to_int : float -> Z.

(** The two variables of a provider: [if key := os.Getenv(first);
    key != "" { return key }; return os.Getenv(second)]. *)
Definition first_set (first second : string) : string :=
  if negb (String.eqb (Getenv first) "") then Getenv first
  else Getenv second.

(** [getAPIKeyFromEnv] *)
Definition getAPIKeyFromEnv (provider : string) : string :=
  if String.eqb provider "openai" then
    first_set "OPENAI_API_KEY" "CHATGPT_API_KEY"
  else if String.eqb provider "anthropic" || String.eqb provider "claude" then
    first_set "ANTHROPIC_API_KEY" "CLAUDE_API_KEY"
  else if String.eqb provider "google" || String.eqb provider "gemini" then
    first_set "GOOGLE_API_KEY" "GEMINI_API_KEY"
  else "".

(** [CreateClient(provider, apiKey, model, config)] *)
Definition CreateClient (provider key mdl : string)
    (cfg : option ClientConfig.t) : VendorClient + error :=
  let cfg := match cfg with
             | Some c => c
             | None => ClientConfig.NewClientConfig
             end in
  match Validate.ValidateConfig Duration_String rune_string float_to_int cfg
  with
  | Some err => inr err
  | None =>
      let provider := normalize provider in
      let key := if String.eqb key "" then getAPIKeyFromEnv provider
                 else key in
      if String.eqb key "" then
        inr (NewMissingConfigError ("API key for provider: " ++ provider))
      else
        let mdl := if String.eqb mdl "" then getDefaultModel provider
                   else mdl in
        if String.eqb provider "openai" then
          NewOpenAIClient key mdl (Some cfg)
        else if String.eqb provider "anthropic"
                || String.eqb provider "claude" then
          NewClaudeClient key mdl (Some cfg)
        else if String.eqb provider "google"
                || String.eqb provider "gemini" then
          NewGeminiClient key mdl (Some cfg)
        else inr (NewInvalidParameterError "provider" provider)
  end.

(** [GetAvailableProviders] *)
Definition GetAvailableProviders : list string :=
  List.filter (fun provider => negb (String.eqb (getAPIKeyFromEnv provider) ""))
    SupportedProviders.

End Environment.

(** The vendor that serves a provider name. *)
Definition vendor_of (provider : string) : option vendor :=
  if String.eqb provider "openai" then Some OpenAI
  else if String.eqb provider "anthropic" || String.eqb provider "claude"
  then Some Claude
  else if String.eqb provider "google" || String.eqb provider "gemini"
  then Some Gemini
  else None.

End Factory.

(* ===================================================================== *)
(** ** Sequences of calls on a session *)
(* ===================================================================== *)

Module Dialogue.

Import Session.

(** What a call of the client returns depends on more than the
    conversation it is given: the service, the network and the time
    decide.  In a sequence of calls, [answers k] is the client as it
    answers at call number [k]; the same request may fail at one call
    and succeed at the next. *)
Definition answering (c : AIClient.t) (s : ChatSession) : ChatSession :=
  {| client := c; conversation := conversation s |}.

(** [Send] called with each of the messages in turn, whatever each call
    returns, the first being call number [k]: the session at the end and
    the number of calls that returned a nil error. *)
Fixpoint send_all (answers : nat -> AIClient.t) (k : nat) (s : ChatSession)
    (messages : list string) : ChatSession * nat :=
  match messages with
  | [] => (s, O)
  | message :: rest =>
      let '(s', (_, err)) := Send (answering (answers k) s) message in
      let '(s'', successes) := send_all answers (S k) s' rest in
      (s'', match err with
            | None => S successes
            | Some _ => successes
            end)
  end.

(** The messages of completed turns: each a user message and the
    assistant message that answers it. *)
Definition turns (pairs : list (string * string)) : list Message.t :=
  flat_map (fun p => [Message.mk "user" (fst p);
                      Message.mk "assistant" (snd p)]) pairs.

(** A service that rejects the first [n] calls and answers from then
    on. *)
Definition recovers_after (n : nat) (k : nat) : AIClient.t :=
  if (k <? n)%nat then Examples.failing_client else Examples.echo_client.

End Dialogue.

(* ===================================================================== *)
(** * Properties *)
(* ===================================================================== *)

Section Int64Facts.

Import Int64.

Lemma wrap64_range x : in_range (wrap64 x).
Proof.
  unfold in_range, wrap64, min_signed, max_signed, modulus.
  pose proof (Z.mod_pos_bound (x + 2 ^ 63) (2 ^ 64) ltac:(lia)). lia.
Qed.

Lemma wrap64_id x : in_range x -> wrap64 x = x.
Proof.
  unfold in_range, wrap64, min_signed, max_signed, modulus. intros Hx.
  rewrite Z.mod_small; lia.
Qed.

End Int64Facts.

(* ===================================================================== *)
(** ** Properties of the error taxonomy *)
(* ===================================================================== *)

Section Classification.

Lemma retryable_client_iff ty code msg cause :
  IsRetryableError (ClientError ty code msg cause) = true <->
  ty = "network" \/ (ty = "api" /\ (code = "rate_limit" \/ code = "server_error")).
Proof.
  unfold IsRetryableError, ErrorTypeNetwork, ErrorTypeAPI.
  destruct (String.eqb_spec ty "network") as [-> | Hn].
  { split; [intros _; by left | done]. }
  destruct (String.eqb_spec ty "api") as [-> | Ha].
  - rewrite orb_true_iff, !String.eqb_eq. split.
    + intros H. right. done.
    + intros [? | [_ H]]; done.
  - split; [done |]. intros [? | [? _]]; done.
Qed.

Lemma authentication_client_iff ty code msg cause :
  IsAuthenticationError (ClientError ty code msg cause) = true <-> ty = "auth".
Proof. unfold IsAuthenticationError, ErrorTypeAuth. apply String.eqb_eq. Qed.

(** C3. On every [ClientError], [IsRetryableError] answers true exactly
    for kind network, or kind api with code rate_limit or server_error;
    it answers false for every auth, config, parse and stream error and
    for api errors with any other code; [IsAuthenticationError] answers
    true exactly for kind auth; and both answers are the same for two
    errors that agree on kind and code, whatever their messages and
    causes. *)
Theorem classification_by_kind_and_code :
  forall (ty : ErrorType) (code msg : string) (cause : option error),
    (IsRetryableError (ClientError ty code msg cause) = true <->
       ty = ErrorTypeNetwork \/
       (ty = ErrorTypeAPI /\ (code = "rate_limit" \/ code = "server_error")))
    /\ (ty ∈ [ErrorTypeAuth; ErrorTypeConfig; ErrorTypeParse; ErrorTypeStream] ->
        IsRetryableError (ClientError ty code msg cause) = false)
    /\ (ty = ErrorTypeAPI -> code <> "rate_limit" -> code <> "server_error" ->
        IsRetryableError (ClientError ty code msg cause) = false)
    /\ (IsAuthenticationError (ClientError ty code msg cause) = true <->
        ty = ErrorTypeAuth)
    /\ (forall msg' cause',
          IsRetryableError (ClientError ty code msg' cause') =
            IsRetryableError (ClientError ty code msg cause)
          /\ IsAuthenticationError (ClientError ty code msg' cause') =
            IsAuthenticationError (ClientError ty code msg cause)).
Proof.
  intros ty code msg cause.
  split; [apply retryable_client_iff |].
  split.
  { intros Hin. apply not_true_is_false. rewrite retryable_client_iff.
    unfold ErrorTypeAuth, ErrorTypeConfig, ErrorTypeParse, ErrorTypeStream in Hin.
    rewrite !elem_of_cons, elem_of_nil in Hin.
    intros [-> | [-> _]]; destruct Hin as [? | [? | [? | [? | []]]]]; done. }
  split.
  { intros -> Hrl Hse. apply not_true_is_false. rewrite retryable_client_iff.
    intros [? | [_ [? | ?]]]; done. }
  split; [apply authentication_client_iff |].
  intros msg' cause'. done.
Qed.

End Classification.

Lemma classification_by_kind_and_code_witness :
  IsRetryableError
    (ClientError ErrorTypeAuth "invalid_api_key" "invalid or missing API key"
       None) = false
  /\ IsRetryableError (NewBadRequestError "malformed body") = false.
Proof.
  split.
  - apply (proj1 (proj2
      (classification_by_kind_and_code ErrorTypeAuth "invalid_api_key"
         "invalid or missing API key" None))).
    apply list_elem_of_here.
  - apply (proj1 (proj2 (proj2
      (classification_by_kind_and_code ErrorTypeAPI "bad_request"
         "malformed body" None)))); [reflexivity | discriminate | discriminate].
Defined.

(* ===================================================================== *)
(** ** Properties of the retry engine *)
(* ===================================================================== *)

Section RetryFacts.

Import Retry.

Context {St : Type}.
Variable ctx : Context.
Variable retries : Z.
Variable delay_of : Z -> Z.
Variable operation : St -> option error * St.

Local Abbreviation loop := (retry_loop ctx retries delay_of operation).
Local Abbreviation run := (run_from ctx retries delay_of).

(** The loop returns, and what it does has the shape of a run. *)
Lemma retry_loop_run (fuel : nat) :
  forall (a : Z) (lastErr : option error) (st : St),
    0 <= a <= retries ->
    (Z.to_nat (retries - a) < fuel)%nat ->
    exists r st' tr, loop fuel a lastErr st = Some (r, st', tr) /\ run a tr r.
Proof.
  induction fuel as [| fuel IH]; intros a lastErr st Ha Hfuel; [lia |].
  cbn [retry_loop].
  destruct (Z.leb_spec a retries) as [_ | ?]; [| lia].
  destruct (operation st) as [[e |] st1].
  2: { eexists _, _, _. split; [reflexivity |]. constructor. lia. }
  destruct (IsRetryableError e) eqn:Hretry; cbn [negb].
  2: { eexists _, _, _. split; [reflexivity |]. constructor; [lia | done]. }
  destruct (Z.eqb_spec a retries) as [-> | Hne].
  { eexists _, _, _. split; [reflexivity |]. by constructor. }
  destruct (Done ctx a) eqn:Hdone.
  { eexists _, _, _. split; [reflexivity |]. constructor; [lia | done | done]. }
  destruct (IH (a + 1) (Some e) st1) as (r & st2 & tr & -> & Hrun); [lia | lia |].
  eexists _, _, _. split; [reflexivity |]. constructor; [lia | done | done | done].
Qed.

Lemma run_starts_with_invoke a tr r :
  run a tr r -> exists res, tr !! 0%nat = Some (Invoke res).
Proof. destruct 1; eauto. Qed.

Lemma run_invocations a tr r :
  run a tr r ->
  (1 <= invocations tr)%nat /\ Z.of_nat (invocations tr) <= retries - a + 1.
Proof.
  unfold invocations.
  induction 1 as [a | a e | e | a e | a e tr r Ha He Hd Hrun IH];
    cbn in *; lia.
Qed.

Lemma run_success_is_last a tr r :
  run a tr r ->
  forall i, tr !! i = Some (Invoke None) -> length tr = S i /\ r = None.
Proof.
  induction 1 as [a | a e | e | a e | a e tr r Ha He Hd Hrun IH]; intros i Hi.
  - destruct i; [done | by destruct i].
  - destruct i; [done | by destruct i].
  - destruct i; [done | by destruct i].
  - destruct i as [| [| i]]; done.
  - destruct i as [| [| i]]; [done | done |].
    destruct (IH i Hi) as [Hlen ?]. cbn [length]. by rewrite Hlen.
Qed.

Lemma run_fatal_is_last a tr r :
  run a tr r ->
  forall i e, tr !! i = Some (Invoke (Some e)) -> IsRetryableError e = false ->
    length tr = S i /\ r = Some e.
Proof.
  induction 1 as [a | a e | e | a e | a e tr r Ha He Hd Hrun IH];
    intros i e' Hi He'.
  - destruct i; [done | by destruct i].
  - destruct i; [| by destruct i]. by injection Hi as ->.
  - destruct i; [| by destruct i]. injection Hi as ->. congruence.
  - destruct i as [| [| i]]; [| done | done]. injection Hi as ->. congruence.
  - destruct i as [| [| i]]; [| done |].
    + injection Hi as ->. congruence.
    + destruct (IH i e' Hi He') as [Hlen ?]. cbn [length]. by rewrite Hlen.
Qed.

Lemma run_sleep_then_invoke a tr r :
  run a tr r ->
  forall i d, tr !! i = Some (Sleep d) ->
    exists res, tr !! S i = Some (Invoke res).
Proof.
  induction 1 as [a | a e | e | a e | a e tr r Ha He Hd Hrun IH]; intros i d Hi.
  - destruct i; [done | by destruct i].
  - destruct i; [done | by destruct i].
  - destruct i; [done | by destruct i].
  - destruct i as [| [| i]]; done.
  - destruct i as [| [| i]]; [done | |].
    + apply (run_starts_with_invoke _ _ _ Hrun).
    + apply (IH i d Hi).
Qed.

Lemma run_last_attempt_ends a tr r :
  run a tr r ->
  Z.of_nat (invocations tr) = retries - a + 1 ->
  exists res, last tr = Some (Invoke res).
Proof.
  induction 1 as [a | a e | e | a e | a e tr r Ha He Hd Hrun IH]; intros Hn;
    [by eexists | by eexists | by eexists | |].
  - unfold invocations in Hn. cbn in Hn. lia.
  - destruct IH as [res Hres].
    { unfold invocations in *. cbn in Hn. cbn. lia. }
    exists res. destruct Hrun; done.
Qed.

Lemma run_uncancelled_ends a tr r :
  run a tr r ->
  (forall k, Done ctx k = false) ->
  exists res, last tr = Some (Invoke res).
Proof.
  induction 1 as [a | a e | e | a e | a e tr r Ha He Hd Hrun IH]; intros Hctx;
    [by eexists | by eexists | by eexists | |].
  - rewrite Hctx in *. done.
  - destruct (IH Hctx) as [res Hres]. exists res. destruct Hrun; done.
Qed.

(** The [k]-th wait of a run is the timer of the delay computed for
    attempt [a + k]. *)
Lemma run_waits a tr r :
  run a tr r ->
  forall (k : nat) d,
    waits tr !! k = Some d -> d = timer (delay_of (a + Z.of_nat k)).
Proof.
  induction 1 as [a | a e | e | a e | a e tr r Ha He Hd Hrun IH]; intros k d Hk;
    try done.
  - destruct k; [| done]. cbn in Hk. injection Hk as <-. do 2 f_equal. lia.
  - cbn [waits] in Hk. destruct k as [| k].
    + cbn in Hk. injection Hk as <-. do 2 f_equal. lia.
    + cbn in Hk. rewrite (IH k d Hk). do 2 f_equal. lia.
Qed.

(** A wait is only made when another attempt is allowed. *)
Lemma run_waits_bound a tr r :
  run a tr r -> Z.of_nat (length (waits tr)) <= retries - a.
Proof.
  induction 1 as [a | a e | e | a e | a e tr r Ha He Hd Hrun IH];
    cbn [waits length] in *; lia.
Qed.

End RetryFacts.

Section RetryEngine.

Import Retry.

(** A run with one retry, evaluated: one failure, a wait of one second,
    one success; the closure was called twice. *)
Example ExecuteWithRetry_flaky_run :
  ExecuteWithRetry Examples.background 2 (Examples.flaky 1) 0%nat
  = Some (None, 2%nat,
          [Invoke (Some (NewTimeoutError "30s")); Sleep Second; Invoke None]).
Proof. vm_compute. reflexivity. Qed.

Example ExecuteWithRetry_no_retries :
  ExecuteWithRetry Examples.background 0 Examples.always_timeout 0%nat
  = Some (Some (NewTimeoutError "30s"), 1%nat,
          [Invoke (Some (NewTimeoutError "30s"))]).
Proof. vm_compute. reflexivity. Qed.

(** With a negative [retries] the loop body never runs. *)
Example ExecuteWithRetry_negative_retries :
  ExecuteWithRetry Examples.background (-1) Examples.always_timeout 0%nat
  = Some (None, 0%nat, []).
Proof. vm_compute. reflexivity. Qed.

End RetryEngine.

Section Backoff.

Import Retry Int64.

Lemma backoff_delay_le_cap sat baseDelay attempt :
  backoff_delay sat baseDelay attempt <= 30 * Second.
Proof.
  unfold backoff_delay.
  destruct (Z.gtb_spec (wrap64 (pow2_duration sat attempt * baseDelay))
              (30 * Second)); lia.
Qed.

(** While the product fits in an [int64] the delay is the capped product. *)
Lemma backoff_delay_exact sat baseDelay attempt :
  0 <= attempt <= 62 ->
  in_range (baseDelay * 2 ^ attempt) ->
  backoff_delay sat baseDelay attempt
  = Z.min (baseDelay * 2 ^ attempt) (30 * Second).
Proof.
  intros Ha Hfit. unfold backoff_delay, pow2_duration.
  destruct (Z.leb_spec attempt 62) as [_ | ?]; [| lia].
  rewrite (Z.mul_comm (2 ^ attempt)), (wrap64_id _ Hfit).
  destruct (Z.gtb_spec (baseDelay * 2 ^ attempt) (30 * Second)); lia.
Qed.

Lemma backoff_delay_mono sat baseDelay j k :
  0 <= baseDelay -> 0 <= j <= k -> k <= 62 ->
  in_range (baseDelay * 2 ^ k) ->
  backoff_delay sat baseDelay j <= backoff_delay sat baseDelay k.
Proof.
  intros Hb Hj Hk Hfit.
  assert (Hpow : 2 ^ j <= 2 ^ k) by (apply Z.pow_le_mono_r; lia).
  assert (Hpos : 0 < 2 ^ j) by (apply Z.pow_pos_nonneg; lia).
  assert (Hfit' : in_range (baseDelay * 2 ^ j)).
  { unfold in_range, min_signed, max_signed in *. nia. }
  rewrite !backoff_delay_exact by (done || lia).
  apply Z.min_le_compat_r. nia.
Qed.

(** The events of a run with a negative [retries]: none. *)
Lemma retry_loop_negative {St : Type} ctx retries delay_of
    (operation : St -> option error * St) fuel lastErr st :
  retries < 0 ->
  retry_loop ctx retries delay_of operation (S fuel) 0 lastErr st
  = Some (lastErr, st, []).
Proof.
  intros Hneg. cbn [retry_loop].
  destruct (Z.leb_spec 0 retries); [lia | done].
Qed.

Lemma backoff_waits {St : Type} sat ctx retries baseDelay
    (operation : St -> option error * St) st err st' tr :
  ExecuteWithExponentialBackoff sat ctx retries baseDelay operation st
    = Some (err, st', tr) ->
  forall (k : nat) d, waits tr !! k = Some d ->
    d = timer (backoff_delay sat baseDelay (Z.of_nat k)).
Proof.
  unfold ExecuteWithExponentialBackoff. intros Heq k d Hk.
  destruct (Z.lt_ge_cases retries 0) as [Hneg | Hpos].
  - unfold fuel_for in Heq. rewrite Nat.add_1_r in Heq.
    rewrite retry_loop_negative in Heq by done.
    injection Heq as <- <- <-. done.
  - destruct (retry_loop_run ctx retries (backoff_delay sat baseDelay)
                operation (fuel_for retries) 0 None st)
      as (r & st2 & tr2 & Heq2 & Hrun); [lia | unfold fuel_for; lia |].
    rewrite Heq2 in Heq. injection Heq as <- <- <-.
    by rewrite (run_waits _ _ _ _ _ _ Hrun k d Hk).
Qed.

(** What [ExecuteWithExponentialBackoff] does keep of the backoff rule.
    In every run the wait after attempt number [k] is the timer of the
    delay computed for [k]; it is never negative and never longer than
    the cap of 30 seconds.  While [baseDelay * 2^k] fits in an [int64]
    (with [k <= 62]) and [baseDelay] is not negative, it is
    [baseDelay * 2^k] capped at 30 seconds, and no earlier wait of the
    run is longer. *)
Lemma backoff_waits_while_in_range {St : Type} :
  forall (sat : Z) (ctx : Context) (retries baseDelay : Z)
         (operation : St -> option error * St) (st : St) err st' tr,
    ExecuteWithExponentialBackoff sat ctx retries baseDelay operation st
      = Some (err, st', tr) ->
    forall (k : nat) (d : Z),
      waits tr !! k = Some d ->
      d = timer (backoff_delay sat baseDelay (Z.of_nat k))
      /\ 0 <= d <= 30 * Second
      /\ (Z.of_nat k <= 62 -> in_range (baseDelay * 2 ^ Z.of_nat k) ->
          0 <= baseDelay ->
          d = Z.min (baseDelay * 2 ^ Z.of_nat k) (30 * Second)
          /\ forall (j : nat) (d' : Z),
               (j <= k)%nat -> waits tr !! j = Some d' -> d' <= d).
Proof.
  intros sat ctx retries baseDelay operation st err st' tr Heq k d Hk.
  pose proof (backoff_waits _ _ _ _ _ _ _ _ _ Heq) as Hwaits.
  rewrite (Hwaits k d Hk).
  split; [done |].
  split.
  { pose proof (backoff_delay_le_cap sat baseDelay (Z.of_nat k)).
    unfold timer, Second in *. lia. }
  intros Hk62 Hfit Hbase.
  assert (Hpow : 0 < 2 ^ Z.of_nat k) by (apply Z.pow_pos_nonneg; lia).
  split.
  { rewrite backoff_delay_exact by (done || lia).
    unfold timer, Second. nia. }
  intros j d' Hjk Hj. rewrite (Hwaits j d' Hj).
  unfold timer. apply Z.max_le_compat_l.
  apply backoff_delay_mono; [done | lia | done | done].
Qed.

(** C6 at a base delay of one second and 35 retries, with an operation
    that times out at every call: the run makes 36 calls, and its events
    number 67 and 69 are the waits after the attempts number 33 and 34.
    The delay computed after attempt 33 is the cap of 30 seconds.  The product computed after attempt 34,
    [2^34 * 1s], does not fit in an [int64]: it wraps to a negative
    duration, which passes the test against the cap and is handed to
    [time.After] as it is, so the timer fires at once.  The run waits 30
    seconds and then not at all: the waits decrease, and the last one is
    not the capped product, which is 30 seconds.  The result of
    [math.Pow] is converted exactly at these attempts, so this holds
    whatever the conversion gives beyond 2^62. *)
Theorem backoff_overflow_ends_the_backoff :
  forall sat : Z,
    exists err st' tr,
      ExecuteWithExponentialBackoff sat Examples.background 35 Second
        Examples.always_timeout 0%nat = Some (err, st', tr)
      /\ invocations tr = 36%nat
      /\ tr !! 67%nat = Some (Sleep (30 * Second))
      /\ tr !! 69%nat = Some (Sleep (-1266874889709551616))
      /\ waits tr !! 33%nat = Some (30 * Second)
      /\ waits tr !! 34%nat = Some 0
      /\ Z.min (Second * 2 ^ 34) (30 * Second) = 30 * Second.
Proof.
  intros sat. eexists _, _, _.
  split; [vm_compute; reflexivity |].
  vm_compute. repeat split; reflexivity.
Qed.

(** Within the range the waits follow the rule: one second, then two. *)
Example backoff_run_in_range :
  ExecuteWithExponentialBackoff min_signed Examples.background 2 Second
    Examples.always_timeout 0%nat
  = Some (Some (NewTimeoutError "30s"), 3%nat,
          [Invoke (Some (NewTimeoutError "30s")); Sleep Second;
           Invoke (Some (NewTimeoutError "30s")); Sleep (2 * Second);
           Invoke (Some (NewTimeoutError "30s"))]).
Proof. vm_compute. reflexivity. Qed.

End Backoff.

Section Strategy.

Import Retry.

(** The retry call of the clients does not read the strategy. *)
Lemma client_retry_strategy_irrelevant {St : Type} config strategy ctx
    (operation : St -> option error * St) st :
  client_retry (ClientConfig.SetRetryStrategy config strategy) ctx operation st
  = client_retry config ctx operation st.
Proof. reflexivity. Qed.

(** C7 at a configuration with the fixed strategy: the waits between the
    three attempts are one second and then two seconds, not a constant;
    they are the waits of the linear rule with a base of one second. *)
Theorem fixed_strategy_delays_grow :
  ClientConfig.Strategy Examples.fixed_config = RetryStrategyFixed
  /\ client_retry Examples.fixed_config Examples.background
       Examples.always_timeout 0%nat
     = Some (Some (NewTimeoutError "30s"), 3%nat,
             [Invoke (Some (NewTimeoutError "30s")); Sleep (1 * Second);
              Invoke (Some (NewTimeoutError "30s")); Sleep (2 * Second);
              Invoke (Some (NewTimeoutError "30s"))]).
Proof. split; [reflexivity | vm_compute; reflexivity]. Qed.

(** What [ExecuteWithRetry] does wait: [(k + 1)] seconds after attempt
    number [k], while that fits in an [int64]. *)
Lemma ExecuteWithRetry_waits {St : Type} ctx retries
    (operation : St -> option error * St) st err st' tr :
  ExecuteWithRetry ctx retries operation st = Some (err, st', tr) ->
  forall (k : nat) d, waits tr !! k = Some d ->
    d = timer (linear_delay (Z.of_nat k))
    /\ (Z.of_nat k < 9223372036 -> d = (Z.of_nat k + 1) * Second).
Proof.
  unfold ExecuteWithRetry. intros Heq k d Hk.
  assert (Hd : d = timer (linear_delay (Z.of_nat k))).
  { destruct (Z.lt_ge_cases retries 0) as [Hneg | Hpos].
    - unfold fuel_for in Heq. rewrite Nat.add_1_r in Heq.
      rewrite retry_loop_negative in Heq by done.
      injection Heq as <- <- <-. done.
    - destruct (retry_loop_run ctx retries linear_delay
                  operation (fuel_for retries) 0 None st)
        as (r & st2 & tr2 & Heq2 & Hrun); [lia | unfold fuel_for; lia |].
      rewrite Heq2 in Heq. injection Heq as <- <- <-.
      by rewrite (run_waits _ _ _ _ _ _ Hrun k d Hk). }
  split; [exact Hd |]. intros Hsmall. subst d. unfold linear_delay.
  rewrite (wrap64_id (Z.of_nat k + 1)).
  - rewrite wrap64_id; [unfold timer, Second; lia |].
    unfold Int64.in_range, Int64.min_signed, Int64.max_signed, Second. lia.
  - unfold Int64.in_range, Int64.min_signed, Int64.max_signed. lia.
Qed.

End Strategy.

(* ===================================================================== *)
(** ** Properties of the fan-out *)
(* ===================================================================== *)

Section FanOut.

Import Parallel.
Local Open Scope nat_scope.

Variable task : AIClient.t -> ParallelResult.t.
Variable clients : list AIClient.t.

Lemma complete_length results i :
  length (complete task clients results i) = length results.
Proof.
  unfold complete. destruct (clients !! i); [apply length_insert | done].
Qed.

(** A slot after some goroutines have completed: the value of its own
    goroutine if that one is among them, and otherwise what it held. *)
Lemma completed_lookup (sched : list nat) :
  forall (results : list ParallelResult.t) (j : nat),
    length results = length clients ->
    foldl (complete task clients) results sched !! j
    = match clients !! j with
      | Some c => if decide (j ∈ sched) then Some (task c) else results !! j
      | None => None
      end.
Proof.
  induction sched as [| i sched IH]; intros results j Hlen; cbn [foldl].
  - destruct (clients !! j) eqn:Hj.
    + by rewrite decide_False by apply not_elem_of_nil.
    + apply lookup_ge_None. rewrite Hlen. by apply lookup_ge_None.
  - rewrite IH by (by rewrite complete_length).
    destruct (clients !! j) as [c |] eqn:Hj; [| done].
    destruct (decide (j ∈ sched)) as [Hin | Hnin].
    + rewrite decide_True by (by apply elem_of_cons; right). done.
    + destruct (decide (i = j)) as [-> | Hne].
      * rewrite decide_True by apply list_elem_of_here.
        unfold complete. rewrite Hj. apply list_lookup_insert_eq.
        rewrite Hlen. by apply lookup_lt_is_Some.
      * rewrite decide_False by (rewrite elem_of_cons; naive_solver).
        unfold complete. destruct (clients !! i); [| done].
        by apply list_lookup_insert_ne.
Qed.

Lemma fan_out_lookup sched j :
  schedule_of clients sched ->
  fan_out task sched clients !! j = task <$> clients !! j.
Proof.
  intros Hsched. unfold fan_out.
  rewrite completed_lookup by apply length_replicate.
  destruct (clients !! j) as [c |] eqn:Hj; [| done].
  rewrite decide_True; [done |].
  rewrite Hsched. apply elem_of_seq. split; [lia |].
  apply lookup_lt_is_Some. by eexists.
Qed.

Lemma fan_out_map sched :
  schedule_of clients sched -> fan_out task sched clients = task <$> clients.
Proof.
  intros Hsched. apply list_eq. intros j.
  by rewrite fan_out_lookup, list_lookup_fmap.
Qed.

End FanOut.

Section FanOutResults.

Import Parallel.
Local Open Scope nat_scope.



(** Three clients whose goroutines complete in the order 2, 0, 1. *)
Example ExecuteParallel_out_of_order :
  ExecuteParallel [2; 0; 1]
    [Examples.echo_client; Examples.failing_client; Examples.echo_client]
    "hello"
  = [ParallelResult.mk "Echo" "echo: hello" None;
     ParallelResult.mk "Failing" "" (Some NewInvalidAPIKeyError);
     ParallelResult.mk "Echo" "echo: hello" None].
Proof. reflexivity. Qed.

End FanOutResults.

Section ConversationFallback.

Import Parallel.
Local Open Scope nat_scope.

(** What the goroutine stores for a client without conversation
    capability. *)
Lemma conversation_task_fallback conversation c :
  AIClient.SupportsConversations c = false ->
  conversation_task conversation c
  = match last (Conversation.Messages conversation) with
    | Some m =>
        if String.eqb (Message.Role m) "user" then
          ParallelResult.mk (AIClient.Name c)
            (fst (AIClient.SendPrompt c (Message.Content m)))
            (snd (AIClient.SendPrompt c (Message.Content m)))
        else
          ParallelResult.mk (AIClient.Name c) ""
            (Some (NewConfigError "no user message found in conversation"))
    | None =>
        ParallelResult.mk (AIClient.Name c) ""
          (Some (NewConfigError "empty conversation"))
    end.
Proof.
  intros Hconv. unfold conversation_task. rewrite Hconv.
  destruct (last (Conversation.Messages conversation)) as [m |]; [| done].
  destruct (String.eqb (Message.Role m) "user"); [| done].
  by destruct (AIClient.SendPrompt c (Message.Content m)).
Qed.

(** C5.  In [ExecuteParallelConversation], for a client at position [i]
    whose [SupportsConversations()] is false: the result list is
    complete; when the last message of the conversation has role user,
    slot [i] holds what the client's [SendPrompt] returns on the content
    of that last message alone; when the last message has another role,
    or the conversation is empty, slot [i] holds an empty result and an
    error of kind config. *)
Theorem conversation_fallback :
  forall (sched : list nat) (clients : list AIClient.t)
         (conversation : Conversation.t) (i : nat) (c : AIClient.t),
    schedule_of clients sched ->
    clients !! i = Some c ->
    AIClient.SupportsConversations c = false ->
    length (ExecuteParallelConversation sched clients conversation)
      = length clients
    /\ (forall m,
          last (Conversation.Messages conversation) = Some m ->
          Message.Role m = "user" ->
          ExecuteParallelConversation sched clients conversation !! i
          = Some (ParallelResult.mk (AIClient.Name c)
                    (fst (AIClient.SendPrompt c (Message.Content m)))
                    (snd (AIClient.SendPrompt c (Message.Content m)))))
    /\ (forall m,
          last (Conversation.Messages conversation) = Some m ->
          Message.Role m <> "user" ->
          exists message,
            ExecuteParallelConversation sched clients conversation !! i
            = Some (ParallelResult.mk (AIClient.Name c) ""
                      (Some (ClientError ErrorTypeConfig "config_error"
                               message None))))
    /\ (Conversation.Messages conversation = [] ->
        exists message,
          ExecuteParallelConversation sched clients conversation !! i
          = Some (ParallelResult.mk (AIClient.Name c) ""
                    (Some (ClientError ErrorTypeConfig "config_error"
                             message None)))).
Proof.
  intros sched clients conversation i c Hsched Hi Hconv.
  unfold ExecuteParallelConversation.
  rewrite fan_out_map, length_fmap by done.
  rewrite <- (fan_out_map (conversation_task conversation) clients sched Hsched).
  rewrite fan_out_lookup, Hi by done. cbn [fmap option_fmap option_map].
  rewrite conversation_task_fallback by done.
  split; [done |]. split; [| split].
  - intros m -> Hrole. by rewrite Hrole.
  - intros m -> Hrole.
    destruct (String.eqb_spec (Message.Role m) "user"); [done |].
    by eexists.
  - intros ->. by eexists.
Qed.

Lemma conversation_fallback_witness :
  ExecuteParallelConversation [1; 0]
    [Examples.echo_client; Examples.prompt_only_client] Examples.question
    !! 1
  = Some (ParallelResult.mk "PromptOnly" "echo: What is Go?" None)
  /\ exists message,
       ExecuteParallelConversation [1; 0]
         [Examples.echo_client; Examples.prompt_only_client] Examples.answered
         !! 1
       = Some (ParallelResult.mk "PromptOnly" ""
                 (Some (ClientError ErrorTypeConfig "config_error" message
                          None))).
Proof.
  assert (Hsched : schedule_of
            [Examples.echo_client; Examples.prompt_only_client] [1; 0]).
  { unfold schedule_of. cbn. apply Permutation_swap. }
  split.
  - destruct (conversation_fallback [1; 0]
                [Examples.echo_client; Examples.prompt_only_client]
                Examples.question 1 Examples.prompt_only_client
                Hsched eq_refl eq_refl) as (_ & Huser & _).
    exact (Huser (Message.mk "user" "What is Go?") eq_refl eq_refl).
  - destruct (conversation_fallback [1; 0]
                [Examples.echo_client; Examples.prompt_only_client]
                Examples.answered 1 Examples.prompt_only_client
                Hsched eq_refl eq_refl) as (_ & _ & Hother & _).
    apply (Hother (Message.mk "assistant" "A language.") eq_refl).
    discriminate.
Defined.

(** Two fall-back runs on a non-empty conversation and one on an empty
    conversation, evaluated. *)
Example fallback_runs :
  ExecuteParallelConversation [1; 0]
    [Examples.echo_client; Examples.prompt_only_client] Examples.question
  = [ParallelResult.mk "Echo" "reply to: What is Go?" None;
     ParallelResult.mk "PromptOnly" "echo: What is Go?" None]
  /\ ExecuteParallelConversation [1; 0]
       [Examples.echo_client; Examples.prompt_only_client] Examples.answered
     = [ParallelResult.mk "Echo" "reply to: A language." None;
        ParallelResult.mk "PromptOnly" ""
          (Some (NewConfigError "no user message found in conversation"))]
  /\ ExecuteParallelConversation [0; 1]
       [Examples.echo_client; Examples.prompt_only_client]
       Conversation.NewConversation
     = [ParallelResult.mk "Echo" "nothing to reply to" None;
        ParallelResult.mk "PromptOnly" ""
          (Some (NewConfigError "empty conversation"))].
Proof. repeat split; reflexivity. Qed.

End ConversationFallback.

(* ===================================================================== *)
(** ** Properties of the chunk merger *)
(* ===================================================================== *)

Section Merging.

Import Streams.
Local Open Scope nat_scope.

Lemma string_append_assoc (s1 s2 s3 : string) :
  ((s1 ++ s2) ++ s3 = s1 ++ (s2 ++ s3))%string.
Proof.
  induction s1 as [| a s1 IH]; [done |].
  change (String a ((s1 ++ s2) ++ s3) = String a (s1 ++ (s2 ++ s3)))%string.
  by rewrite IH.
Qed.

Lemma string_append_nil_r (s : string) : (s ++ "" = s)%string.
Proof.
  induction s as [| a s IH]; [done |].
  change (String a (s ++ "") = String a s)%string. by rewrite IH.
Qed.

Lemma merge_loop_spec (chunks : list StreamChunk.t) :
  forall acc,
    merge_loop acc chunks
    = ((acc ++ contents (through_first_finished chunks))%string,
       drop (length (through_first_finished chunks)) chunks).
Proof.
  induction chunks as [| chunk rest IH]; intros acc; cbn [merge_loop].
  - cbn. by rewrite string_append_nil_r.
  - cbn [through_first_finished].
    destruct (StreamChunk.Finished chunk).
    + cbn. by rewrite string_append_nil_r.
    + rewrite IH. cbn [length drop]. f_equal.
      change (contents (chunk :: through_first_finished rest))
        with (StreamChunk.Content chunk
                ++ contents (through_first_finished rest))%string.
      apply string_append_assoc.
Qed.

(** The chunks read are a prefix of the sequence. *)
Lemma through_first_finished_prefix chunks :
  (through_first_finished chunks
     ++ drop (length (through_first_finished chunks)) chunks)%list = chunks.
Proof.
  induction chunks as [| chunk rest IH]; [done |]. cbn.
  destruct (StreamChunk.Finished chunk); cbn; [done | by rewrite IH].
Qed.

(** Among the chunks read, only the last can be a finished one. *)
Lemma through_first_finished_stops chunks :
  forall i chunk,
    through_first_finished chunks !! i = Some chunk ->
    StreamChunk.Finished chunk = true ->
    length (through_first_finished chunks) = S i.
Proof.
  induction chunks as [| c rest IH]; intros i chunk Hi Hfin; [done |].
  cbn in *. destruct (StreamChunk.Finished c) eqn:Hc.
  - destruct i; [done | by destruct i].
  - destruct i as [| i]; cbn in *.
    + injection Hi as ->. congruence.
    + by rewrite (IH i chunk Hi Hfin).
Qed.

(** Reading stops before the end of the sequence only at a finished
    chunk. *)
Lemma through_first_finished_unread chunks :
  drop (length (through_first_finished chunks)) chunks <> [] ->
  exists chunk,
    last (through_first_finished chunks) = Some chunk
    /\ StreamChunk.Finished chunk = true.
Proof.
  induction chunks as [| c rest IH]; intros Hrest; [done |].
  cbn in *. destruct (StreamChunk.Finished c) eqn:Hc.
  - by exists c.
  - cbn in Hrest. destruct (IH Hrest) as (chunk & Hlast & Hfin).
    exists chunk. split; [| done].
    destruct (through_first_finished rest); [done | by cbn].
Qed.

(** C9.  On every finite chunk sequence [MergeStreamChunks] returns a nil
    error and the concatenation, in order, of the contents of the chunks
    it reads; the chunks read are the prefix of the sequence that ends
    with the first chunk with [Finished = true] (the whole sequence when
    there is none), the chunks after it being left unread; merging
    "Hello ", "World!" and an empty final chunk gives "Hello World!". *)
Theorem MergeStreamChunks_concatenates :
  (forall chunks : list StreamChunk.t,
     exists read unread,
       MergeStreamChunks chunks = ((contents read, None), unread)
       /\ chunks = (read ++ unread)%list
       /\ read = through_first_finished chunks
       /\ (forall i chunk, read !! i = Some chunk ->
             StreamChunk.Finished chunk = true -> length read = S i)
       /\ (unread <> [] ->
             exists chunk,
               last read = Some chunk /\ StreamChunk.Finished chunk = true))
  /\ MergeStreamChunks
       [StreamChunk.mk "Hello " false None;
        StreamChunk.mk "World!" false None;
        StreamChunk.mk "" true None]
     = (("Hello World!", None), []).
Proof.
  split; [| reflexivity].
  intros chunks.
  exists (through_first_finished chunks),
         (drop (length (through_first_finished chunks)) chunks).
  split; [| split; [| split; [| split]]].
  - unfold MergeStreamChunks. by rewrite merge_loop_spec.
  - by rewrite through_first_finished_prefix.
  - done.
  - apply through_first_finished_stops.
  - apply through_first_finished_unread.
Qed.

Lemma MergeStreamChunks_concatenates_witness :
  exists read unread,
    MergeStreamChunks
      [StreamChunk.mk "a" false None; StreamChunk.mk "b" true None;
       StreamChunk.mk "c" false None]
    = ((contents read, None), unread)
    /\ length read = 2.
Proof.
  destruct (proj1 MergeStreamChunks_concatenates
              [StreamChunk.mk "a" false None; StreamChunk.mk "b" true None;
               StreamChunk.mk "c" false None])
    as (read & unread & Heq & _ & Hread & Hstop & _).
  exists read, unread. split; [exact Heq |].
  apply (Hstop 1 (StreamChunk.mk "b" true None)); [by rewrite Hread | done].
Defined.

(** A chunk after the first finished one is not read. *)
Example MergeStreamChunks_stops :
  MergeStreamChunks
    [StreamChunk.mk "a" false None; StreamChunk.mk "b" true None;
     StreamChunk.mk "c" false None]
  = (("ab", None), [StreamChunk.mk "c" false None]).
Proof. reflexivity. Qed.

End Merging.

(* ===================================================================== *)
(** ** Properties of the validation *)
(* ===================================================================== *)

Section Validation.

Import Validate ClientConfig.

Variable Duration_String : Z -> string.
Variable rune_string : Z -> string.
Variable float_to_int : float -> Z.

Local Abbreviation validate :=
  (ValidateConfig Duration_String rune_string float_to_int).

Lemma return_if_Some cond err rest :
  return_if cond err rest <> None <-> cond = true \/ rest <> None.
Proof. unfold return_if. destruct cond; naive_solver. Qed.

Lemma set_and_true {A : Type} (field : option A) (bad : A -> bool) :
  set_and field bad = true <-> exists v, field = Some v /\ bad v = true.
Proof. unfold set_and. destruct field; naive_solver. Qed.

Lemma ValidateConfig_rejects (config : ClientConfig.t) :
  validate config <> None <->
  Timeout config <= 0
  \/ Retries config < 0
  \/ out_of_range 0 2 (Temperature config)
  \/ (exists n, MaxTokens config = Some n /\ n <= 0)
  \/ out_of_range 0 1 (TopP config)
  \/ out_of_range (-2) 2 (FrequencyPenalty config)
  \/ out_of_range (-2) 2 (PresencePenalty config).
Proof.
  unfold ValidateConfig, out_of_range.
  rewrite !return_if_Some, !set_and_true.
  setoid_rewrite orb_true_iff.
  rewrite Z.leb_le, Z.ltb_lt. setoid_rewrite Z.leb_le.
  naive_solver.
Qed.

End Validation.

Section ValidationResults.

Import Validate ClientConfig.

(** C10.  Whatever the rendering of the rejected value, [ValidateConfig]
    returns an error exactly when the timeout is at most zero, or the
    retry count is negative, or a set temperature is below 0 or above 2,
    or a set max-tokens value is at most zero, or a set top-p is below 0
    or above 1, or a set frequency or presence penalty is below -2 or
    above 2; the default configuration with temperature 1.0 and top-p
    0.8 is accepted. *)
Theorem ValidateConfig_rejects_exactly :
  forall (Duration_String rune_string : Z -> string)
         (float_to_int : float -> Z),
    (forall config : ClientConfig.t,
       ValidateConfig Duration_String rune_string float_to_int config <> None
       <->
       Timeout config <= 0
       \/ Retries config < 0
       \/ (exists t, Temperature config = Some t
                     /\ (PrimFloat.ltb t 0 = true \/ PrimFloat.ltb 2 t = true))
       \/ (exists n, MaxTokens config = Some n /\ n <= 0)
       \/ (exists p, TopP config = Some p
                     /\ (PrimFloat.ltb p 0 = true \/ PrimFloat.ltb 1 p = true))
       \/ (exists p, FrequencyPenalty config = Some p
                     /\ (PrimFloat.ltb p (-2) = true
                         \/ PrimFloat.ltb 2 p = true))
       \/ (exists p, PresencePenalty config = Some p
                     /\ (PrimFloat.ltb p (-2) = true
                         \/ PrimFloat.ltb 2 p = true)))
    /\ ValidateConfig Duration_String rune_string float_to_int
         (SetTopP (SetTemperature NewClientConfig 1%float) 0.8%float)
       = None.
Proof.
  intros Duration_String rune_string float_to_int.
  split; [| reflexivity].
  intros config. apply ValidateConfig_rejects.
Qed.

Lemma ValidateConfig_rejects_exactly_witness :
  ValidateConfig (fun _ => "d") (fun _ => "r") (fun _ => 0)
    (SetTemperature NewClientConfig (-1)%float) <> None
  /\ ValidateConfig (fun _ => "d") (fun _ => "r") (fun _ => 0)
       (SetMaxTokens NewClientConfig 0) <> None.
Proof.
  split.
  - apply (proj1 (ValidateConfig_rejects_exactly
                    (fun _ => "d") (fun _ => "r") (fun _ => 0))).
    right. right. left. exists (-1)%float. split; [reflexivity |].
    left. reflexivity.
  - apply (proj1 (ValidateConfig_rejects_exactly
                    (fun _ => "d") (fun _ => "r") (fun _ => 0))).
    right. right. right. left. exists 0. split; [reflexivity | lia].
Defined.

(** The cases of the package's table of configurations, and a NaN, which
    no comparison rejects. *)
Example ValidateConfig_table :
  let validate := ValidateConfig (fun _ => "d") (fun _ => "r") (fun _ => 0) in
  validate NewClientConfig = None
  /\ validate (SetTimeout NewClientConfig (-1 * Second))
     = Some (NewInvalidParameterError "timeout" "d")
  /\ validate (SetRetries NewClientConfig (-1))
     = Some (NewInvalidParameterError "retries" "r")
  /\ validate (SetTemperature NewClientConfig (-1)%float)
     = Some (NewInvalidParameterError "temperature" "r")
  /\ validate (SetMaxTokens NewClientConfig 0)
     = Some (NewInvalidParameterError "max_tokens" "r")
  /\ validate (SetTopP NewClientConfig 1.5%float)
     = Some (NewInvalidParameterError "top_p" "r")
  /\ validate (SetTemperature NewClientConfig 1%float) = None
  /\ validate (SetTopP NewClientConfig 0.8%float) = None
  /\ validate (SetFrequencyPenalty NewClientConfig (-2.5)%float)
     = Some (NewInvalidParameterError "frequency_penalty" "r")
  /\ validate (SetPresencePenalty NewClientConfig 2.5%float)
     = Some (NewInvalidParameterError "presence_penalty" "r")
  /\ validate (SetTemperature NewClientConfig PrimFloat.nan) = None.
Proof. cbv zeta. repeat split; reflexivity. Qed.

End ValidationResults.

(* ===================================================================== *)
(** ** Properties of chat sessions *)
(* ===================================================================== *)

Section Sessions.

Import Session Conversation.
Local Open Scope nat_scope.

(** Removing the last message undoes the append of a message. *)
Lemma remove_last_AddMessage (c : Conversation.t) role content :
  remove_last (AddMessage c role content) = c.
Proof.
  destruct c as [msgs]. unfold remove_last, AddMessage. cbn [Messages].
  rewrite length_app. cbn [length].
  destruct (Nat.ltb_spec 0 (length msgs + 1)) as [_ | ?]; [| lia].
  f_equal. apply take_app_length'. lia.
Qed.

Lemma remove_last_AddUserMessage (c : Conversation.t) message :
  remove_last (AddUserMessage c message) = c.
Proof. apply remove_last_AddMessage. Qed.

(** C1.  When the client's call fails, [Send] and [SendWithMetadata]
    return the session as it was before the call (the same client and
    the same conversation, hence the same messages and the same length)
    together with an empty result and the client's error. *)
Theorem Send_failure_rolls_back :
  forall (s : ChatSession) (message : string) (e : error),
    (forall response,
       AIClient.SendConversation (client s)
         (AddUserMessage (conversation s) message) = (response, Some e) ->
       Send s message = (s, ("", Some e))
       /\ Messages (conversation (fst (Send s message)))
          = Messages (conversation s)
       /\ Len (fst (Send s message)) = Len s)
    /\ (forall response,
          AIClient.SendConversationWithMetadata (client s)
            (AddUserMessage (conversation s) message) = (response, Some e) ->
          SendWithMetadata s message = Some (s, (None, Some e))).
Proof.
  intros [c conv] message e. cbn [client conversation]. split.
  - intros response Hcall.
    assert (Hsend : Send {| client := c; conversation := conv |} message
                    = ({| client := c; conversation := conv |}, ("", Some e))).
    { unfold Send. cbn [client conversation]. rewrite Hcall.
      by rewrite remove_last_AddUserMessage. }
    by rewrite Hsend.
  - intros response Hcall. unfold SendWithMetadata.
    cbn [client conversation]. rewrite Hcall.
    by rewrite remove_last_AddUserMessage.
Qed.

Lemma Send_failure_rolls_back_witness :
  Send {| client := Examples.failing_client;
          conversation := Examples.answered |} "And Rust?"
  = ({| client := Examples.failing_client;
        conversation := Examples.answered |},
     ("", Some NewInvalidAPIKeyError))
  /\ SendWithMetadata {| client := Examples.echo_client;
                         conversation := Examples.answered |} "And Rust?"
     = Some ({| client := Examples.echo_client;
                conversation := Examples.answered |},
             (None, Some (NewBadRequestError "no metadata"))).
Proof.
  split.
  - exact (proj1 (proj1 (Send_failure_rolls_back
             {| client := Examples.failing_client;
                conversation := Examples.answered |}
             "And Rust?" NewInvalidAPIKeyError) "" eq_refl)).
  - exact (proj2 (Send_failure_rolls_back
             {| client := Examples.echo_client;
                conversation := Examples.answered |}
             "And Rust?" (NewBadRequestError "no metadata")) None eq_refl).
Defined.

(** A successful [Send] appends the question and the answer. *)
Example Send_success :
  Messages (conversation (fst (Send (NewChatSession Examples.echo_client)
                                 "What is Go?")))
  = [Message.mk "user" "What is Go?";
     Message.mk "assistant" "reply to: What is Go?"].
Proof. reflexivity. Qed.

(** [Stream] rolls back in the same way when the client fails to start
    the stream. *)
Lemma Stream_start_failure_rolls_back (s : ChatSession) message chunks e :
  AIClient.StreamConversation (client s)
    (AddUserMessage (conversation s) message) = (chunks, Some e) ->
  Stream s message = (s, ([], Some e)).
Proof.
  destruct s as [c conv]. cbn [client conversation]. intros Hcall.
  unfold Stream. cbn [client conversation]. rewrite Hcall.
  by rewrite remove_last_AddUserMessage.
Qed.

(** The goroutine appends nothing when no chunk is a finished one. *)
Lemma stream_goroutine_unterminated (chunks : list StreamChunk.t) :
  forall conv fullContent,
    Forall (fun chunk => StreamChunk.Finished chunk = false) chunks ->
    stream_goroutine conv fullContent chunks = (conv, chunks).
Proof.
  induction chunks as [| chunk rest IH]; intros conv fullContent Hall; [done |].
  apply Forall_cons in Hall as [Hchunk Hrest].
  cbn [stream_goroutine]. rewrite Hchunk, IH by done. done.
Qed.

(** A stream that starts and ends without a finished chunk leaves the
    user message in the conversation, with no answer after it. *)
Lemma Stream_unterminated (s : ChatSession) message chunks :
  AIClient.StreamConversation (client s)
    (AddUserMessage (conversation s) message) = (chunks, None) ->
  Forall (fun chunk => StreamChunk.Finished chunk = false) chunks ->
  Stream s message
  = ({| client := client s;
        conversation := AddUserMessage (conversation s) message |},
     (chunks, None))
  /\ dangling_user (conversation (fst (Stream s message))) = true.
Proof.
  intros Hcall Hall.
  assert (Heq : Stream s message
    = ({| client := client s;
          conversation := AddUserMessage (conversation s) message |},
       (chunks, None))).
  { unfold Stream. rewrite Hcall.
    by rewrite stream_goroutine_unterminated. }
  split; [exact Heq |]. rewrite Heq. cbn [fst conversation].
  unfold dangling_user, AddUserMessage, AddMessage. cbn [Messages].
  by rewrite last_snoc.
Qed.

(** C8 at a stream that the transport truncates: the client delivers one
    content chunk and closes the channel; no error reaches the caller,
    the chunk is forwarded, and the conversation is left ending with the
    user message, which is neither removed nor answered. *)
Theorem Stream_truncated_leaves_user_message :
  Stream (NewChatSession Examples.truncated_stream_client) "What is Go?"
  = ({| client := Examples.truncated_stream_client;
        conversation := Conversation.mk [Message.mk "user" "What is Go?"] |},
     ([StreamChunk.mk "par" false None], None))
  /\ dangling_user
       (conversation
          (fst (Stream (NewChatSession Examples.truncated_stream_client)
                  "What is Go?"))) = true
  /\ Len (fst (Stream (NewChatSession Examples.truncated_stream_client)
                 "What is Go?"))
     = S (Len (NewChatSession Examples.truncated_stream_client)).
Proof. repeat split; reflexivity. Qed.

(** A stream that reaches its finished chunk is answered. *)
Example Stream_terminated :
  Messages (conversation (fst (Stream (NewChatSession Examples.echo_client)
                                 "What is Go?")))
  = [Message.mk "user" "What is Go?";
     Message.mk "assistant" "reply to: What is Go?"].
Proof. reflexivity. Qed.

End Sessions.

(* ===================================================================== *)
(** ** Further properties of the retry engine *)
(* ===================================================================== *)

Section RetryRuns.

Import Retry RetryTrace.

Context {St : Type}.
Variable ctx : Context.
Variable retries : Z.
Variable delay_of : Z -> Z.
Variable operation : St -> option error * St.

Local Abbreviation loop := (retry_loop ctx retries delay_of operation).
Local Abbreviation run := (run_from ctx retries delay_of).


Lemma run_cancelled_is_last a tr r :
  run a tr r ->
  forall i d, tr !! i = Some (Cancelled d) ->
    length tr = S i /\ r = Some (Err ctx).
Proof.
  induction 1 as [a | a e | e | a e | a e tr r Ha He Hd Hrun IH]; intros i d Hi.
  - destruct i; [done | by destruct i].
  - destruct i; [done | by destruct i].
  - destruct i; [done | by destruct i].
  - destruct i as [| [| i]]; done.
  - destruct i as [| [| i]]; [done | done |].
    destruct (IH i d Hi) as [Hlen ?]. cbn [length]. by rewrite Hlen.
Qed.

(** The closure is called once for each invocation of the run, each call
    on the state the previous one left. *)
Lemma retry_loop_threads (fuel : nat) :
  forall a lastErr st r st' tr,
    loop fuel a lastErr st = Some (r, st', tr) ->
    st' = after_calls operation (invocations tr) st
    /\ length (results tr) = invocations tr
    /\ forall (k : nat) res, results tr !! k = Some res ->
         res = fst (operation (after_calls operation k st)).
Proof.
  induction fuel as [| fuel IH]; intros a lastErr st r st' tr Heq; [done |].
  cbn [retry_loop] in Heq.
  destruct (a <=? retries).
  2: { injection Heq as <- <- <-. repeat split. by intros k res. }
  destruct (operation st) as [err st1] eqn:Hop.
  assert (Hone : forall e,
    Some (e, st1, [Invoke err]) = Some (r, st', tr) ->
    st' = after_calls operation (invocations tr) st
    /\ length (results tr) = invocations tr
    /\ forall (k : nat) res, results tr !! k = Some res ->
         res = fst (operation (after_calls operation k st))).
  { intros e [= <- <- <-]. cbn. rewrite Hop. repeat split.
    intros [| k] res; [| done]. cbn. rewrite Hop. by intros [= <-]. }
  destruct err as [e |]; [| by apply (Hone None)].
  destruct (negb (IsRetryableError e)); [by apply (Hone (Some e)) |].
  destruct (a =? retries); [by apply (Hone (Some e)) |].
  destruct (Done ctx a).
  { injection Heq as <- <- <-. cbn. rewrite Hop. repeat split.
    intros [| k] res; [| done]. cbn. rewrite Hop. by intros [= <-]. }
  destruct (loop fuel (a + 1) (Some e) st1) as [[[r2 st2] tr2] |] eqn:Hrec;
    [| done].
  injection Heq as <- <- <-.
  destruct (IH _ _ _ _ _ _ Hrec) as (Hst & Hlen & Hres).
  unfold invocations in *. cbn. rewrite Hop. cbn.
  split; [done |]. split; [by rewrite Hlen |].
  intros [| k] res; cbn; [rewrite Hop; by intros [= <-] |].
  rewrite Hop. apply Hres.
Qed.


(** After a failure with a retryable error the run goes on with a wait,
    unless that was the last attempt allowed: then the run ends there
    and returns that error. *)
Lemma run_retryable_continues a tr r :
  run a tr r ->
  forall i e, tr !! i = Some (Invoke (Some e)) -> IsRetryableError e = true ->
    (exists d, tr !! S i = Some (Sleep d))
    \/ (exists d, tr !! S i = Some (Cancelled d))
    \/ (length tr = S i /\ Z.of_nat (invocations tr) = retries - a + 1
        /\ r = Some e).
Proof.
  unfold invocations.
  induction 1 as [a | a e | e | a e | a e tr r Ha He Hd Hrun IH];
    intros i e' Hi He'.
  - destruct i; [done | by destruct i].
  - destruct i; [| by destruct i]. injection Hi as ->. congruence.
  - destruct i; [| by destruct i]. injection Hi as ->.
    right. right. cbn. repeat split. lia.
  - destruct i as [| [| i]]; [| done | done]. right. left. by eexists.
  - destruct i as [| [| i]]; [left; by eexists | done |].
    destruct (IH i e' Hi He') as [[d Hs] | [[d Hc] | (Hlen & Hn & Hr)]].
    + left. by exists d.
    + right. left. by exists d.
    + right. right. cbn in *. rewrite Hlen. repeat split; [lia | done].
Qed.

(** The last call of a run: the run returns what it returned, unless
    the context ended the wait that followed it; that call had then
    failed with a retryable error. *)
Lemma run_last_result a tr r :
  run a tr r ->
  exists res,
    last (results tr) = Some res
    /\ ((last tr = Some (Invoke r) /\ res = r)
        \/ (exists d e, last tr = Some (Cancelled d) /\ r = Some (Err ctx)
                        /\ res = Some e /\ IsRetryableError e = true)).
Proof.
  induction 1 as [a | a e | e | a e | a e tr r Ha He Hd Hrun IH].
  - exists None. split; [done | by left].
  - exists (Some e). split; [done | by left].
  - exists (Some e). split; [done | by left].
  - exists (Some e). split; [done |]. right. by exists (delay_of a), e.
  - destruct IH as (res & Hlast & Hcases). exists res.
    assert (Htr : exists x tr', tr = x :: tr').
    { destruct tr as [| x tr']; [inversion Hrun | by eexists _, _]. }
    destruct Htr as (x & tr' & ->).
    change (last (Invoke (Some e) :: Sleep (delay_of a) :: x :: tr'))
      with (last (x :: tr')).
    split; [| exact Hcases].
    change (results (Invoke (Some e) :: Sleep (delay_of a) :: x :: tr'))
      with (Some e :: results (x :: tr')).
    destruct (results (x :: tr')) as [| y ys]; [done | exact Hlast].
Qed.

(** Which runs the context ends: the waits before the last call were
    not cancelled, and the run ends with a cancelled wait exactly when
    the last call failed with a retryable error, a further attempt was
    allowed and the context was done at the wait that followed. *)
Lemma run_cancellation a tr r :
  run a tr r ->
  (forall j : nat, (j < invocations tr - 1)%nat ->
     Done ctx (a + Z.of_nat j) = false)
  /\ ((exists d, last tr = Some (Cancelled d))
      <-> (a + Z.of_nat (invocations tr) - 1 < retries
           /\ Done ctx (a + Z.of_nat (invocations tr) - 1) = true
           /\ exists e, last (results tr) = Some (Some e)
                        /\ IsRetryableError e = true)).
Proof.
  unfold invocations.
  induction 1 as [a | a e | e | a e | a e tr r Ha He Hd Hrun IH].
  - split; [intros j Hj; cbn in Hj; lia |].
    split; [by intros [d ?] | by intros (_ & _ & e & ? & _)].
  - split; [intros j Hj; cbn in Hj; lia |].
    split; [by intros [d ?] |].
    intros (_ & _ & e' & [= <-] & He'). congruence.
  - split; [intros j Hj; cbn in Hj; lia |].
    split; [by intros [d ?] |]. cbn. intros (Hlt & _). lia.
  - split; [intros j Hj; cbn in Hj; lia |].
    split; [| intros _; by eexists].
    intros _. cbn.
    replace (a + Z.of_nat 1 - 1) with a by lia.
    split; [done |]. split; [done |]. by exists e.
  - destruct IH as [IHwaits IHlast].
    assert (Htr : exists x tr', tr = x :: tr').
    { destruct tr as [| x tr']; [inversion Hrun | by eexists _, _]. }
    destruct Htr as (x & tr' & ->).
    assert (Hres : exists y ys, results (x :: tr') = y :: ys).
    { destruct (run_starts_with_invoke _ _ _ _ _ _ Hrun) as [res Hx].
      cbn in Hx. injection Hx as ->. by eexists _, _. }
    destruct Hres as (y & ys & Hres).
    change (last (Invoke (Some e) :: Sleep (delay_of a) :: x :: tr'))
      with (last (x :: tr')).
    change (results (Invoke (Some e) :: Sleep (delay_of a) :: x :: tr'))
      with (Some e :: results (x :: tr')).
    change (List.filter is_invoke
              (Invoke (Some e) :: Sleep (delay_of a) :: x :: tr'))
      with (Invoke (Some e) :: List.filter is_invoke (x :: tr')).
    cbn [length].
    set (n := length (List.filter is_invoke (x :: tr'))) in *.
    split.
    + intros [| j] Hj.
      * by replace (a + Z.of_nat 0) with a by lia.
      * replace (a + Z.of_nat (S j)) with (a + 1 + Z.of_nat j) by lia.
        apply IHwaits. lia.
    + replace (a + Z.of_nat (S n) - 1) with (a + 1 + Z.of_nat n - 1) by lia.
      rewrite IHlast. rewrite Hres. done.
Qed.

End RetryRuns.

Section RetryContracts.

Import Retry RetryTrace.

(** The run that either entry point makes with [retries >= 0]. *)
Lemma executed_run {St : Type} ctx retries delay_of
    (operation : St -> option error * St) st err st' tr :
  0 <= retries ->
  retry_loop ctx retries delay_of operation (fuel_for retries) 0 None st
    = Some (err, st', tr) ->
  run_from ctx retries delay_of 0 tr err.
Proof.
  intros Hretries Heq.
  destruct (retry_loop_run ctx retries delay_of operation
              (fuel_for retries) 0 None st)
    as (r & st2 & tr2 & Heq2 & Hrun); [lia | unfold fuel_for; lia |].
  rewrite Heq2 in Heq. by injection Heq as <- <- <-.
Qed.

(** The first iteration of the loop, when the operation succeeds, when
    it fails for good, and when no retry is allowed. *)
Lemma retry_loop_first_call {St : Type} ctx retries delay_of
    (operation : St -> option error * St) fuel lastErr st err st' tr :
  0 <= retries ->
  retry_loop ctx retries delay_of operation (S fuel) 0 lastErr st
    = Some (err, st', tr) ->
  (fst (operation st) = None ->
     tr = [Invoke None] /\ err = None /\ st' = snd (operation st))
  /\ (forall e, fst (operation st) = Some e ->
        IsRetryableError e = false ->
        tr = [Invoke (Some e)] /\ err = Some e /\ st' = snd (operation st))
  /\ (retries = 0 ->
        tr = [Invoke (fst (operation st))] /\ err = fst (operation st)
        /\ st' = snd (operation st)).
Proof.
  intros Hretries Heq. cbn [retry_loop] in Heq.
  destruct (Z.leb_spec 0 retries) as [_ | ?]; [| lia].
  destruct (operation st) as [[e |] st1]; cbn [fst snd].
  2: { injection Heq as <- <- <-. repeat split; done. }
  destruct (IsRetryableError e) eqn:Hre; cbn [negb] in Heq.
  - split; [done |]. split; [intros e' [= <-]; congruence |].
    intros ->. cbn in Heq. by injection Heq as <- <- <-.
  - injection Heq as <- <- <-.
    split; [done |]. split; [by intros e' [= <-] | done].
Qed.

(** The contract of the loop that both entry points run, for
    [retries >= 0] and whatever the delays are. *)
Lemma retry_contract {St : Type} ctx retries delay_of
    (operation : St -> option error * St) st :
  0 <= retries ->
  exists err st' tr,
    retry_loop ctx retries delay_of operation (fuel_for retries) 0 None st
      = Some (err, st', tr)
  /\ (exists res, tr !! 0%nat = Some (Invoke res))
  /\ (1 <= invocations tr)%nat
  /\ Z.of_nat (invocations tr) <= retries + 1
  /\ st' = after_calls operation (invocations tr) st
  /\ length (results tr) = invocations tr
  /\ (forall (k : nat) res,
        results tr !! k = Some res ->
        res = fst (operation (after_calls operation k st)))
  /\ (forall i, tr !! i = Some (Invoke None) ->
        length tr = S i /\ err = None)
  /\ (forall i e, tr !! i = Some (Invoke (Some e)) ->
        IsRetryableError e = false -> length tr = S i /\ err = Some e)
  /\ (forall i e, tr !! i = Some (Invoke (Some e)) ->
        IsRetryableError e = true ->
        (exists d, tr !! S i = Some (Sleep d))
        \/ (exists d, tr !! S i = Some (Cancelled d))
        \/ (length tr = S i /\ Z.of_nat (invocations tr) = retries + 1
            /\ err = Some e))
  /\ (forall i d, tr !! i = Some (Sleep d) ->
        exists res, tr !! S i = Some (Invoke res))
  /\ (Z.of_nat (invocations tr) = retries + 1 ->
        exists res, last tr = Some (Invoke res))
  /\ ((forall k, Done ctx k = false) ->
        exists res, last tr = Some (Invoke res))
  /\ Z.of_nat (length (waits tr)) <= retries
  /\ (fst (operation st) = None ->
        tr = [Invoke None] /\ err = None /\ st' = snd (operation st))
  /\ (forall e, fst (operation st) = Some e ->
        IsRetryableError e = false ->
        tr = [Invoke (Some e)] /\ err = Some e
        /\ st' = snd (operation st))
  /\ (retries = 0 ->
        tr = [Invoke (fst (operation st))] /\ err = fst (operation st)
        /\ st' = snd (operation st)).
Proof.
  intros Hretries.
  destruct (retry_loop_run ctx retries delay_of operation
              (fuel_for retries) 0 None st) as (err & st' & tr & Heq & Hrun).
  { lia. }
  { unfold fuel_for. lia. }
  exists err, st', tr. split; [exact Heq |].
  split; [eapply run_starts_with_invoke; eauto |].
  pose proof (run_invocations _ _ _ _ _ _ Hrun) as [Hge Hle].
  split; [exact Hge |]. split; [lia |].
  destruct (retry_loop_threads _ _ _ _ _ _ _ _ _ _ _ Heq)
    as (Hst & Hlen & Hres).
  split; [exact Hst |]. split; [exact Hlen |]. split; [exact Hres |].
  split; [eapply run_success_is_last; eauto |].
  split; [eapply run_fatal_is_last; eauto |].
  split.
  { intros i e Hi He.
    destruct (run_retryable_continues _ _ _ _ _ _ Hrun i e Hi He)
      as [? | [? | (? & ? & ?)]]; [by left | right; by left |].
    right. right. repeat split; [done | lia | done]. }
  split; [eapply run_sleep_then_invoke; eauto |].
  split.
  { intros Hn. eapply run_last_attempt_ends; eauto. lia. }
  split; [eapply run_uncancelled_ends; eauto |].
  split.
  { pose proof (run_waits_bound _ _ _ _ _ _ Hrun). lia. }
  unfold fuel_for in Heq. rewrite Nat.add_1_r in Heq.
  exact (retry_loop_first_call _ _ _ _ _ _ _ _ _ _ Hretries Heq).
Qed.

(** C2.  For every [retries >= 0], every operation and every context,
    [ExecuteWithRetry] returns, and the run it makes is this.  The
    operation is invoked at least once and at most [retries + 1] times:
    the closure is called once for each invocation recorded, each call on
    the state the previous one left, and what is recorded is what it
    returned.  An invocation that succeeds is the last event and the
    result is nil; an invocation that fails with an error that is not
    retryable is the last event (nothing is invoked and nothing is
    waited for after it) and that error is the result; a failure with a
    retryable error is followed by a wait, unless it was invocation
    number [retries + 1]: then nothing follows and it is the result.
    Every wait that the timer ends is followed by a further invocation,
    so no delay comes after the final invocation, and there are at most
    [retries] waits.  In particular: when the first call succeeds the run
    is that call and the result nil; when it fails with an error that is
    not retryable the run is that call and the result that error; and
    with [retries = 0] the run is exactly one call, whose result is
    returned. *)
Theorem ExecuteWithRetry_attempts {St : Type} :
  forall (ctx : Context) (retries : Z) (operation : St -> option error * St)
         (st : St),
    0 <= retries ->
    exists err st' tr,
      ExecuteWithRetry ctx retries operation st = Some (err, st', tr)
      /\ (exists res, tr !! 0%nat = Some (Invoke res))
      /\ (1 <= invocations tr)%nat
      /\ Z.of_nat (invocations tr) <= retries + 1
      /\ st' = after_calls operation (invocations tr) st
      /\ length (results tr) = invocations tr
      /\ (forall (k : nat) res,
            results tr !! k = Some res ->
            res = fst (operation (after_calls operation k st)))
      /\ (forall i, tr !! i = Some (Invoke None) ->
            length tr = S i /\ err = None)
      /\ (forall i e, tr !! i = Some (Invoke (Some e)) ->
            IsRetryableError e = false -> length tr = S i /\ err = Some e)
      /\ (forall i e, tr !! i = Some (Invoke (Some e)) ->
            IsRetryableError e = true ->
            (exists d, tr !! S i = Some (Sleep d))
            \/ (exists d, tr !! S i = Some (Cancelled d))
            \/ (length tr = S i /\ Z.of_nat (invocations tr) = retries + 1
                /\ err = Some e))
      /\ (forall i d, tr !! i = Some (Sleep d) ->
            exists res, tr !! S i = Some (Invoke res))
      /\ (Z.of_nat (invocations tr) = retries + 1 ->
            exists res, last tr = Some (Invoke res))
      /\ ((forall k, Done ctx k = false) ->
            exists res, last tr = Some (Invoke res))
      /\ Z.of_nat (length (waits tr)) <= retries
      /\ (fst (operation st) = None ->
            tr = [Invoke None] /\ err = None /\ st' = snd (operation st))
      /\ (forall e, fst (operation st) = Some e ->
            IsRetryableError e = false ->
            tr = [Invoke (Some e)] /\ err = Some e
            /\ st' = snd (operation st))
      /\ (retries = 0 ->
            tr = [Invoke (fst (operation st))] /\ err = fst (operation st)
            /\ st' = snd (operation st)).
Proof.
  intros ctx retries operation st Hretries. unfold ExecuteWithRetry.
  by apply retry_contract.
Qed.

Lemma ExecuteWithRetry_attempts_witness :
  0 <= 2 /\
  exists err st' tr,
    ExecuteWithRetry Examples.background 2 (Examples.flaky 1) 0%nat
      = Some (err, st', tr)
    /\ Z.of_nat (invocations tr) <= 2 + 1
    /\ st' = after_calls (Examples.flaky 1) (invocations tr) 0%nat.
Proof.
  split; [lia |].
  destruct (ExecuteWithRetry_attempts Examples.background 2
              (Examples.flaky 1) 0%nat ltac:(lia))
    as (err & st' & tr & Heq & _ & _ & Hle & Hst & _).
  exists err, st', tr. split; [exact Heq |]. split; [exact Hle | exact Hst].
Defined.

(** X1.  [ExecuteWithExponentialBackoff] keeps the attempt contract of
    [ExecuteWithRetry]: for [retries >= 0] it returns; the operation is
    called at least once and at most [retries + 1] times, each call on
    the state the previous one left, and the run records what it
    returned; a success, and a failure that is not retryable, end the
    run and are its result; a failure with a retryable error is followed
    by a wait unless it was invocation number [retries + 1], which is
    then the result; a completed wait is followed by an invocation; at
    most [retries] waits are made; and with [retries = 0] the operation
    is called exactly once and its result returned. *)
Theorem ExecuteWithExponentialBackoff_attempts {St : Type} :
  forall (sat : Z) (ctx : Context) (retries baseDelay : Z)
         (operation : St -> option error * St) (st : St),
    0 <= retries ->
    exists err st' tr,
      ExecuteWithExponentialBackoff sat ctx retries baseDelay operation st
        = Some (err, st', tr)
      /\ (exists res, tr !! 0%nat = Some (Invoke res))
      /\ (1 <= invocations tr)%nat
      /\ Z.of_nat (invocations tr) <= retries + 1
      /\ st' = after_calls operation (invocations tr) st
      /\ length (results tr) = invocations tr
      /\ (forall (k : nat) res,
            results tr !! k = Some res ->
            res = fst (operation (after_calls operation k st)))
      /\ (forall i, tr !! i = Some (Invoke None) ->
            length tr = S i /\ err = None)
      /\ (forall i e, tr !! i = Some (Invoke (Some e)) ->
            IsRetryableError e = false -> length tr = S i /\ err = Some e)
      /\ (forall i e, tr !! i = Some (Invoke (Some e)) ->
            IsRetryableError e = true ->
            (exists d, tr !! S i = Some (Sleep d))
            \/ (exists d, tr !! S i = Some (Cancelled d))
            \/ (length tr = S i /\ Z.of_nat (invocations tr) = retries + 1
                /\ err = Some e))
      /\ (forall i d, tr !! i = Some (Sleep d) ->
            exists res, tr !! S i = Some (Invoke res))
      /\ (Z.of_nat (invocations tr) = retries + 1 ->
            exists res, last tr = Some (Invoke res))
      /\ ((forall k, Done ctx k = false) ->
            exists res, last tr = Some (Invoke res))
      /\ Z.of_nat (length (waits tr)) <= retries
      /\ (fst (operation st) = None ->
            tr = [Invoke None] /\ err = None /\ st' = snd (operation st))
      /\ (forall e, fst (operation st) = Some e ->
            IsRetryableError e = false ->
            tr = [Invoke (Some e)] /\ err = Some e
            /\ st' = snd (operation st))
      /\ (retries = 0 ->
            tr = [Invoke (fst (operation st))] /\ err = fst (operation st)
            /\ st' = snd (operation st)).
Proof.
  intros sat ctx retries baseDelay operation st Hretries.
  unfold ExecuteWithExponentialBackoff. by apply retry_contract.
Qed.

Lemma ExecuteWithExponentialBackoff_attempts_witness :
  exists err st' tr,
    ExecuteWithExponentialBackoff Int64.min_signed Examples.background 3
      (Second / 10) (Examples.flaky 2) 0%nat = Some (err, st', tr)
    /\ Z.of_nat (invocations tr) <= 3 + 1
    /\ st' = after_calls (Examples.flaky 2) (invocations tr) 0%nat
    /\ Z.of_nat (length (waits tr)) <= 3.
Proof.
  destruct (ExecuteWithExponentialBackoff_attempts Int64.min_signed
              Examples.background 3 (Second / 10) (Examples.flaky 2) 0%nat
              ltac:(lia))
    as (err & st' & tr & Heq & _ & _ & Hle & Hst & _ & _ & _ & _ & _ & _
        & _ & _ & Hw & _).
  exists err, st', tr. split; [exact Heq |].
  split; [exact Hle |]. split; [exact Hst | exact Hw].
Defined.

(** X2.  With a negative [retries] neither entry point invokes the
    operation: both return a nil error at once and leave the closure as
    it was. *)
Theorem negative_retries_do_nothing {St : Type} :
  forall (sat : Z) (ctx : Context) (retries baseDelay : Z)
         (operation : St -> option error * St) (st : St),
    retries < 0 ->
    ExecuteWithRetry ctx retries operation st = Some (None, st, [])
    /\ ExecuteWithExponentialBackoff sat ctx retries baseDelay operation st
       = Some (None, st, []).
Proof.
  intros sat ctx retries baseDelay operation st Hneg.
  unfold ExecuteWithRetry, ExecuteWithExponentialBackoff, fuel_for.
  rewrite Nat.add_1_r. by rewrite !retry_loop_negative.
Qed.

Lemma negative_retries_do_nothing_witness :
  ExecuteWithRetry Examples.background (-3) Examples.always_timeout 7%nat
  = Some (None, 7%nat, []).
Proof.
  exact (proj1 (negative_retries_do_nothing 0 Examples.background (-3) Second
                  Examples.always_timeout 7%nat ltac:(lia))).
Defined.

(** X3.  The error that [ExecuteWithRetry] and
    [ExecuteWithExponentialBackoff] return, for [retries >= 0], is what
    the last call of the operation returned, unchanged: the result of
    the operation on the state that the calls before it left.  The one
    exception is a wait that the context ended: then the run stops at
    that wait, nothing more is invoked, and the error is the context's,
    while the last call had failed with a retryable error, which is
    dropped.  That happens exactly when the last call failed with a
    retryable error, a further attempt was allowed and the context was
    done at the wait that followed; at the waits before, it was not.
    Without cancellation the result is always that of the last call. *)
Theorem retry_result_provenance {St : Type} :
  forall (sat : Z) (ctx : Context) (retries baseDelay : Z)
         (operation : St -> option error * St) (st : St) err st' tr,
    0 <= retries ->
    ExecuteWithRetry ctx retries operation st = Some (err, st', tr)
    \/ ExecuteWithExponentialBackoff sat ctx retries baseDelay operation st
       = Some (err, st', tr) ->
    let last_call :=
      fst (operation (after_calls operation (invocations tr - 1) st)) in
    (1 <= invocations tr)%nat
    /\ st' = after_calls operation (invocations tr) st
    /\ ((last tr = Some (Invoke err) /\ err = last_call)
        \/ (exists d e, last tr = Some (Cancelled d) /\ err = Some (Err ctx)
                        /\ last_call = Some e /\ IsRetryableError e = true))
    /\ (forall i d, tr !! i = Some (Cancelled d) ->
          length tr = S i /\ err = Some (Err ctx))
    /\ (forall j : nat, (j < invocations tr - 1)%nat ->
          Done ctx (Z.of_nat j) = false)
    /\ ((exists d, last tr = Some (Cancelled d))
        <-> (Z.of_nat (invocations tr) - 1 < retries
             /\ Done ctx (Z.of_nat (invocations tr) - 1) = true
             /\ exists e, last_call = Some e /\ IsRetryableError e = true))
    /\ ((forall k, Done ctx k = false) ->
          last tr = Some (Invoke err) /\ err = last_call).
Proof.
  intros sat ctx retries baseDelay operation st err st' tr Hretries Heq
    last_call.
  assert (Hloop : exists delay_of,
    retry_loop ctx retries delay_of operation (fuel_for retries) 0 None st
    = Some (err, st', tr)).
  { destruct Heq as [Heq | Heq]; eexists; exact Heq. }
  destruct Hloop as [delay_of Hloop].
  pose proof (executed_run _ _ _ _ _ _ _ _ Hretries Hloop) as Hrun.
  destruct (retry_loop_threads _ _ _ _ _ _ _ _ _ _ _ Hloop)
    as (Hst & Hlen & Hres).
  pose proof (run_invocations _ _ _ _ _ _ Hrun) as [Hge _].
  destruct (run_last_result _ _ _ _ _ _ Hrun) as (res & Hlast & Hcases).
  assert (Hcall : res = last_call).
  { rewrite last_lookup, Hlen in Hlast.
    rewrite <- Nat.sub_1_r in Hlast. exact (Hres _ _ Hlast). }
  assert (Hends :
    (last tr = Some (Invoke err) /\ err = last_call)
    \/ (exists d e, last tr = Some (Cancelled d) /\ err = Some (Err ctx)
                    /\ last_call = Some e /\ IsRetryableError e = true)).
  { destruct Hcases as [[Hl Hr] | (d & e & Hl & Hr & He & Hretry)].
    - left. split; [exact Hl | congruence].
    - right. exists d, e. repeat split; [exact Hl | exact Hr | congruence
                                       | exact Hretry]. }
  split; [exact Hge |]. split; [exact Hst |]. split; [exact Hends |].
  split; [eapply run_cancelled_is_last; eauto |].
  destruct (run_cancellation _ _ _ _ _ _ Hrun) as [Hwaits Hcancelled].
  split; [exact Hwaits |].
  split.
  { rewrite Hcancelled, Hlast.
    replace (0 + Z.of_nat (invocations tr) - 1)
      with (Z.of_nat (invocations tr) - 1) by lia.
    split; intros (Hlt & Hdone & e & He & Hretry);
      (split; [exact Hlt |]; split; [exact Hdone |]; exists e;
       split; [congruence | exact Hretry]). }
  intros Hctx.
  destruct (run_uncancelled_ends _ _ _ _ _ _ Hrun Hctx) as [r Hlast'].
  destruct Hends as [? | (d & e & Hd & _)]; [done | congruence].
Qed.

Lemma retry_result_provenance_witness :
  ExecuteWithRetry Scenarios.cancelled_early 2 Examples.always_timeout 0%nat
  = Some (Some (OtherError "context canceled"), 1%nat,
          [Invoke (Some (NewTimeoutError "30s")); Cancelled Second])
  /\ (length [Invoke (Some (NewTimeoutError "30s")); Cancelled Second] = 2%nat
      /\ Some (OtherError "context canceled")
         = Some (Err Scenarios.cancelled_early)).
Proof.
  assert (Hrun :
    ExecuteWithRetry Scenarios.cancelled_early 2 Examples.always_timeout 0%nat
    = Some (Some (OtherError "context canceled"), 1%nat,
            [Invoke (Some (NewTimeoutError "30s")); Cancelled Second]))
    by (vm_compute; reflexivity).
  split; [exact Hrun |].
  destruct (retry_result_provenance 0 Scenarios.cancelled_early 2 Second
              Examples.always_timeout 0%nat _ _ _ ltac:(lia) (or_introl Hrun))
    as (_ & _ & _ & Hcancel & _).
  exact (Hcancel 1%nat Second eq_refl).
Defined.

(** X4.  In a run of either entry point the closure is called once for
    each invocation recorded, each call on the state that the previous
    call left: the final state is the state after that many calls, and
    the [k]-th result is what the operation returns on the state after
    [k] calls. *)
Theorem retry_calls_in_sequence {St : Type} :
  forall (sat : Z) (ctx : Context) (retries baseDelay : Z)
         (operation : St -> option error * St) (st : St) err st' tr,
    ExecuteWithRetry ctx retries operation st = Some (err, st', tr)
    \/ ExecuteWithExponentialBackoff sat ctx retries baseDelay operation st
       = Some (err, st', tr) ->
    st' = after_calls operation (invocations tr) st
    /\ length (results tr) = invocations tr
    /\ forall (k : nat) res, results tr !! k = Some res ->
         res = fst (operation (after_calls operation k st)).
Proof.
  intros sat ctx retries baseDelay operation st err st' tr [Heq | Heq];
    eapply retry_loop_threads; exact Heq.
Qed.

Lemma retry_calls_in_sequence_witness :
  exists tr,
    ExecuteWithRetry Examples.background 5 Scenarios.limited_then_rejected
      0%nat = Some (Some NewInvalidAPIKeyError, 2%nat, tr)
    /\ 2%nat = after_calls Scenarios.limited_then_rejected (invocations tr)
                 0%nat.
Proof.
  exists [Invoke (Some NewRateLimitError); Sleep Second;
          Invoke (Some NewInvalidAPIKeyError)].
  assert (Hrun :
    ExecuteWithRetry Examples.background 5 Scenarios.limited_then_rejected
      0%nat
    = Some (Some NewInvalidAPIKeyError, 2%nat,
            [Invoke (Some NewRateLimitError); Sleep Second;
             Invoke (Some NewInvalidAPIKeyError)]))
    by (vm_compute; reflexivity).
  split; [exact Hrun |].
  exact (proj1 (retry_calls_in_sequence 0 Examples.background 5 Second
                  Scenarios.limited_then_rejected 0%nat _ _ _
                  (or_introl Hrun))).
Defined.

End RetryContracts.

Section NegativeRuns.

Import Retry.

Lemma negative_run {St : Type} ctx retries
    (operation : St -> option error * St) st :
  retries < 0 ->
  ExecuteWithRetry ctx retries operation st = Some (None, st, [])
  /\ forall sat baseDelay,
       ExecuteWithExponentialBackoff sat ctx retries baseDelay operation st
       = Some (None, st, []).
Proof.
  intros Hneg.
  unfold ExecuteWithRetry, ExecuteWithExponentialBackoff, fuel_for.
  rewrite Nat.add_1_r. rewrite retry_loop_negative by done.
  split; [done |]. intros sat baseDelay. by rewrite retry_loop_negative.
Qed.

End NegativeRuns.

Section RetryExhaustion.

Import Retry RetryTrace.



(** X6.  The waits of [ExecuteWithRetry] grow by one second per attempt:
    the wait after attempt number [k] is [k + 1] seconds, for every [k]
    below 9223372036 (beyond, the product leaves the [int64] range), and
    a run never waits more than [retries] times. *)
Theorem ExecuteWithRetry_linear_schedule {St : Type} :
  forall (ctx : Context) (retries : Z)
         (operation : St -> option error * St) (st : St) err st' tr,
    ExecuteWithRetry ctx retries operation st = Some (err, st', tr) ->
    Z.of_nat (length (waits tr)) <= Z.max 0 retries
    /\ forall (k : nat) (d : Z),
         waits tr !! k = Some d ->
         Z.of_nat k < 9223372036 ->
         d = (Z.of_nat k + 1) * Second.
Proof.
  intros ctx retries operation st err st' tr Heq. split.
  - destruct (Z.lt_ge_cases retries 0) as [Hneg | Hpos].
    + destruct (negative_run ctx retries operation st Hneg) as [Hnone _].
      rewrite Hnone in Heq. injection Heq as <- <- <-. cbn. lia.
    + pose proof (executed_run _ _ _ _ _ _ _ _ Hpos Heq) as Hrun.
      pose proof (run_waits_bound _ _ _ _ _ _ Hrun). lia.
  - intros k d Hk Hsmall.
    by apply (ExecuteWithRetry_waits _ _ _ _ _ _ _ Heq k d Hk).
Qed.

End RetryExhaustion.

Section LinearSchedule.

Import Retry.

Lemma ExecuteWithRetry_linear_schedule_witness :
  waits [Invoke (Some (NewTimeoutError "30s")); Sleep Second;
         Invoke (Some (NewTimeoutError "30s")); Sleep (2 * Second);
         Invoke (Some (NewTimeoutError "30s"))] !! 1%nat
  = Some (2 * Second)
  /\ 2 * Second = (Z.of_nat 1 + 1) * Second.
Proof.
  split; [reflexivity |].
  assert (Hrun :
    ExecuteWithRetry Examples.background 2 Examples.always_timeout 0%nat
    = Some (Some (NewTimeoutError "30s"), 3%nat,
            [Invoke (Some (NewTimeoutError "30s")); Sleep Second;
             Invoke (Some (NewTimeoutError "30s")); Sleep (2 * Second);
             Invoke (Some (NewTimeoutError "30s"))]))
    by (vm_compute; reflexivity).
  exact (proj2 (ExecuteWithRetry_linear_schedule _ _ _ _ _ _ _ Hrun)
           1%nat (2 * Second) eq_refl ltac:(lia)).
Defined.

End LinearSchedule.

(* ===================================================================== *)
(** ** Properties of error values *)
(* ===================================================================== *)

Section ErrorMatching.

Import ErrorValues.

Lemma Is_true_iff (e t : error) :
  Is e t = true <->
  exists ty code m c m' c',
    e = ClientError ty code m c /\ t = ClientError ty code m' c'.
Proof.
  split.
  - destruct e as [ty code m c | |]; [| done | done].
    destruct t as [ty' code' m' c' | |]; [| done | done].
    cbn. rewrite andb_true_iff, !String.eqb_eq. intros [<- <-].
    by eexists _, _, _, _, _, _.
  - intros (ty & code & m & c & m' & c' & -> & ->). cbn.
    by rewrite !String.eqb_refl.
Qed.

(** X7.  [Is] matches two errors exactly when both are client errors
    with the same kind and the same code, whatever their messages and
    causes; it is symmetric, transitive and reflexive on the errors it
    matches; and two errors that match are classified alike by
    [IsRetryableError], [IsAuthenticationError] and [IsNetworkError]. *)
Theorem Is_matches_kind_and_code :
  forall e t : error,
    (Is e t = true <->
       exists ty code m c m' c',
         e = ClientError ty code m c /\ t = ClientError ty code m' c')
    /\ (Is e t = true ->
        Is t e = true /\ Is e e = true
        /\ (forall u, Is t u = true -> Is e u = true)
        /\ IsRetryableError e = IsRetryableError t
        /\ IsAuthenticationError e = IsAuthenticationError t
        /\ IsNetworkError e = IsNetworkError t).
Proof.
  intros e t. split; [apply Is_true_iff |].
  intros (ty & code & m & c & m' & c' & -> & ->)%Is_true_iff.
  split; [apply Is_true_iff; by eexists _, _, _, _, _, _ |].
  split; [apply Is_true_iff; by eexists _, _, _, _, _, _ |].
  split; [| done].
  intros u (ty2 & code2 & m2 & c2 & m3 & c3 & [= <- <-] & ->)%Is_true_iff.
  apply Is_true_iff. by eexists _, _, _, _, _, _.
Qed.

Lemma Is_matches_kind_and_code_witness :
  Is (NewBadRequestError "second") (NewBadRequestError "first") = true
  /\ IsRetryableError (NewBadRequestError "first")
     = IsRetryableError (NewBadRequestError "second").
Proof.
  destruct (proj2 (Is_matches_kind_and_code (NewBadRequestError "first")
                     (NewBadRequestError "second")) eq_refl)
    as (Hsym & _ & _ & Hretry & _).
  split; [exact Hsym | exact Hretry].
Defined.

(** X8.  The constructors and the classification: of the errors the
    constructors build, whatever their arguments, the retryable ones are
    exactly the timeout, connection, DNS, rate-limit and server errors;
    the authentication errors are exactly the invalid-key, expired-token
    and permission-denied errors; the network errors are exactly the
    timeout, connection and DNS errors. *)
Theorem constructors_classified :
  forall (s : string) (err : error) (hint : option string) (status : Z),
    let classes e :=
      (IsRetryableError e, IsAuthenticationError e, IsNetworkError e) in
    classes (NewTimeoutError s) = (true, false, true)
    /\ classes (NewConnectionError err) = (true, false, true)
    /\ classes (NewDNSError s err) = (true, false, true)
    /\ classes (ErrorValues.NewRateLimitError hint) = (true, false, false)
    /\ classes (NewServerError status s) = (true, false, false)
    /\ classes NewQuotaExceededError = (false, false, false)
    /\ classes (NewInvalidModelError s) = (false, false, false)
    /\ classes (NewBadRequestError s) = (false, false, false)
    /\ classes NewInvalidAPIKeyError = (false, true, false)
    /\ classes NewExpiredTokenError = (false, true, false)
    /\ classes (NewPermissionDeniedError s) = (false, true, false)
    /\ classes (NewInvalidParameterError s s) = (false, false, false)
    /\ classes (NewMissingConfigError s) = (false, false, false)
    /\ classes (NewConfigError s) = (false, false, false)
    /\ classes (NewJSONParseError err) = (false, false, false)
    /\ classes (NewMissingFieldError s) = (false, false, false)
    /\ classes NewStreamClosedError = (false, false, false)
    /\ classes (NewStreamReadError err) = (false, false, false).
Proof. intros s err hint status classes. repeat split. Qed.

(** The constructors that take a cause keep it: [Unwrap] gives back
    the very error that was wrapped, and the text of the wrapping error
    ends with the text of its cause; an error built without a cause
    unwraps to nil. *)
Theorem wrapped_cause_is_kept :
  forall (err : error) (hostname : string),
    Unwrap (NewConnectionError err) = Some err
    /\ Unwrap (NewDNSError hostname err) = Some err
    /\ Unwrap (NewJSONParseError err) = Some err
    /\ Unwrap (NewStreamReadError err) = Some err
    /\ Error (NewConnectionError err)
       = ("network: failed to connect to the API server (caused by: "
            ++ Error err ++ ")")%string
    /\ Error (NewDNSError hostname err)
       = ("network: failed to resolve hostname: " ++ hostname
            ++ " (caused by: " ++ Error err ++ ")")%string
    /\ Error (NewJSONParseError err)
       = ("parse: failed to parse JSON response (caused by: "
            ++ Error err ++ ")")%string
    /\ Error (NewStreamReadError err)
       = ("stream: failed to read from stream (caused by: "
            ++ Error err ++ ")")%string
    /\ Unwrap (NewMissingFieldError hostname) = None
    /\ Unwrap NewInvalidAPIKeyError = None
    /\ Unwrap (Errors.NewRateLimitError) = None.
Proof.
  intros err hostname. repeat split.
Qed.

End ErrorMatching.

(* ===================================================================== *)
(** ** Properties of the vendor clients *)
(* ===================================================================== *)

Section ApiErrors.

Import ErrorValues Transport.

Variable api_name : string.
Variable model : string.
Variable rendered_timeout : string.
Variable mentions_model : string -> bool.
Variable decode_error : string -> option string.
Variable decode_response : string -> list string + error.

Local Abbreviation parse := (parseAPIError api_name model mentions_model).
Local Abbreviation send :=
  (sendRequest api_name model rendered_timeout mentions_model
     decode_error decode_response).

Lemma parseAPIError_retryable statusCode message :
  IsRetryableError (parse statusCode message) = true
  <-> statusCode <> 400 /\ statusCode <> 401 /\ statusCode <> 403.
Proof.
  unfold parseAPIError.
  destruct (Z.eqb_spec statusCode 401) as [-> | ?]; [cbn; lia |].
  destruct (Z.eqb_spec statusCode 429) as [-> | ?]; [cbn; lia |].
  destruct (Z.eqb_spec statusCode 400) as [-> | ?].
  { destruct (mentions_model message); cbn; lia. }
  destruct (Z.eqb_spec statusCode 403) as [-> | ?]; [cbn; lia |].
  cbn. lia.
Qed.

Lemma parseAPIError_authentication statusCode message :
  IsAuthenticationError (parse statusCode message) = true
  <-> statusCode = 401 \/ statusCode = 403.
Proof.
  unfold parseAPIError.
  destruct (Z.eqb_spec statusCode 401) as [-> | ?]; [cbn; lia |].
  destruct (Z.eqb_spec statusCode 429) as [-> | ?]; [cbn; lia |].
  destruct (Z.eqb_spec statusCode 400) as [-> | ?].
  { destruct (mentions_model message); cbn; lia. }
  destruct (Z.eqb_spec statusCode 403) as [-> | ?]; [cbn; lia |].
  cbn. lia.
Qed.

Lemma sendRequest_status statusCode body :
  statusCode <> 200 ->
  exists err,
    send (Responded statusCode body) = inr err
    /\ (IsRetryableError err = true
        <-> decode_error body = None
            \/ (statusCode <> 400 /\ statusCode <> 401 /\ statusCode <> 403)).
Proof.
  intros Hstatus. cbn [sendRequest].
  destruct (Z.eqb_spec statusCode 200) as [? | _]; [done |]. cbn [negb].
  destruct (decode_error body) as [message |].
  - eexists. split; [reflexivity |]. rewrite parseAPIError_retryable.
    split; [by right | by intros [? | ?]].
  - eexists. split; [reflexivity |]. cbn. split; [by left | done].
Qed.

End ApiErrors.

Section ApiErrorResults.

Import ErrorValues Transport.

(** X9.  [parseAPIError], in each of the three clients: the error it
    builds is retryable exactly when the status is none of 400, 401 and
    403 (so 429 is, and so is every status the switch does not name); it
    is an authentication error exactly for 401 and 403; it is never a
    network error; and a 400 whose message mentions the model is an
    invalid-model error, any other 400 a bad request carrying the
    message. *)
Theorem parseAPIError_classification :
  forall (api_name model : string) (mentions_model : string -> bool)
         (statusCode : Z) (message : string),
    (IsRetryableError
       (parseAPIError api_name model mentions_model statusCode message) = true
     <-> statusCode <> 400 /\ statusCode <> 401 /\ statusCode <> 403)
    /\ (IsAuthenticationError
          (parseAPIError api_name model mentions_model statusCode message)
        = true
        <-> statusCode = 401 \/ statusCode = 403)
    /\ IsNetworkError
         (parseAPIError api_name model mentions_model statusCode message)
       = false
    /\ parseAPIError api_name model mentions_model 400 message
       = (if mentions_model message then NewInvalidModelError model
          else NewBadRequestError message).
Proof.
  intros api_name model mentions_model statusCode message.
  split; [apply parseAPIError_retryable |].
  split; [apply parseAPIError_authentication |].
  split; [| reflexivity].
  unfold parseAPIError.
  repeat (case_match; try reflexivity).
Qed.

(** X10.  [sendRequest]: it returns a response only for a status of
    exactly 200 whose body decodes, and then the decoded response; a
    failure to build or to send the request or to read the body is a
    network error, hence retryable; a body of a 200 that does not decode
    is a parse error that wraps the decoder's error and is not
    retryable; any other status is an error, retryable unless the status
    is 400, 401 or 403 and the body decodes as an error object. *)
Theorem sendRequest_outcomes :
  forall (api_name model rendered_timeout : string)
         (mentions_model : string -> bool)
         (decode_error : string -> option string)
         (decode_response : string -> list string + error)
         (x : exchange),
    let send := sendRequest api_name model rendered_timeout mentions_model
                  decode_error decode_response in
    (forall texts,
       send x = inl texts
       <-> exists body, x = Responded 200 body
                        /\ decode_response body = inl texts)
    /\ (forall b err,
          x = RequestFailed err \/ x = DoFailed b err \/ x = ReadFailed err ->
          exists e, send x = inr e /\ IsNetworkError e = true
                    /\ IsRetryableError e = true)
    /\ (forall body err,
          x = Responded 200 body -> decode_response body = inr err ->
          send x = inr (NewJSONParseError err)
          /\ IsRetryableError (NewJSONParseError err) = false)
    /\ (forall statusCode body,
          x = Responded statusCode body -> statusCode <> 200 ->
          exists e,
            send x = inr e
            /\ (IsRetryableError e = true
                <-> decode_error body = None
                    \/ (statusCode <> 400 /\ statusCode <> 401
                        /\ statusCode <> 403))).
Proof.
  intros api_name model rendered_timeout mentions_model decode_error
    decode_response x send. subst send.
  split; [| split; [| split]].
  - intros texts. split.
    + destruct x as [e | e | b e | e | statusCode body]; cbn;
        try (by destruct b); try done.
      destruct (Z.eqb_spec statusCode 200) as [-> | ?]; cbn.
      * destruct (decode_response body) eqn:Hd; [| done].
        intros [= <-]. by exists body.
      * by destruct (decode_error body).
    + intros (body & -> & Hd). cbn. by rewrite Hd.
  - intros b err [-> | [-> | ->]]; cbn; [| destruct b |];
      eexists; by repeat split.
  - intros body err -> Hd. cbn. by rewrite Hd.
  - intros statusCode body -> Hstatus. by apply sendRequest_status.
Qed.

Lemma sendRequest_outcomes_witness :
  exists e,
    sendRequest "OpenAI API" "gpt-4" "30s" (fun _ => false) (fun _ => None)
      (fun _ => inl []) (Responded 401 "<html>Unauthorized</html>") = inr e
    /\ IsRetryableError e = true.
Proof.
  destruct (proj2 (proj2 (proj2
              (sendRequest_outcomes "OpenAI API" "gpt-4" "30s"
                 (fun _ => false) (fun _ => None) (fun _ => inl [])
                 (Responded 401 "<html>Unauthorized</html>"))))
              401 "<html>Unauthorized</html>" eq_refl ltac:(lia))
    as (e & Heq & Hiff).
  exists e. split; [exact Heq |]. apply Hiff. by left.
Defined.

End ApiErrorResults.

Section SendConversationFacts.

Import Retry RetryTrace ErrorValues Transport.
Local Open Scope nat_scope.

Lemma after_calls_succ {St : Type} (op : St -> option error * St) k st :
  after_calls op (S k) st = snd (op (after_calls op k st)).
Proof.
  revert st. induction k as [| k IH]; intros st; [done |].
  change (after_calls op (S (S k)) st)
    with (after_calls op (S k) (snd (op st))).
  by rewrite IH.
Qed.


Variable api_name : string.
Variable model : string.
Variable rendered_timeout : string.
Variable mentions_model : string -> bool.
Variable decode_error : string -> option string.
Variable decode_response : string -> list string + error.
Variable exchanges : nat -> exchange.
Variable missing : string.

Local Abbreviation send :=
  (sendRequest api_name model rendered_timeout mentions_model
     decode_error decode_response).
Local Abbreviation op :=
  (operation api_name model rendered_timeout mentions_model
     decode_error decode_response exchanges missing).



End SendConversationFacts.

Section SendConversationResults.

Import Retry RetryTrace ErrorValues Transport.
Local Open Scope nat_scope.



(** A rate-limited request is retried after one second and the second
    response is the result; a response that decodes to nothing is not
    retried. *)
Example SendConversation_runs :
  SendConversation "OpenAI API" "gpt-4" "30s" (fun _ => false)
    (fun body => Some body)
    (fun body => if String.eqb body "{}" then inl [] else inl [body])
    (fun n => if (n =? 0)%nat then Responded 429 "slow down"
              else Responded 200 "Hello!")
    "choices" Examples.background 3
  = Some (("Hello!", None), 2)
  /\ SendConversation "OpenAI API" "gpt-4" "30s" (fun _ => false)
       (fun body => Some body)
       (fun body => if String.eqb body "{}" then inl [] else inl [body])
       (fun _ => Responded 200 "{}")
       "choices" Examples.background 3
     = Some (("", Some (NewMissingFieldError "choices")), 1).
Proof. split; vm_compute; reflexivity. Qed.

End SendConversationResults.

(* ===================================================================== *)
(** ** Properties of the stream normalizer *)
(* ===================================================================== *)

Section Scanning.

Import ErrorValues Transport Normalizer ChunkShape.
Local Open Scope nat_scope.

Variable decode_chunk : string -> option (list (string * bool)).
Variable decode_event : string -> option (string * option (string * string)).

Lemma scan_shape_cons scan_err text chunks err :
  scan_shape scan_err (chunks, err) ->
  scan_shape scan_err (chunk text false :: chunks, err).
Proof.
  intros [[Hall Herr] | [(pre & c & Heq & Hpre & Hc) Herr]]; cbn in *.
  - left. split; [by constructor | done].
  - right. split; [| done]. exists (chunk text false :: pre), c.
    subst chunks. split; [done |]. split; [by constructor | done].
Qed.

Lemma scan_shape_stop scan_err text :
  scan_shape scan_err ([chunk text true], None).
Proof. right. split; [| done]. by exists [], (chunk text true). Qed.

Lemma openai_scan_shape scan_err lines :
  scan_shape scan_err (openai_scan decode_chunk scan_err lines).
Proof.
  induction lines as [| line rest IH]; cbn [openai_scan].
  { left. by split. }
  destruct (is_data line); [| exact IH].
  destruct (String.eqb (data_of line) "[DONE]"); [apply scan_shape_stop |].
  destruct (decode_chunk (data_of line)) as [[| [content finished] choices] |];
    [exact IH | | exact IH].
  destruct finished; [apply scan_shape_stop |].
  destruct (openai_scan decode_chunk scan_err rest) as [chunks err].
  by apply scan_shape_cons.
Qed.

Lemma claude_scan_shape scan_err lines :
  scan_shape scan_err (claude_scan decode_event scan_err lines).
Proof.
  induction lines as [| line rest IH]; cbn [claude_scan].
  { left. by split. }
  destruct (is_data line); [| exact IH].
  destruct (String.eqb (data_of line) "[DONE]"); [apply scan_shape_stop |].
  destruct (decode_event (data_of line)) as [[type delta] |]; [| exact IH].
  destruct (String.eqb type "content_block_delta").
  - destruct delta as [[delta_type text] |]; [| exact IH].
    destruct (String.eqb delta_type "text_delta"); [| exact IH].
    destruct (claude_scan decode_event scan_err rest) as [chunks err].
    by apply scan_shape_cons.
  - destruct (String.eqb type "message_stop"); [apply scan_shape_stop |].
    exact IH.
Qed.

(** After the sentinel nothing is read. *)
Lemma openai_scan_done scan_err l1 l2 :
  openai_scan decode_chunk scan_err (l1 ++ "data: [DONE]" :: l2)%list
  = openai_scan decode_chunk None (l1 ++ ["data: [DONE]"])%list.
Proof.
  induction l1 as [| line rest IH]; [done |].
  cbn [app openai_scan]. rewrite IH. done.
Qed.

Lemma claude_scan_done scan_err l1 l2 :
  claude_scan decode_event scan_err (l1 ++ "data: [DONE]" :: l2)%list
  = claude_scan decode_event None (l1 ++ ["data: [DONE]"])%list.
Proof.
  induction l1 as [| line rest IH]; [done |].
  cbn [app claude_scan]. rewrite IH. done.
Qed.

Lemma openai_scan_done_terminated l1 :
  exists chunks,
    openai_scan decode_chunk None (l1 ++ ["data: [DONE]"])%list
    = (chunks, None) /\ terminated chunks.
Proof.
  induction l1 as [| line rest (chunks & IH & Hterm)].
  { exists [chunk "" true]. split; [done |]. by exists [], (chunk "" true). }
  cbn [app openai_scan]. rewrite IH.
  assert (Hstop : forall text,
            terminated [chunk text true]) by (intros; by eexists [], _).
  repeat case_match; simplify_eq; eauto.
  eexists. split; [done |].
  destruct Hterm as (pre & c & -> & Hpre & Hc).
  eexists (_ :: pre), c. split; [done |]. split; [by constructor | done].
Qed.

Lemma claude_scan_done_terminated l1 :
  exists chunks,
    claude_scan decode_event None (l1 ++ ["data: [DONE]"])%list
    = (chunks, None) /\ terminated chunks.
Proof.
  induction l1 as [| line rest (chunks & IH & Hterm)].
  { exists [chunk "" true]. split; [done |]. by exists [], (chunk "" true). }
  cbn [app claude_scan]. rewrite IH.
  assert (Hstop : forall text,
            terminated [chunk text true]) by (intros; by eexists [], _).
  repeat case_match; simplify_eq; eauto.
  eexists. split; [done |].
  destruct Hterm as (pre & c & -> & Hpre & Hc).
  eexists (_ :: pre), c. split; [done |]. split; [by constructor | done].
Qed.

(** Lines that are not frames change nothing. *)
Lemma openai_scan_frames scan_err lines :
  openai_scan decode_chunk scan_err
    (List.filter (openai_frame decode_chunk) lines)
  = openai_scan decode_chunk scan_err lines.
Proof.
  induction lines as [| line rest IH]; [done |].
  cbn [List.filter]. unfold openai_frame at 1.
  cbn [openai_scan].
  destruct (is_data line) eqn:Hdata; cbn [andb]; [| exact IH].
  destruct (String.eqb (data_of line) "[DONE]") eqn:Hdone; cbn [orb].
  { cbn [openai_scan]. by rewrite Hdata, Hdone. }
  destruct (decode_chunk (data_of line)) as [[| [content finished] choices] |]
    eqn:Hdec; [exact IH | | exact IH].
  cbn [openai_scan]. rewrite Hdata, Hdone, Hdec.
  destruct finished; [done |]. by rewrite IH.
Qed.

Lemma claude_scan_frames scan_err lines :
  claude_scan decode_event scan_err
    (List.filter (claude_frame decode_event) lines)
  = claude_scan decode_event scan_err lines.
Proof.
  induction lines as [| line rest IH]; [done |].
  cbn [List.filter]. unfold claude_frame at 1.
  cbn [claude_scan].
  destruct (is_data line) eqn:Hdata; cbn [andb]; [| exact IH].
  destruct (String.eqb (data_of line) "[DONE]") eqn:Hdone; cbn [orb].
  { cbn [claude_scan]. by rewrite Hdata, Hdone. }
  destruct (decode_event (data_of line)) as [[type delta] |] eqn:Hdec;
    [| exact IH].
  destruct (String.eqb type "content_block_delta") eqn:Htype.
  - destruct delta as [[delta_type text] |]; [| exact IH].
    destruct (String.eqb delta_type "text_delta") eqn:Hdelta; [| exact IH].
    cbn [claude_scan]. rewrite Hdata, Hdone, Hdec, Htype, Hdelta.
    by rewrite IH.
  - destruct (String.eqb type "message_stop") eqn:Hstop; [| exact IH].
    cbn [claude_scan]. by rewrite Hdata, Hdone, Hdec, Htype, Hstop.
Qed.

End Scanning.

Section ScanningResults.

Import ErrorValues Transport Normalizer ChunkShape.
Local Open Scope nat_scope.

(** X12.  The scanner loops of the OpenAI and Claude clients end in one
    of two ways, whatever the lines and the decoder: at the end of the
    lines, having sent unfinished chunks only and returning a stream
    read error exactly when the scanner reports an error; or at a
    completion frame, having sent unfinished chunks followed by one
    finished chunk, and returning no error.  So a finished chunk is
    always the last one sent, and an error never follows one. *)
Theorem scanner_loops_end_properly :
  forall (decode_chunk : string -> option (list (string * bool)))
         (decode_event : string -> option (string * option (string * string)))
         (scan_err : option error) (lines : list string),
    scan_shape scan_err (openai_scan decode_chunk scan_err lines)
    /\ scan_shape scan_err (claude_scan decode_event scan_err lines).
Proof.
  intros. split; [apply openai_scan_shape | apply claude_scan_shape].
Qed.

(** X13.  Once a line carries the sentinel [DONE], the scanner loops
    read no further: the lines after it and the scanner's error do not
    matter, no error is returned, and the chunks sent end with a
    finished chunk. *)
Theorem sentinel_ends_the_stream :
  forall (decode_chunk : string -> option (list (string * bool)))
         (decode_event : string -> option (string * option (string * string)))
         (scan_err : option error) (before after : list string),
    (exists chunks,
       openai_scan decode_chunk scan_err
         (before ++ "data: [DONE]" :: after)%list = (chunks, None)
       /\ terminated chunks
       /\ openai_scan decode_chunk None (before ++ ["data: [DONE]"])%list
          = (chunks, None))
    /\ (exists chunks,
          claude_scan decode_event scan_err
            (before ++ "data: [DONE]" :: after)%list = (chunks, None)
          /\ terminated chunks
          /\ claude_scan decode_event None (before ++ ["data: [DONE]"])%list
             = (chunks, None)).
Proof.
  intros decode_chunk decode_event scan_err before after. split.
  - destruct (openai_scan_done_terminated decode_chunk before)
      as (chunks & Heq & Hterm).
    exists chunks. by rewrite openai_scan_done.
  - destruct (claude_scan_done_terminated decode_event before)
      as (chunks & Heq & Hterm).
    exists chunks. by rewrite claude_scan_done.
Qed.

(** X14.  Lines that are not frames are skipped without effect: a line
    without the data prefix, a frame that does not decode, an OpenAI
    response without choices, a Claude event that is neither a text
    delta nor the stop event.  Removing all of them from the input
    changes neither the chunks sent nor the error returned. *)
Theorem non_frames_are_skipped :
  forall (decode_chunk : string -> option (list (string * bool)))
         (decode_event : string -> option (string * option (string * string)))
         (scan_err : option error) (lines : list string),
    openai_scan decode_chunk scan_err
      (List.filter (openai_frame decode_chunk) lines)
    = openai_scan decode_chunk scan_err lines
    /\ claude_scan decode_event scan_err
         (List.filter (claude_frame decode_event) lines)
       = claude_scan decode_event scan_err lines.
Proof.
  intros. split; [apply openai_scan_frames | apply claude_scan_frames].
Qed.

(** A short OpenAI stream: a comment line, two deltas, a frame that does
    not decode, the sentinel, and a line that is never read. *)
Example openai_scan_run :
  openai_scan
    (fun data => if String.eqb data "??" then None
                 else Some [(data, false)])
    (Some (OtherError "unexpected EOF"))
    [": keep-alive"; "data: Hel"; "data: ??"; "data: lo"; "data: [DONE]";
     "data: ignored"]
  = ([chunk "Hel" false; chunk "lo" false; chunk "" true], None).
Proof. reflexivity. Qed.

End ScanningResults.

Section StreamingCalls.

Import Retry RetryTrace ErrorValues Transport Normalizer ChunkShape.
Local Open Scope nat_scope.

(** All invocations of a run but the last return a retryable error, and
    the run returns nil exactly when the last invocation does. *)
Lemma run_results ctx retries delay_of a tr r :
  run_from ctx retries delay_of a tr r ->
  exists errs res,
    results tr = ((Some <$> errs) ++ [res])%list
    /\ Forall (fun e => IsRetryableError e = true) errs
    /\ (r = None <-> res = None).
Proof.
  induction 1 as [a | a e | e | a e | a e tr r Ha He Hd Hrun IH].
  - by exists [], None.
  - by exists [], (Some e).
  - by exists [], (Some e).
  - by exists [], (Some e).
  - destruct IH as (errs & res & Heq & Hall & Hiff).
    exists (e :: errs), res. cbn [results]. rewrite Heq.
    split; [done |]. split; [by constructor | done].
Qed.

Variable api_name : string.
Variable model : string.
Variable rendered_timeout : string.
Variable mentions_model : string -> bool.
Variable decode_error : string -> option string.
Variable scan :
  option error -> list string -> list StreamChunk.t * option error.
Variable exchanges : nat -> stream_exchange.

Hypothesis scan_ends_properly :
  forall scan_err lines, scan_shape scan_err (scan scan_err lines).

Local Abbreviation request :=
  (streamRequest api_name model rendered_timeout mentions_model decode_error
     scan).
Local Abbreviation op :=
  (stream_operation api_name model rendered_timeout mentions_model
     decode_error scan exchanges).
Local Abbreviation sent_after :=
  (sent_by scan
     (refusal api_name model rendered_timeout mentions_model decode_error)
     exchanges).

Lemma request_shape x :
  (snd (request x) <> None -> Forall unfinished (fst (request x)))
  /\ (snd (request x) = None ->
      Forall unfinished (fst (request x)) \/ terminated (fst (request x))).
Proof.
  destruct x as [x | lines scan_err]; cbn [streamRequest fst snd].
  { split; [by constructor | done]. }
  destruct (scan_ends_properly scan_err lines) as [[Hall Herr] | [Hterm Herr]].
  - split; [done | by left].
  - split; [by rewrite Herr | by right].
Qed.

Lemma sent_after_succ n :
  sent_after (S n) = (sent_after n ++ fst (request (exchanges n)))%list.
Proof.
  unfold sent_by. rewrite seq_S, map_app, concat_app. cbn [map concat].
  by rewrite app_nil_r.
Qed.

Lemma stream_operation_state k :
  after_calls op k (0, []) = (k, sent_after k).
Proof.
  induction k as [| k IH]; [done |].
  rewrite after_calls_succ, IH, sent_after_succ.
  unfold stream_operation. by destruct (request (exchanges k)).
Qed.

Lemma stream_operation_result k :
  fst (op (k, sent_after k)) = snd (request (exchanges k)).
Proof. unfold stream_operation. by destruct (request (exchanges k)). Qed.

(** An attempt that has sent a chunk cannot fail with a retryable
    error: the only error after the scanner has started is the stream
    read error. *)
Lemma retryable_request_sends_nothing x e :
  snd (request x) = Some e -> IsRetryableError e = true ->
  fst (request x) = [].
Proof.
  destruct x as [x | lines scan_err]; cbn [streamRequest fst snd]; [done |].
  destruct (scan_ends_properly scan_err lines) as [[_ Herr] | [_ Herr]];
    rewrite Herr; [| done].
  destruct scan_err as [cause |]; [| done]. cbn. by intros [= <-].
Qed.

(** So the attempts that a run retries have sent nothing. *)
Lemma retried_attempts_send_nothing tr k :
  (forall j res, results tr !! j = Some res ->
     res = fst (op (after_calls op j (0, [])))) ->
  (forall j, j < k -> exists e, results tr !! j = Some (Some e)
                                /\ IsRetryableError e = true) ->
  sent_after k = [].
Proof.
  intros Hres Hfail. induction k as [| k IH]; [done |].
  rewrite sent_after_succ, IH by (intros j Hj; apply Hfail; lia).
  destruct (Hfail k ltac:(lia)) as (e & He & Hretry).
  pose proof (Hres k _ He) as Hcall.
  rewrite stream_operation_state, stream_operation_result in Hcall.
  by rewrite (retryable_request_sends_nothing _ e).
Qed.

Lemma StreamConversation_run ctx retries err n sent tr :
  (0 <= retries)%Z ->
  ExecuteWithRetry ctx retries op (0, []) = Some (err, (n, sent), tr) ->
  1 <= n /\ (Z.of_nat n <= retries + 1)%Z
  /\ sent = sent_after n
  /\ sent = fst (request (exchanges (n - 1)))
  /\ (err <> None -> Forall unfinished sent)
  /\ (err = None ->
      snd (request (exchanges (n - 1))) = None
      /\ (Forall unfinished sent \/ terminated sent))
  /\ (err = None <-> snd (request (exchanges (n - 1))) = None)
  /\ (forall j, j < n - 1 ->
        exists e, snd (request (exchanges j)) = Some e
                  /\ IsRetryableError e = true
                  /\ fst (request (exchanges j)) = []).
Proof.
  intros Hretries Heq.
  pose proof (executed_run _ _ _ _ _ _ _ _ Hretries Heq) as Hrun.
  destruct (retry_loop_threads _ _ _ _ _ _ _ _ _ _ _ Heq)
    as (Hst & Hlen & Hres).
  pose proof (run_invocations _ _ _ _ _ _ Hrun) as [Hge Hle].
  rewrite stream_operation_state in Hst. injection Hst as -> ->.
  destruct (run_results _ _ _ _ _ _ Hrun)
    as (errs & res & Hresults & Hretried & Hiff).
  assert (Hk : invocations tr = S (length errs)).
  { rewrite <- Hlen, Hresults, length_app, length_fmap. cbn. lia. }
  rewrite Hk in *. replace (S (length errs) - 1) with (length errs) by lia.
  split; [lia |]. split; [lia |]. split; [done |].
  assert (Hearlier : forall j, j < length errs ->
                       exists e, results tr !! j = Some (Some e)
                                 /\ IsRetryableError e = true).
  { intros j Hj. rewrite Hresults, lookup_app_l by (by rewrite length_fmap).
    rewrite list_lookup_fmap.
    destruct (lookup_lt_is_Some_2 errs j Hj) as [e He].
    exists e. rewrite He. split; [done |].
    by apply (Forall_lookup_1 _ _ _ _ Hretried He). }
  assert (Hnothing : sent_after (length errs) = []).
  { apply retried_attempts_send_nothing with tr; [exact Hres | exact Hearlier]. }
  assert (Hlast : results tr !! length errs = Some res).
  { rewrite Hresults, lookup_app_r by (by rewrite length_fmap).
    by rewrite length_fmap, Nat.sub_diag. }
  pose proof (Hres _ _ Hlast) as Hcall.
  rewrite stream_operation_state, stream_operation_result in Hcall.
  rewrite sent_after_succ, Hnothing. cbn [app].
  split; [done |].
  destruct (request_shape (exchanges (length errs))) as [Hfailed Hok].
  split.
  { intros Herr. apply Hfailed.
    rewrite <- Hcall. intros ->. apply Herr. by apply Hiff. }
  split.
  { intros ->. assert (res = None) as -> by (by apply Hiff).
    split; [done |]. exact (Hok (eq_sym Hcall)). }
  split; [by rewrite <- Hcall |].
  intros j Hj. destruct (Hearlier j Hj) as (e & He & Hretry).
  pose proof (Hres j _ He) as Hc.
  rewrite stream_operation_state, stream_operation_result in Hc.
  exists e. split; [done |]. split; [done |].
  by apply retryable_request_sends_nothing with e.
Qed.

End StreamingCalls.

Section StreamingDelivery.

Import Retry RetryTrace ErrorValues Transport Normalizer ChunkShape.
Local Open Scope nat_scope.

Lemma StreamConversation_delivers api_name model rendered_timeout
    mentions_model decode_error scan exchanges ctx retries :
  (forall scan_err lines, scan_shape scan_err (scan scan_err lines)) ->
  (0 <= retries)%Z ->
  let request :=
    streamRequest api_name model rendered_timeout mentions_model
      decode_error scan in
  let op :=
    stream_operation api_name model rendered_timeout mentions_model
      decode_error scan exchanges in
  exists chunks n,
    StreamConversation api_name model rendered_timeout mentions_model
      decode_error scan exchanges ctx retries = Some (chunks, n)
    /\ 1 <= n /\ (Z.of_nat n <= retries + 1)%Z
    /\ (forall j, j < n - 1 ->
          exists e, snd (request (exchanges j)) = Some e
                    /\ IsRetryableError e = true
                    /\ fst (request (exchanges j)) = [])
    /\ (Forall unfinished chunks \/ terminated chunks)
    /\ (snd (request (exchanges (n - 1))) = None ->
        chunks = fst (request (exchanges (n - 1))))
    /\ (snd (request (exchanges (n - 1))) <> None ->
        chunks = (fst (request (exchanges (n - 1))) ++ [chunk "" true])%list)
    /\ (exists err sent tr,
          ExecuteWithRetry ctx retries op (0, []) = Some (err, (n, sent), tr)
          /\ sent = fst (request (exchanges (n - 1)))
          /\ (err = None <-> snd (request (exchanges (n - 1))) = None)
          /\ (err = None -> chunks = sent)
          /\ (err <> None -> chunks = (sent ++ [chunk "" true])%list))
    /\ (Forall unfinished chunks ->
        snd (request (exchanges (n - 1))) = None).
Proof.
  intros Hscan Hretries request op. unfold StreamConversation.
  destruct (retry_loop_run ctx retries linear_delay op
              (fuel_for retries) 0%Z None (0, []))
    as (err & [n sent] & tr & Heq & Hrun); [lia | unfold fuel_for; lia |].
  change (ExecuteWithRetry ctx retries op (0, [])
          = Some (err, (n, sent), tr)) in Heq.
  destruct (StreamConversation_run _ _ _ _ _ _ _ Hscan _ _ _ _ _ _
              Hretries Heq)
    as (Hge & Hle & _ & Hsent & Herr & Hok & Hiff & Hearlier).
  fold request in Hsent, Hok, Hiff, Hearlier.
  fold op. rewrite Heq. destruct err as [e |].
  - exists (sent ++ [chunk "" true])%list, n.
    split; [done |]. split; [done |]. split; [done |].
    split; [exact Hearlier |].
    specialize (Herr ltac:(done)).
    assert (Hfailed : snd (request (exchanges (n - 1))) <> None).
    { intros Hnone. by apply Hiff in Hnone. }
    split; [right; by exists sent, (chunk "" true) |].
    split; [done |].
    split; [intros _; by rewrite Hsent |].
    split.
    { exists (Some e), sent, tr.
      split; [done |]. split; [done |].
      split; [split; [done | intros Hnone; by apply Hiff in Hnone] |].
      split; [done |]. intros _. reflexivity. }
    intros Hall. apply Forall_app in Hall as [_ Hall].
    inversion Hall as [| ? ? Hc _]. unfold unfinished in Hc. discriminate Hc.
  - exists sent, n. destruct (Hok eq_refl) as [Hlast Hshape].
    split; [done |]. split; [done |]. split; [done |].
    split; [exact Hearlier |].
    split; [done |].
    split; [done |].
    split; [done |].
    split; [| done].
    exists None, sent, tr. repeat split; done.
Qed.

(** X15.  [StreamConversation] of the OpenAI and Claude clients, for
    [retries >= 0]: [n] attempts are made, at least one and at most
    [retries + 1]; every attempt but the last failed with a retryable
    error and had sent nothing, so the channel delivers the chunks of
    the last attempt only and no chunk twice.  They are followed by one
    empty finished chunk exactly when the retried request ends with an
    error, that is when [ExecuteWithRetry] returns one, which is exactly
    when the last attempt returned one; when it returns nil nothing is
    added.  Of the chunks delivered only the last can be a finished one.
    The sequence lacks a finished chunk only when the last attempt
    returned no error, that is when its lines ended without completion
    frame and without scanner error. *)
Theorem StreamConversation_delivery :
  forall (api_name model rendered_timeout : string)
         (mentions_model : string -> bool)
         (decode_error : string -> option string)
         (decode_chunk : string -> option (list (string * bool)))
         (decode_event : string -> option (string * option (string * string)))
         (exchanges : nat -> stream_exchange) (ctx : Context) (retries : Z),
    (0 <= retries)%Z ->
    let delivery scan :=
      let request :=
        streamRequest api_name model rendered_timeout mentions_model
          decode_error scan in
      let op :=
        stream_operation api_name model rendered_timeout mentions_model
          decode_error scan exchanges in
      exists chunks n,
        StreamConversation api_name model rendered_timeout mentions_model
          decode_error scan exchanges ctx retries = Some (chunks, n)
        /\ 1 <= n /\ (Z.of_nat n <= retries + 1)%Z
        /\ (forall j, j < n - 1 ->
              exists e, snd (request (exchanges j)) = Some e
                        /\ IsRetryableError e = true
                        /\ fst (request (exchanges j)) = [])
        /\ (Forall unfinished chunks \/ terminated chunks)
        /\ (snd (request (exchanges (n - 1))) = None ->
            chunks = fst (request (exchanges (n - 1))))
        /\ (snd (request (exchanges (n - 1))) <> None ->
            chunks = (fst (request (exchanges (n - 1))) ++ [chunk "" true])%list)
        /\ (exists err sent tr,
              ExecuteWithRetry ctx retries op (0, []) = Some (err, (n, sent), tr)
              /\ sent = fst (request (exchanges (n - 1)))
              /\ (err = None <-> snd (request (exchanges (n - 1))) = None)
              /\ (err = None -> chunks = sent)
              /\ (err <> None -> chunks = (sent ++ [chunk "" true])%list))
        /\ (Forall unfinished chunks ->
            snd (request (exchanges (n - 1))) = None) in
    delivery (openai_scan decode_chunk)
    /\ delivery (claude_scan decode_event).
Proof.
  intros api_name model rendered_timeout mentions_model decode_error
    decode_chunk decode_event exchanges ctx retries Hretries delivery.
  subst delivery. split.
  - apply StreamConversation_delivers; [apply openai_scan_shape | done].
  - apply StreamConversation_delivers; [apply claude_scan_shape | done].
Qed.

Lemma StreamConversation_delivery_witness :
  exists chunks n,
    StreamConversation "OpenAI API" "gpt-4" "30s" (fun _ => false)
      (fun body => Some body)
      (openai_scan (fun data => Some [(data, false)]))
      (fun n => if (n =? 0)%nat
                then Refused (Responded 503 "busy")
                else Streaming ["data: Hel"; "data: lo"; "data: [DONE]"] None)
      Examples.background 1 = Some (chunks, n)
    /\ (Z.of_nat n <= 1 + 1)%Z
    /\ (Forall unfinished chunks \/ terminated chunks).
Proof.
  destruct (proj1 (StreamConversation_delivery "OpenAI API" "gpt-4" "30s"
                     (fun _ => false) (fun body => Some body)
                     (fun data => Some [(data, false)]) (fun _ => None)
                     (fun n => if (n =? 0)%nat
                               then Refused (Responded 503 "busy")
                               else Streaming
                                      ["data: Hel"; "data: lo"; "data: [DONE]"]
                                      None)
                     Examples.background 1%Z ltac:(lia)))
    as (chunks & n & Heq & _ & Hle & _ & Hshape & _).
  exists chunks, n. split; [exact Heq |]. split; [exact Hle | exact Hshape].
Defined.

(** A request refused with a 503 is retried and the stream of the second
    attempt is delivered.  A stream cut by a read error is not retried:
    its chunk is delivered and the empty finished chunk closes the
    sequence. *)
Example StreamConversation_runs :
  StreamConversation "OpenAI API" "gpt-4" "30s" (fun _ => false)
    (fun body => Some body)
    (openai_scan (fun data => Some [(data, false)]))
    (fun n => if (n =? 0)%nat
              then Refused (Responded 503 "busy")
              else Streaming ["data: Hel"; "data: lo"; "data: [DONE]"] None)
    Examples.background 1
  = Some ([chunk "Hel" false; chunk "lo" false; chunk "" true], 2)
  /\ StreamConversation "OpenAI API" "gpt-4" "30s" (fun _ => false)
       (fun body => Some body)
       (openai_scan (fun data => Some [(data, false)]))
       (fun _ => Streaming ["data: Hel"] (Some (OtherError "reset")))
       Examples.background 1
     = Some ([chunk "Hel" false; chunk "" true], 1).
Proof. split; vm_compute; reflexivity. Qed.

End StreamingDelivery.

(* ===================================================================== *)
(** ** Further properties of chat sessions *)
(* ===================================================================== *)

Section StreamedSessions.

Import Session Conversation Streams StreamHelpers Normalizer ChunkShape.
Local Open Scope nat_scope.

(** The goroutine forwards every chunk and appends one assistant message
    for each finished chunk. *)
Lemma stream_goroutine_spec (chunks : list StreamChunk.t) :
  forall conv acc,
    stream_goroutine conv acc chunks
    = (Conversation.mk
         (Messages conv ++ (assistant <$> commits acc chunks))%list,
       chunks).
Proof.
  induction chunks as [| c rest IH]; intros [msgs] acc.
  { cbn. by rewrite app_nil_r. }
  cbn [stream_goroutine commits]. rewrite IH.
  destruct (StreamChunk.Finished c); cbn; [| done].
  by rewrite <- app_assoc.
Qed.

Lemma commits_length acc chunks :
  length (commits acc chunks) = finished_count chunks.
Proof.
  revert acc. induction chunks as [| c rest IH]; intros acc; [done |].
  unfold finished_count in *. cbn.
  destruct (StreamChunk.Finished c); cbn; by rewrite IH.
Qed.

Lemma commits_unfinished acc chunks :
  Forall unfinished chunks -> commits acc chunks = [].
Proof.
  revert acc. induction chunks as [| c rest IH]; intros acc Hall; [done |].
  apply Forall_cons in Hall as [Hc Hrest]. cbn. rewrite Hc. by apply IH.
Qed.

Lemma contents_app acc chunks :
  Forall unfinished chunks ->
  forall c, commits acc (chunks ++ [c])
            = if StreamChunk.Finished c
              then [(acc ++ contents (chunks ++ [c]))%string] else [].
Proof.
  revert acc. induction chunks as [| c0 rest IH]; intros acc Hall c.
  { cbn. unfold contents. cbn. by rewrite string_append_nil_r. }
  apply Forall_cons in Hall as [Hc Hrest].
  cbn [app commits]. rewrite Hc, IH by done.
  destruct (StreamChunk.Finished c); [| done].
  change (contents (c0 :: rest ++ [c]))
    with (StreamChunk.Content c0 ++ contents (rest ++ [c]))%string.
  by rewrite string_append_assoc.
Qed.

Lemma through_first_finished_terminated chunks :
  terminated chunks -> through_first_finished chunks = chunks.
Proof.
  intros (pre & c & -> & Hpre & Hc).
  induction pre as [| c0 pre IH]; cbn.
  { by rewrite Hc. }
  apply Forall_cons in Hpre as [Hc0 Hpre]. rewrite Hc0. by rewrite IH.
Qed.

End StreamedSessions.

Section StreamedSessionResults.

Import Session Conversation Streams StreamHelpers Normalizer ChunkShape.
Local Open Scope nat_scope.

(** X16.  A [Stream] that starts: the caller is delivered exactly the
    chunks of the client, in order; the conversation gains the user
    message and then one assistant message for each finished chunk,
    holding the text accumulated up to that chunk.  So a sequence
    without finished chunk commits no answer, however much text it
    carried; and a sequence that ends with its only finished chunk
    commits one answer, the concatenation of all contents, which is also
    what [MergeStreamChunks] returns for it. *)
Theorem Stream_commits_at_finished_chunks :
  forall (s : ChatSession) (message : string) (chunks : list StreamChunk.t),
    AIClient.StreamConversation (client s)
      (AddUserMessage (conversation s) message) = (chunks, None) ->
    Stream s message
    = ({| client := client s;
          conversation :=
            Conversation.mk
              (Messages (conversation s)
                 ++ Message.mk "user" message
                      :: (assistant <$> commits "" chunks))%list |},
       (chunks, None))
    /\ Len (fst (Stream s message)) = Len s + 1 + finished_count chunks
    /\ (Forall unfinished chunks ->
        Messages (conversation (fst (Stream s message)))
        = (Messages (conversation s) ++ [Message.mk "user" message])%list)
    /\ (terminated chunks ->
        Messages (conversation (fst (Stream s message)))
        = (Messages (conversation s)
             ++ [Message.mk "user" message; assistant (contents chunks)])%list
        /\ MergeStreamChunks chunks = ((contents chunks, None), [])).
Proof.
  intros s message chunks Hcall.
  assert (Heq : Stream s message
    = ({| client := client s;
          conversation :=
            Conversation.mk
              (Messages (conversation s)
                 ++ Message.mk "user" message
                      :: (assistant <$> commits "" chunks))%list |},
       (chunks, None))).
  { unfold Stream. rewrite Hcall, stream_goroutine_spec.
    unfold AddUserMessage, AddMessage. cbn [Messages].
    by rewrite <- app_assoc. }
  split; [exact Heq |]. rewrite Heq. cbn [fst conversation Messages].
  split.
  { unfold Len. cbn [conversation Messages].
    rewrite length_app. cbn [length].
    rewrite length_fmap, commits_length. lia. }
  split.
  { intros Hall. by rewrite commits_unfinished. }
  intros Hterm. split.
  - destruct Hterm as (pre & c & -> & Hpre & Hc).
    rewrite contents_app, Hc by done. done.
  - unfold MergeStreamChunks. rewrite merge_loop_spec.
    rewrite through_first_finished_terminated by done.
    by rewrite drop_all.
Qed.

Lemma Stream_commits_at_finished_chunks_witness :
  Messages (conversation
              (fst (Stream (NewChatSession Examples.echo_client) "Hi")))
  = [Message.mk "user" "Hi"; assistant "reply to: Hi"].
Proof.
  refine (proj1 (proj2 (proj2 (proj2
            (Stream_commits_at_finished_chunks
               (NewChatSession Examples.echo_client) "Hi"
               [StreamChunk.mk "reply to: Hi" true None] eq_refl))) _)).
  exists [], (StreamChunk.mk "reply to: Hi" true None).
  split; [reflexivity |]. split; [constructor | reflexivity].
Defined.

(** Two finished chunks commit two answers, the second holding the text
    of both. *)
Example Stream_commits_twice :
  snd (stream_goroutine (Conversation.mk []) ""
         [chunk "a" true; chunk "b" true])
  = [chunk "a" true; chunk "b" true]
  /\ Messages (fst (stream_goroutine (Conversation.mk []) ""
                      [chunk "a" true; chunk "b" true]))
     = [assistant "a"; assistant "ab"].
Proof. split; reflexivity. Qed.

(** X17.  The operations of a session never alter or drop an earlier
    message and never change the client: after [Send],
    [SendWithMetadata] (when it returns) and [Stream] the messages the
    session had are a prefix of the messages it has. *)
Theorem session_history_is_append_only :
  forall (s : ChatSession) (message : string),
    (Messages (conversation s)
       `prefix_of` Messages (conversation (fst (Send s message)))
     /\ client (fst (Send s message)) = client s)
    /\ (forall s' r, SendWithMetadata s message = Some (s', r) ->
          Messages (conversation s)
            `prefix_of` Messages (conversation s')
          /\ client s' = client s)
    /\ (Messages (conversation s)
          `prefix_of` Messages (conversation (fst (Stream s message)))
        /\ client (fst (Stream s message)) = client s).
Proof.
  intros s message. split; [| split].
  - unfold Send.
    destruct (AIClient.SendConversation _ _) as [response [e |]];
      cbn [fst conversation client].
    + by rewrite remove_last_AddUserMessage.
    + split; [| done]. unfold AddAssistantMessage, AddUserMessage, AddMessage.
      cbn [Messages]. rewrite <- app_assoc. by apply prefix_app_r.
  - intros s' r. unfold SendWithMetadata.
    destruct (AIClient.SendConversationWithMetadata _ _)
      as [response [e |]].
    + intros [= <- <-]. cbn [conversation client].
      by rewrite remove_last_AddUserMessage.
    + destruct response as [resp |]; [| done].
      intros [= <- <-]. cbn [conversation client].
      split; [| done].
      unfold AddAssistantMessage, AddUserMessage, AddMessage.
      cbn [Messages]. rewrite <- app_assoc. by apply prefix_app_r.
  - unfold Stream.
    destruct (AIClient.StreamConversation _ _) as [chunks [e |]];
      cbn [fst conversation client].
    + by rewrite remove_last_AddUserMessage.
    + rewrite stream_goroutine_spec. cbn [fst conversation client Messages].
      split; [| done]. unfold AddUserMessage, AddMessage. cbn [Messages].
      rewrite <- app_assoc. by apply prefix_app_r.
Qed.

Lemma session_history_is_append_only_witness :
  Messages Examples.answered
    `prefix_of` Messages (conversation
                            (fst (Send {| client := Examples.echo_client;
                                          conversation := Examples.answered |}
                                    "And Rust?"))).
Proof.
  exact (proj1 (proj1 (session_history_is_append_only
                         {| client := Examples.echo_client;
                            conversation := Examples.answered |}
                         "And Rust?"))).
Defined.

End StreamedSessionResults.

Section FallbackStreams.

Import Session Conversation Streams StreamHelpers Normalizer ChunkShape.
Local Open Scope nat_scope.

(** X18.  A session over a client that streams the way the Gemini
    client does, by one synchronous [SendConversation] whose result it
    sends as a single finished chunk.  When that call succeeds [Stream]
    leaves the same conversation as [Send].  When it fails, [Send]
    restores the conversation and returns the error, whereas [Stream]
    returns no error, delivers one empty finished chunk and records an
    empty assistant message after the user message. *)
Theorem gemini_stream_hides_failure :
  forall (s : ChatSession) (message : string),
    AIClient.StreamConversation (client s)
      (AddUserMessage (conversation s) message)
    = gemini_stream (AIClient.SendConversation (client s)
                       (AddUserMessage (conversation s) message)) ->
    (forall response e,
       AIClient.SendConversation (client s)
         (AddUserMessage (conversation s) message) = (response, Some e) ->
       Send s message = (s, ("", Some e))
       /\ Stream s message
          = ({| client := client s;
                conversation :=
                  Conversation.mk
                    (Messages (conversation s)
                       ++ [Message.mk "user" message; assistant ""])%list |},
             ([chunk "" true], None)))
    /\ (forall response,
          AIClient.SendConversation (client s)
            (AddUserMessage (conversation s) message) = (response, None) ->
          conversation (fst (Stream s message))
          = conversation (fst (Send s message))
          /\ snd (Stream s message) = ([chunk response true], None)
          /\ snd (Send s message) = (response, None)).
Proof.
  intros [c conv] message Hstream. cbn [client conversation] in *. split.
  - intros response e Hcall. split.
    + unfold Send. cbn [client conversation]. rewrite Hcall.
      by rewrite remove_last_AddUserMessage.
    + unfold Stream. cbn [client conversation].
      rewrite Hstream, Hcall. unfold gemini_stream. cbn [fst snd].
      cbn [stream_goroutine]. cbn.
      unfold AddAssistantMessage, AddUserMessage, AddMessage. cbn [Messages].
      by rewrite <- app_assoc.
  - intros response Hcall. unfold Stream, Send. cbn [client conversation].
    rewrite Hstream, Hcall. unfold gemini_stream. cbn [fst snd].
    cbn [stream_goroutine]. cbn. done.
Qed.

Lemma gemini_stream_hides_failure_witness :
  Stream (NewChatSession
            (AIClient.mk (fun _ => ("", Some NewInvalidAPIKeyError))
               (fun _ => (None, Some NewInvalidAPIKeyError))
               (fun _ => ("", Some NewInvalidAPIKeyError))
               (fun _ => (None, Some NewInvalidAPIKeyError))
               (fun _ => gemini_stream ("", Some NewInvalidAPIKeyError))
               (fun _ => gemini_stream ("", Some NewInvalidAPIKeyError))
               false true "Gemini" "gemini-1.5-flash")) "Hi"
  = ({| client :=
          AIClient.mk (fun _ => ("", Some NewInvalidAPIKeyError))
            (fun _ => (None, Some NewInvalidAPIKeyError))
            (fun _ => ("", Some NewInvalidAPIKeyError))
            (fun _ => (None, Some NewInvalidAPIKeyError))
            (fun _ => gemini_stream ("", Some NewInvalidAPIKeyError))
            (fun _ => gemini_stream ("", Some NewInvalidAPIKeyError))
            false true "Gemini" "gemini-1.5-flash";
        conversation :=
          Conversation.mk [Message.mk "user" "Hi"; assistant ""] |},
     ([chunk "" true], None)).
Proof.
  exact (proj2 (proj1 (gemini_stream_hides_failure
           (NewChatSession
              (AIClient.mk (fun _ => ("", Some NewInvalidAPIKeyError))
                 (fun _ => (None, Some NewInvalidAPIKeyError))
                 (fun _ => ("", Some NewInvalidAPIKeyError))
                 (fun _ => (None, Some NewInvalidAPIKeyError))
                 (fun _ => gemini_stream ("", Some NewInvalidAPIKeyError))
                 (fun _ => gemini_stream ("", Some NewInvalidAPIKeyError))
                 false true "Gemini" "gemini-1.5-flash")) "Hi" eq_refl)
           "" NewInvalidAPIKeyError eq_refl)).
Defined.

(** X19.  [StreamToString] and [StreamConversationToString]: for a
    client without streaming they are its synchronous call, errors
    included; for a streaming client they fail only when the stream
    cannot be started, and otherwise return a nil error with the
    contents of the chunks up to the first finished one, so a failure
    that the client signals inside the stream, by an early finished
    chunk, comes back as a success with the text received so far. *)
Theorem stream_to_string_results :
  forall (c : AIClient.t) (prompt : string) (conversation : Conversation.t),
    (AIClient.SupportsStreaming c = false ->
     StreamToString c prompt = AIClient.SendPrompt c prompt
     /\ StreamConversationToString c conversation
        = AIClient.SendConversation c conversation)
    /\ (AIClient.SupportsStreaming c = true ->
        (forall chunks,
           AIClient.StreamPrompt c prompt = (chunks, None) ->
           StreamToString c prompt
           = (contents (through_first_finished chunks), None))
        /\ (forall chunks,
              AIClient.StreamConversation c conversation = (chunks, None) ->
              StreamConversationToString c conversation
              = (contents (through_first_finished chunks), None))
        /\ (forall chunks e,
              AIClient.StreamPrompt c prompt = (chunks, Some e) ->
              StreamToString c prompt = ("", Some e))
        /\ (forall chunks e,
              AIClient.StreamConversation c conversation = (chunks, Some e) ->
              StreamConversationToString c conversation = ("", Some e))).
Proof.
  intros c prompt conversation.
  unfold StreamToString, StreamConversationToString. split.
  - intros ->. done.
  - intros ->. cbn [negb]. repeat split.
    + intros chunks ->. unfold MergeStreamChunks.
      by rewrite merge_loop_spec.
    + intros chunks ->. unfold MergeStreamChunks.
      by rewrite merge_loop_spec.
    + by intros chunks e ->.
    + by intros chunks e ->.
Qed.

Lemma stream_to_string_results_witness :
  StreamToString Examples.truncated_stream_client "Hi" = ("par", None)
  /\ StreamToString Examples.echo_client "Hi" = ("echo: Hi", None).
Proof.
  split.
  - exact (proj1 (proj2 (stream_to_string_results
             Examples.truncated_stream_client "Hi" Examples.question)
             eq_refl) [StreamChunk.mk "par" false None] eq_refl).
  - exact (proj1 (proj1 (stream_to_string_results
             Examples.echo_client "Hi" Examples.question) eq_refl)).
Defined.

End FallbackStreams.

(* ===================================================================== *)
(** ** Properties of the request builders *)
(* ===================================================================== *)

Section RequestBuilding.

Import Conversation Requests.
Local Open Scope nat_scope.

Lemma concat_snoc sep parts x :
  String.concat sep (parts ++ [x])
  = match parts with
    | [] => x
    | _ => (String.concat sep parts ++ sep ++ x)%string
    end.
Proof.
  induction parts as [| y parts IH]; [done |].
  destruct parts as [| z parts]; [done |].
  change (String.concat sep ((y :: z :: parts) ++ [x]))
    with (y ++ sep ++ String.concat sep ((z :: parts) ++ [x]))%string.
  rewrite IH.
  change (String.concat sep (y :: z :: parts))
    with (y ++ sep ++ String.concat sep (z :: parts))%string.
  by rewrite !string_append_assoc.
Qed.

Lemma concat_nonempty sep parts :
  Forall (fun part => part <> "") parts ->
  String.concat sep parts = "" -> parts = [].
Proof.
  destruct parts as [| x parts]; [done |].
  intros Hall Hempty. apply Forall_cons in Hall as [Hx _].
  destruct x as [| a x]; [done |].
  destruct parts; discriminate Hempty.
Qed.

Lemma claude_split_messages msgs :
  forall acc messages,
    snd (claude_split acc messages msgs)
    = (messages ++ List.filter not_system msgs)%list.
Proof.
  induction msgs as [| msg rest IH]; intros acc messages.
  { cbn. by rewrite app_nil_r. }
  cbn [claude_split List.filter]. unfold not_system at 1.
  destruct (is_system msg); cbn [negb]; rewrite IH; [done |].
  by rewrite <- app_assoc.
Qed.

Lemma claude_split_system msgs :
  forall parts messages,
    Forall (fun part => part <> "") parts ->
    Forall (fun part => part <> "") (system_texts msgs) ->
    fst (claude_split (String.concat blank_line parts) messages msgs)
    = String.concat blank_line (parts ++ system_texts msgs).
Proof.
  induction msgs as [| msg rest IH]; intros parts messages Hparts Hmsgs.
  { cbn. by rewrite app_nil_r. }
  cbn [claude_split]. unfold system_texts in *. cbn [List.filter] in *.
  destruct (is_system msg); [| by apply IH].
  cbn [map] in *. apply Forall_cons in Hmsgs as [Hmsg Hrest].
  replace (parts ++ Message.Content msg :: map Message.Content
                                             (List.filter is_system rest))%list
    with ((parts ++ [Message.Content msg])
            ++ map Message.Content (List.filter is_system rest))%list
    by (by rewrite <- app_assoc).
  rewrite <- (IH (parts ++ [Message.Content msg])%list messages);
    [| by apply Forall_app; split; [| constructor] | done].
  do 2 f_equal. rewrite concat_snoc.
  destruct (String.eqb_spec (String.concat blank_line parts) "") as [He | Hne].
  - by rewrite (concat_nonempty _ _ Hparts He).
  - cbn [negb]. destruct parts; [done | done].
Qed.

Lemma gemini_split_spec msgs :
  forall systemMessages contents,
    gemini_split systemMessages contents msgs
    = ((systemMessages ++ system_texts msgs)%list,
       (contents
          ++ map (fun msg =>
                    Message.mk
                      (if String.eqb (Message.Role msg) "assistant"
                       then "model" else Message.Role msg)
                      (Message.Content msg))
                 (List.filter not_system msgs))%list).
Proof.
  induction msgs as [| msg rest IH]; intros systemMessages contents.
  { cbn. by rewrite !app_nil_r. }
  cbn [gemini_split]. unfold system_texts, not_system. cbn [List.filter].
  destruct (is_system msg); cbn [negb]; rewrite IH.
  - cbn [map]. by rewrite <- app_assoc.
  - cbn [map]. by rewrite <- app_assoc.
Qed.

End RequestBuilding.

Section RequestResults.

Import Conversation Requests.
Local Open Scope nat_scope.

(** X20.  The request of the Claude client: its messages are the
    messages of the conversation that are not system messages, in their
    order, so none of them has the role system; its system prompt is the
    configured system message and the system messages of the
    conversation joined by blank lines, provided none of them is empty,
    and it is empty when there is none; the token limit is the
    configured one, or 1024. *)
Theorem claude_request_separates_system :
  forall (config : ClientConfig.t) (conversation : Conversation.t),
    snd (fst (claude_request config conversation))
    = List.filter not_system (Messages conversation)
    /\ Forall (fun msg => Message.Role msg <> "system")
         (snd (fst (claude_request config conversation)))
    /\ (Forall (fun part => part <> "") (system_parts config conversation) ->
        fst (fst (claude_request config conversation))
        = String.concat blank_line (system_parts config conversation))
    /\ snd (claude_request config conversation)
       = default 1024%Z (ClientConfig.MaxTokens config).
Proof.
  intros config conversation. unfold claude_request. cbn [fst snd].
  split; [by rewrite claude_split_messages |].
  split.
  { rewrite claude_split_messages. cbn [app].
    apply Forall_forall. intros msg Hin.
    apply list_elem_of_In, filter_In in Hin as [_ Hns].
    unfold not_system, is_system in Hns.
    intros Hrole. by rewrite Hrole in Hns. }
  split; [| by destruct (ClientConfig.MaxTokens config)].
  unfold system_parts. intros Hparts.
  apply Forall_app in Hparts as [Hconfig Hmsgs].
  destruct (ClientConfig.SystemMessage config) as [s |].
  - exact (claude_split_system _ [s] [] Hconfig Hmsgs).
  - exact (claude_split_system _ [] [] Hconfig Hmsgs).
Qed.

Lemma claude_request_separates_system_witness :
  fst (fst (claude_request
              (ClientConfig.mk 1 0 None None None None None (Some "Be kind.")
                 None RetryStrategyFixed)
              Examples.question))
  = String.concat blank_line ["Be kind."; "Be brief."].
Proof.
  apply (proj1 (proj2 (proj2 (claude_request_separates_system
           (ClientConfig.mk 1 0 None None None None None (Some "Be kind.")
              None RetryStrategyFixed)
           Examples.question)))).
  repeat constructor; discriminate.
Defined.

(** An empty system message in front makes the prompt differ from the
    join: the Claude client drops the separator after it. *)
Example claude_request_empty_system :
  fst (fst (claude_request ClientConfig.NewClientConfig
              (Conversation.mk [Message.mk "system" "";
                                Message.mk "system" "Be brief."])))
  = "Be brief."
  /\ String.concat blank_line [""; "Be brief."]
     = (blank_line ++ "Be brief.")%string.
Proof. split; reflexivity. Qed.

(** X21.  The request of the Gemini client: its contents are the
    messages that are not system messages, in their order, with the
    role assistant renamed to model, so no content has the role system
    or assistant; its system instruction is absent when there is
    neither a configured system message nor a system message in the
    conversation, and otherwise the join of these by blank lines. *)
Theorem gemini_request_converts :
  forall (config : ClientConfig.t) (conversation : Conversation.t),
    gemini_request config conversation
    = (match system_parts config conversation with
       | [] => None
       | parts => Some (String.concat blank_line parts)
       end,
       map (fun msg =>
              Message.mk
                (if String.eqb (Message.Role msg) "assistant"
                 then "model" else Message.Role msg)
                (Message.Content msg))
           (List.filter not_system (Messages conversation)))
    /\ Forall (fun msg => Message.Role msg <> "system"
                          /\ Message.Role msg <> "assistant")
         (snd (gemini_request config conversation))
    /\ length (snd (gemini_request config conversation))
       = length (List.filter not_system (Messages conversation)).
Proof.
  intros config conversation.
  assert (Heq : gemini_request config conversation
    = (match system_parts config conversation with
       | [] => None
       | parts => Some (String.concat blank_line parts)
       end,
       map (fun msg =>
              Message.mk
                (if String.eqb (Message.Role msg) "assistant"
                 then "model" else Message.Role msg)
                (Message.Content msg))
           (List.filter not_system (Messages conversation)))).
  { unfold gemini_request, system_parts. rewrite gemini_split_spec.
    cbn [app]. by destruct (_ ++ _)%list. }
  split; [exact Heq |]. rewrite Heq. cbn [snd].
  split; [| by rewrite length_map].
  apply Forall_forall. intros msg Hin.
  apply list_elem_of_In, in_map_iff in Hin as (m & <- & Hin).
  apply filter_In in Hin as [_ Hns]. cbn [Message.Role].
  unfold not_system, is_system in Hns.
  destruct (String.eqb_spec (Message.Role m) "assistant") as [He | Hne].
  - split; discriminate.
  - split; [| done]. intros Hrole. by rewrite Hrole in Hns.
Qed.

(** X22.  What [SendPrompt] sends when a system message [s] is
    configured.  The OpenAI client sends it once, as the first message.
    The Claude client sends it once, as the system prompt.  The Gemini
    client adds it to the conversation and its request adds it again:
    the system instruction holds it twice, separated by a blank line.
    Without a configured system message none of the three sends one. *)
Theorem SendPrompt_system_message :
  forall (config : ClientConfig.t) (prompt : string),
    (forall s,
       ClientConfig.SystemMessage config = Some s ->
       openai_request (prompt_conversation config prompt)
       = [Message.mk "system" s; Message.mk "user" prompt]
       /\ fst (claude_request config (claude_prompt_conversation prompt))
          = (s, [Message.mk "user" prompt])
       /\ gemini_request config (prompt_conversation config prompt)
          = (Some (s ++ blank_line ++ s)%string, [Message.mk "user" prompt]))
    /\ (ClientConfig.SystemMessage config = None ->
        openai_request (prompt_conversation config prompt)
        = [Message.mk "user" prompt]
        /\ fst (claude_request config (claude_prompt_conversation prompt))
           = ("", [Message.mk "user" prompt])
        /\ gemini_request config (prompt_conversation config prompt)
           = (None, [Message.mk "user" prompt])).
Proof.
  intros config prompt. split.
  - intros s Hs.
    unfold openai_request, claude_request, gemini_request,
      prompt_conversation, claude_prompt_conversation.
    rewrite Hs. repeat split.
  - intros Hs.
    unfold openai_request, claude_request, gemini_request,
      prompt_conversation, claude_prompt_conversation.
    rewrite Hs. repeat split.
Qed.

Lemma SendPrompt_system_message_witness :
  gemini_request
    (ClientConfig.mk 1 0 None None None None None (Some "Be kind.") None
       RetryStrategyFixed)
    (prompt_conversation
       (ClientConfig.mk 1 0 None None None None None (Some "Be kind.") None
          RetryStrategyFixed) "Hi")
  = (Some ("Be kind." ++ blank_line ++ "Be kind.")%string,
     [Message.mk "user" "Hi"]).
Proof.
  exact (proj2 (proj2 (proj1 (SendPrompt_system_message
           (ClientConfig.mk 1 0 None None None None None (Some "Be kind.")
              None RetryStrategyFixed) "Hi") "Be kind." eq_refl))).
Defined.

End RequestResults.

(* ===================================================================== *)
(** ** Properties of the client factory *)
(* ===================================================================== *)

Section FactoryFacts.

Import ErrorValues Validate Factory.

Lemma vendor_of_Some provider :
  (exists v, vendor_of provider = Some v) <-> In provider SupportedProviders.
Proof.
  unfold vendor_of, SupportedProviders. cbn [In].
  destruct (String.eqb_spec provider "openai");
    destruct (String.eqb_spec provider "anthropic");
    destruct (String.eqb_spec provider "claude");
    destruct (String.eqb_spec provider "google");
    destruct (String.eqb_spec provider "gemini"); cbn [orb];
    split; intros H; eauto 8;
    try (destruct H as [v Hv]; discriminate Hv);
    try (destruct H as [H | [H | [H | [H | [H | []]]]]]; congruence).
Qed.

Lemma getDefaultModel_nonempty provider v :
  vendor_of provider = Some v -> getDefaultModel provider <> "".
Proof.
  unfold vendor_of, getDefaultModel.
  destruct (String.eqb provider "openai"); [done |].
  destruct (String.eqb provider "anthropic" || String.eqb provider "claude");
    [done |].
  destruct (String.eqb provider "google" || String.eqb provider "gemini");
    done.
Qed.

Lemma ValidateConfig_error_kind ds rs fi cfg e :
  ValidateConfig ds rs fi cfg = Some e ->
  exists message,
    e = ClientError ErrorTypeConfig "invalid_parameter" message None.
Proof.
  unfold ValidateConfig, return_if, NewInvalidParameterError.
  repeat case_match; intros [= <-]; by eexists.
Qed.

Variable Getenv : string -> string.
Variable normalize : string -> string.
Variable Duration_String : Z -> string.
Variable rune_string : Z -> string.
Variable float_to_int : float -> Z.

Local Abbreviation create :=
  (CreateClient Getenv normalize Duration_String rune_string float_to_int).
Local Abbreviation validate :=
  (ValidateConfig Duration_String rune_string float_to_int).

(** [CreateClient] by cases. *)
Lemma CreateClient_cases provider key mdl cfg :
  let cfg' := default ClientConfig.NewClientConfig cfg in
  let provider' := normalize provider in
  let key' := if String.eqb key "" then getAPIKeyFromEnv Getenv provider'
              else key in
  create provider key mdl cfg
  = match validate cfg' with
    | Some err => inr err
    | None =>
        if String.eqb key' "" then
          inr (NewMissingConfigError
                 ("API key for provider: " ++ provider'))
        else
          match vendor_of provider' with
          | Some v =>
              inl {| kind := v; apiKey := key';
                     model := if String.eqb mdl ""
                              then getDefaultModel provider' else mdl;
                     config := cfg' |}
          | None => inr (NewInvalidParameterError "provider" provider')
          end
    end.
Proof.
  intros cfg' provider' key'. subst cfg' provider' key'.
  unfold CreateClient, vendor_of, getDefaultModel.
  replace (match cfg with
           | Some c => c
           | None => ClientConfig.NewClientConfig
           end) with (default ClientConfig.NewClientConfig cfg)
    by (by destruct cfg).
  destruct (validate _); [done |].
  destruct (String.eqb (if String.eqb key "" then _ else key) "")
    eqn:Hkey; [done |].
  unfold NewOpenAIClient, NewClaudeClient, NewGeminiClient, new_client.
  rewrite Hkey.
  destruct (String.eqb (normalize provider) "openai").
  { by destruct (String.eqb mdl "") eqn:Hm; [| rewrite Hm]. }
  destruct (String.eqb (normalize provider) "anthropic"
            || String.eqb (normalize provider) "claude").
  { by destruct (String.eqb mdl "") eqn:Hm; [| rewrite Hm]. }
  destruct (String.eqb (normalize provider) "google"
            || String.eqb (normalize provider) "gemini"); [| done].
  by destruct (String.eqb mdl "") eqn:Hm; [| rewrite Hm].
Qed.

End FactoryFacts.

Section FactoryResults.

Import ErrorValues Validate Factory.

(** X23.  [CreateClient] returns a client exactly when the configuration
    (the default one for nil) passes [ValidateConfig], a key is given or
    found in the environment of the normalized provider, and that
    provider is one of the five supported names.  The client is then the
    vendor's, with that key, hence a non-empty one; with the model
    given, or the default model of the provider, never an empty one;
    and with the validated configuration. *)
Theorem CreateClient_succeeds_exactly :
  forall (Getenv normalize : string -> string)
         (Duration_String rune_string : Z -> string)
         (float_to_int : float -> Z)
         (provider key mdl : string) (cfg : option ClientConfig.t)
         (c : VendorClient),
    let cfg' := default ClientConfig.NewClientConfig cfg in
    let provider' := normalize provider in
    let key' := if String.eqb key "" then getAPIKeyFromEnv Getenv provider'
                else key in
    (CreateClient Getenv normalize Duration_String rune_string float_to_int
       provider key mdl cfg = inl c
     <-> ValidateConfig Duration_String rune_string float_to_int cfg' = None
         /\ key' <> ""
         /\ In provider' SupportedProviders
         /\ vendor_of provider' = Some (kind c)
         /\ apiKey c = key'
         /\ model c = (if String.eqb mdl "" then getDefaultModel provider'
                       else mdl)
         /\ config c = cfg')
    /\ (CreateClient Getenv normalize Duration_String rune_string float_to_int
          provider key mdl cfg = inl c ->
        apiKey c <> "" /\ model c <> ""
        /\ ValidateConfig Duration_String rune_string float_to_int (config c)
           = None).
Proof.
  intros Getenv normalize Duration_String rune_string float_to_int
    provider key mdl cfg c cfg' provider' key'.
  pose proof (CreateClient_cases Getenv normalize Duration_String rune_string
                float_to_int provider key mdl cfg) as Hcases.
  cbv zeta in Hcases. fold cfg' provider' key' in Hcases.
  assert (Hiff :
    CreateClient Getenv normalize Duration_String rune_string float_to_int
      provider key mdl cfg = inl c
    <-> ValidateConfig Duration_String rune_string float_to_int cfg' = None
        /\ key' <> ""
        /\ In provider' SupportedProviders
        /\ vendor_of provider' = Some (kind c)
        /\ apiKey c = key'
        /\ model c = (if String.eqb mdl "" then getDefaultModel provider'
                      else mdl)
        /\ config c = cfg').
  { rewrite Hcases. split.
    - destruct (ValidateConfig _ _ _ cfg'); [done |].
      destruct (String.eqb_spec key' ""); [done |].
      destruct (vendor_of provider') as [v |] eqn:Hv; [| done].
      intros [= <-]. cbn.
      repeat split; try done. apply vendor_of_Some. by exists v.
    - intros (-> & Hkey & _ & -> & Hk & Hm & Hc).
      destruct (String.eqb_spec key' ""); [done |].
      destruct c as [k a m cf]. cbn in *. by subst. }
  split; [exact Hiff |].
  intros (Hvalid & Hkey & _ & Hv & -> & -> & ->)%Hiff.
  split; [done |]. split; [| done].
  destruct (String.eqb_spec mdl ""); [| done].
  by apply (getDefaultModel_nonempty _ _ Hv).
Qed.

Lemma CreateClient_succeeds_exactly_witness :
  exists c,
    CreateClient (fun name => if String.eqb name "CLAUDE_API_KEY"
                              then "sk-test" else "")
      (fun p => p) (fun _ => "d") (fun _ => "r") (fun _ => 0)
      "anthropic" "" "" None = inl c
    /\ apiKey c <> "" /\ model c <> "".
Proof.
  exists {| kind := Claude; apiKey := "sk-test";
            model := "claude-3-haiku-20240307";
            config := ClientConfig.NewClientConfig |}.
  split; [reflexivity |].
  destruct (proj2 (CreateClient_succeeds_exactly
                     (fun name => if String.eqb name "CLAUDE_API_KEY"
                                  then "sk-test" else "")
                     (fun p => p) (fun _ => "d") (fun _ => "r") (fun _ => 0)
                     "anthropic" "" "" None
                     {| kind := Claude; apiKey := "sk-test";
                        model := "claude-3-haiku-20240307";
                        config := ClientConfig.NewClientConfig |})
                  eq_refl) as (Hkey & Hmodel & _).
  split; [exact Hkey | exact Hmodel].
Defined.

(** X24.  The errors of [CreateClient], in the order in which they are
    decided: a configuration that fails validation gives the validation
    error, whatever the provider and the key; then a missing key gives a
    missing-configuration error, also for a provider that is not
    supported; then an unsupported provider gives an invalid-parameter
    error.  Every error is of kind config: [CreateClient] never returns
    a retryable error nor an authentication error. *)
Theorem CreateClient_errors :
  forall (Getenv normalize : string -> string)
         (Duration_String rune_string : Z -> string)
         (float_to_int : float -> Z)
         (provider key mdl : string) (cfg : option ClientConfig.t),
    let cfg' := default ClientConfig.NewClientConfig cfg in
    let provider' := normalize provider in
    let key' := if String.eqb key "" then getAPIKeyFromEnv Getenv provider'
                else key in
    let created :=
      CreateClient Getenv normalize Duration_String rune_string float_to_int
        provider key mdl cfg in
    (forall e,
       ValidateConfig Duration_String rune_string float_to_int cfg' = Some e ->
       created = inr e)
    /\ (ValidateConfig Duration_String rune_string float_to_int cfg' = None ->
        key' = "" ->
        created = inr (NewMissingConfigError
                         ("API key for provider: " ++ provider')))
    /\ (ValidateConfig Duration_String rune_string float_to_int cfg' = None ->
        key' <> "" -> ~ In provider' SupportedProviders ->
        created = inr (NewInvalidParameterError "provider" provider'))
    /\ (forall e, created = inr e ->
          (exists code message,
             e = ClientError ErrorTypeConfig code message None)
          /\ IsRetryableError e = false
          /\ IsAuthenticationError e = false).
Proof.
  intros Getenv normalize Duration_String rune_string float_to_int
    provider key mdl cfg cfg' provider' key' created.
  pose proof (CreateClient_cases Getenv normalize Duration_String rune_string
                float_to_int provider key mdl cfg) as Hcases.
  cbv zeta in Hcases. fold cfg' provider' key' created in Hcases.
  split; [| split; [| split]].
  - intros e Hv. by rewrite Hcases, Hv.
  - intros Hv Hkey. by rewrite Hcases, Hv, Hkey.
  - intros Hv Hkey Hnot. rewrite Hcases, Hv.
    destruct (String.eqb_spec key' ""); [done |].
    destruct (vendor_of provider') as [v |] eqn:Hvendor; [| done].
    exfalso. apply Hnot, vendor_of_Some. by exists v.
  - intros e. rewrite Hcases.
    destruct (ValidateConfig _ _ _ cfg') as [err |] eqn:Hv.
    { intros [= <-].
      destruct (ValidateConfig_error_kind _ _ _ _ _ Hv) as [message ->].
      split; [by eexists _, _ | done]. }
    destruct (String.eqb key' "").
    { intros [= <-]. split; [by eexists _, _ | done]. }
    destruct (vendor_of provider'); [done |].
    intros [= <-]. split; [by eexists _, _ | done].
Qed.

Lemma CreateClient_errors_witness :
  CreateClient (fun _ => "") (fun p => p) (fun _ => "d") (fun _ => "r")
    (fun _ => 0) "mistral" "" "" None
  = inr (NewMissingConfigError "API key for provider: mistral")
  /\ CreateClient (fun _ => "") (fun p => p) (fun _ => "d") (fun _ => "r")
       (fun _ => 0) "mistral" "sk-test" "" None
     = inr (NewInvalidParameterError "provider" "mistral").
Proof.
  split.
  - apply (proj1 (proj2 (CreateClient_errors (fun _ => "") (fun p => p)
             (fun _ => "d") (fun _ => "r") (fun _ => 0)
             "mistral" "" "" None))); reflexivity.
  - apply (proj1 (proj2 (proj2 (CreateClient_errors (fun _ => "")
             (fun p => p) (fun _ => "d") (fun _ => "r") (fun _ => 0)
             "mistral" "sk-test" "" None)))); [reflexivity | discriminate |].
    cbn. intros [H | [H | [H | [H | [H | []]]]]]; discriminate H.
Defined.

End FactoryResults.

Section AvailableProviders.

Import ErrorValues Validate Factory.

Lemma available_iff Getenv provider :
  In provider (GetAvailableProviders Getenv)
  <-> In provider SupportedProviders
      /\ getAPIKeyFromEnv Getenv provider <> "".
Proof.
  unfold GetAvailableProviders. rewrite filter_In.
  by rewrite negb_true_iff, String.eqb_neq.
Qed.

Lemma first_set_nonempty Getenv first second :
  first_set Getenv first second <> ""
  <-> Getenv first <> "" \/ Getenv second <> "".
Proof.
  unfold first_set.
  destruct (String.eqb_spec (Getenv first) "") as [-> | Hne]; cbn [negb].
  - split; [by right | by intros [? | ?]].
  - split; [by left | done].
Qed.

(** X25.  [GetAvailableProviders] lists, in the order of
    [SupportedProviders], the supported names for which the environment
    holds a key: a name is listed exactly when one of its two variables
    is set to a non-empty value, so the two names of a vendor are listed
    together; and each name listed can be given to [CreateClient]
    without key, model and configuration, which then returns a client
    holding the key of the environment (for names that normalization
    leaves as they are, as it does the supported ones). *)
Theorem available_providers_can_be_created :
  forall (Getenv : string -> string),
    (forall provider,
       In provider (GetAvailableProviders Getenv)
       <-> In provider SupportedProviders
           /\ getAPIKeyFromEnv Getenv provider <> "")
    /\ sublist (GetAvailableProviders Getenv) SupportedProviders
    /\ (In "openai" (GetAvailableProviders Getenv)
        <-> Getenv "OPENAI_API_KEY" <> "" \/ Getenv "CHATGPT_API_KEY" <> "")
    /\ (In "claude" (GetAvailableProviders Getenv)
        <-> Getenv "ANTHROPIC_API_KEY" <> "" \/ Getenv "CLAUDE_API_KEY" <> "")
    /\ (In "gemini" (GetAvailableProviders Getenv)
        <-> Getenv "GOOGLE_API_KEY" <> "" \/ Getenv "GEMINI_API_KEY" <> "")
    /\ (In "anthropic" (GetAvailableProviders Getenv)
        <-> In "claude" (GetAvailableProviders Getenv))
    /\ (In "google" (GetAvailableProviders Getenv)
        <-> In "gemini" (GetAvailableProviders Getenv))
    /\ (forall (normalize : string -> string)
               (Duration_String rune_string : Z -> string)
               (float_to_int : float -> Z) (provider : string),
          In provider (GetAvailableProviders Getenv) ->
          normalize provider = provider ->
          exists c,
            CreateClient Getenv normalize Duration_String rune_string
              float_to_int provider "" "" None = inl c
            /\ apiKey c = getAPIKeyFromEnv Getenv provider
            /\ model c = getDefaultModel provider).
Proof.
  intros Getenv.
  split; [apply available_iff |].
  split.
  { unfold GetAvailableProviders.
    induction SupportedProviders as [| p ps IH]; cbn; [constructor |].
    destruct (negb _); by constructor. }
  assert (Hin : forall p, In p SupportedProviders ->
            (In p (GetAvailableProviders Getenv)
             <-> getAPIKeyFromEnv Getenv p <> "")).
  { intros p Hp. rewrite available_iff. split; [by intros [_ ?] | done]. }
  split.
  { rewrite Hin by (cbn; auto). apply first_set_nonempty. }
  split.
  { rewrite Hin by (cbn; auto 6). apply first_set_nonempty. }
  split.
  { rewrite Hin by (cbn; auto 6). apply first_set_nonempty. }
  split.
  { by rewrite !Hin by (cbn; auto 6). }
  split.
  { by rewrite !Hin by (cbn; auto 6). }
  intros normalize Duration_String rune_string float_to_int provider
    [Hsupported Hkey]%available_iff Hnorm.
  pose proof (CreateClient_cases Getenv normalize Duration_String rune_string
                float_to_int provider "" "" None) as Hcases.
  cbv zeta in Hcases. rewrite Hnorm in Hcases. cbn [default] in Hcases.
  change (ValidateConfig Duration_String rune_string float_to_int
            ClientConfig.NewClientConfig) with (@None error) in Hcases.
  cbn [String.eqb] in Hcases.
  destruct (String.eqb_spec (getAPIKeyFromEnv Getenv provider) "");
    [done |].
  destruct (proj2 (vendor_of_Some provider) Hsupported) as [v Hv].
  rewrite Hv in Hcases. eexists. split; [exact Hcases |]. by split.
Qed.

Lemma available_providers_can_be_created_witness :
  exists c,
    CreateClient (fun name => if String.eqb name "GEMINI_API_KEY"
                              then "g-key" else "")
      (fun p => p) (fun _ => "d") (fun _ => "r") (fun _ => 0)
      "google" "" "" None = inl c
    /\ apiKey c = "g-key".
Proof.
  destruct (proj2 (proj2 (proj2 (proj2 (proj2 (proj2 (proj2
              (available_providers_can_be_created
                 (fun name => if String.eqb name "GEMINI_API_KEY"
                              then "g-key" else ""))))))))
              (fun p => p) (fun _ => "d") (fun _ => "r") (fun _ => 0)
              "google")
    as (c & Heq & Hkey & _).
  - cbn. left. reflexivity.
  - reflexivity.
  - exists c. split; [exact Heq | exact Hkey].
Defined.

(** With only the second variable of Gemini set, its two names are
    available. *)
Example GetAvailableProviders_run :
  GetAvailableProviders (fun name => if String.eqb name "GEMINI_API_KEY"
                                     then "g-key" else "")
  = ["google"; "gemini"].
Proof. reflexivity. Qed.

End AvailableProviders.

(* ===================================================================== *)
(** ** Properties of validation errors and of dialogues *)
(* ===================================================================== *)

Section ValidationErrors.

Import Validate ClientConfig.

(** X26.  The errors of [ValidateConfig]: each is a configuration error
    with the code invalid_parameter and no cause, so it is never retried
    and is no authentication error; and the bounds are checked in the
    order timeout, retries, temperature: a timeout of at most zero is
    reported whatever else is wrong, and a negative retry count is
    reported before any sampling parameter. *)
Theorem ValidateConfig_errors :
  forall (Duration_String rune_string : Z -> string)
         (float_to_int : float -> Z) (config : ClientConfig.t),
    (forall e,
       ValidateConfig Duration_String rune_string float_to_int config = Some e ->
       (exists message,
          e = ClientError ErrorTypeConfig "invalid_parameter" message None)
       /\ IsRetryableError e = false
       /\ IsAuthenticationError e = false)
    /\ (Timeout config <= 0 ->
        ValidateConfig Duration_String rune_string float_to_int config
        = Some (NewInvalidParameterError "timeout"
                  (Duration_String (Timeout config))))
    /\ (0 < Timeout config -> Retries config < 0 ->
        ValidateConfig Duration_String rune_string float_to_int config
        = Some (NewInvalidParameterError "retries"
                  (rune_string (Retries config))))
    /\ (forall t,
          0 < Timeout config -> 0 <= Retries config ->
          Temperature config = Some t ->
          (PrimFloat.ltb t 0 || PrimFloat.ltb 2 t)%bool = true ->
          ValidateConfig Duration_String rune_string float_to_int config
          = Some (NewInvalidParameterError "temperature"
                    (rune_string (float_to_int t)))).
Proof.
  intros Duration_String rune_string float_to_int config.
  split; [| split; [| split]].
  - intros e He.
    destruct (ValidateConfig_error_kind _ _ _ _ _ He) as [message ->].
    split; [by eexists | done].
  - intros Ht. unfold ValidateConfig, return_if.
    by destruct (Z.leb_spec (Timeout config) 0); [| lia].
  - intros Ht Hr. unfold ValidateConfig, return_if.
    destruct (Z.leb_spec (Timeout config) 0); [lia |].
    by destruct (Z.ltb_spec (Retries config) 0); [| lia].
  - intros t Ht Hr Htemp Hbad. unfold ValidateConfig, return_if.
    destruct (Z.leb_spec (Timeout config) 0); [lia |].
    destruct (Z.ltb_spec (Retries config) 0); [lia |].
    rewrite Htemp. cbn [set_and rendered_float]. by rewrite Hbad.
Qed.

Lemma ValidateConfig_errors_witness :
  ValidateConfig (fun _ => "0s") (fun _ => "r") (fun _ => 0)
    (SetTemperature (SetTimeout NewClientConfig 0) 5%float)
  = Some (NewInvalidParameterError "timeout" "0s").
Proof.
  apply (proj1 (proj2 (ValidateConfig_errors (fun _ => "0s") (fun _ => "r")
           (fun _ => 0)
           (SetTemperature (SetTimeout NewClientConfig 0) 5%float)))).
  cbn. lia.
Defined.

End ValidationErrors.

Section Dialogues.

Import Session Conversation Dialogue.
Local Open Scope nat_scope.

Lemma dangling_user_snoc_assistant msgs response :
  dangling_user (Conversation.mk (msgs ++ [Message.mk "assistant" response]))
  = false.
Proof. unfold dangling_user. cbn [Messages]. by rewrite last_snoc. Qed.

Lemma Send_step (s : ChatSession) message :
  (exists e, Send s message = (s, ("", Some e)))
  \/ (exists response,
        Send s message
        = ({| client := client s;
              conversation :=
                Conversation.mk
                  (Messages (conversation s)
                     ++ [Message.mk "user" message;
                         Message.mk "assistant" response])%list |},
           (response, None))).
Proof.
  destruct s as [c conv]. unfold Send. cbn [client conversation].
  destruct (AIClient.SendConversation c (AddUserMessage conv message))
    as [response [e |]].
  - left. exists e. by rewrite remove_last_AddUserMessage.
  - right. exists response.
    unfold AddAssistantMessage, AddUserMessage, AddMessage. cbn [Messages].
    by rewrite <- app_assoc.
Qed.

Lemma dangling_user_turns msgs pairs :
  pairs <> [] ->
  dangling_user (Conversation.mk (msgs ++ turns pairs)) = false.
Proof.
  intros Hne.
  destruct (exists_last Hne) as (front & [m r] & ->).
  unfold turns. rewrite flat_map_app. cbn [flat_map fst snd].
  rewrite app_nil_r.
  change [Message.mk "user" m; Message.mk "assistant" r]
    with ([Message.mk "user" m] ++ [Message.mk "assistant" r])%list.
  rewrite !app_assoc. apply dangling_user_snoc_assistant.
Qed.

(** What a sequence of calls adds to the history: the completed turns,
    one for each call that returned a nil error, in the order of the
    calls. *)
Lemma send_all_turns answers messages :
  forall k s,
    exists pairs,
      Messages (conversation (fst (send_all answers k s messages)))
      = (Messages (conversation s) ++ turns pairs)%list
      /\ length pairs = snd (send_all answers k s messages)
      /\ sublist (map fst pairs) messages.
Proof.
  induction messages as [| message rest IH]; intros k s.
  { exists []. cbn. by rewrite app_nil_r. }
  cbn [send_all].
  destruct (Send_step (answering (answers k) s) message)
    as [[e Heq] | [response Heq]]; rewrite Heq.
  - destruct (IH (S k) (answering (answers k) s)) as (pairs & Hm & Hl & Hs).
    destruct (send_all answers (S k) (answering (answers k) s) rest)
      as [s'' n].
    cbn [fst snd] in *. exists pairs.
    split; [exact Hm |]. split; [exact Hl | by apply sublist_cons].
  - set (s' := {| client := _; conversation := _ |}).
    destruct (IH (S k) s') as (pairs & Hm & Hl & Hs).
    destruct (send_all answers (S k) s' rest) as [s'' n].
    cbn [fst snd] in *. exists ((message, response) :: pairs).
    split.
    { rewrite Hm. unfold s'. cbn [conversation Messages answering].
      by rewrite <- app_assoc. }
    split; [cbn [length]; by rewrite Hl | by apply sublist_skip].
Qed.

(** X27.  Any sequence of [Send] calls, whatever the client answers at
    each of them (a request that fails may succeed when it is sent
    again), keeps the history in completed turns.  What the calls add to
    the history is, for each call that returned a nil error and in the
    order of the calls, the user message sent and one assistant message;
    the failed calls add nothing.  So the length grows by exactly two
    for each successful call, and the history ends with an unanswered
    user message only if it did so before the first call and no call
    succeeded, the history then being unchanged. *)
Theorem send_all_keeps_pairs :
  forall (answers : nat -> AIClient.t) (messages : list string) (k : nat)
         (s : ChatSession),
    let final := fst (send_all answers k s messages) in
    let successes := snd (send_all answers k s messages) in
    (exists pairs,
       Messages (conversation final)
       = (Messages (conversation s) ++ turns pairs)%list
       /\ length pairs = successes
       /\ sublist (map fst pairs) messages)
    /\ Len final = Len s + 2 * successes
    /\ successes <= length messages
    /\ (dangling_user (conversation final) = true ->
        dangling_user (conversation s) = true
        /\ successes = 0
        /\ conversation final = conversation s).
Proof.
  intros answers messages k s final successes.
  destruct (send_all_turns answers messages k s) as (pairs & Hm & Hl & Hs).
  fold final in Hm. fold successes in Hl.
  split; [by exists pairs |].
  assert (Hturns : length (turns pairs) = 2 * length pairs).
  { clear. induction pairs as [| p pairs IH]; [done |].
    cbn [turns flat_map app length] in *. unfold turns in IH. lia. }
  split.
  { unfold Len. rewrite Hm, length_app, Hturns. lia. }
  split.
  { rewrite <- Hl. apply sublist_length in Hs.
    by rewrite length_map in Hs. }
  intros Hd.
  destruct pairs as [| p pairs].
  - cbn in Hm. rewrite app_nil_r in Hm.
    assert (Hc : conversation final = conversation s).
    { destruct (conversation final), (conversation s). cbn in Hm.
      by rewrite Hm. }
    split; [by rewrite <- Hc |]. split; [by rewrite <- Hl | exact Hc].
  - exfalso.
    assert (Hnd : dangling_user (conversation final) = false).
    { destruct (conversation final) as [msgs]. cbn [Messages] in Hm.
      rewrite Hm. by apply dangling_user_turns. }
    congruence.
Qed.

Lemma send_all_keeps_pairs_witness :
  Len (fst (send_all (recovers_after 1) 0
              (NewChatSession Examples.echo_client) ["Hi"; "Hi"])) = 2
  /\ snd (send_all (recovers_after 1) 0
            (NewChatSession Examples.echo_client) ["Hi"; "Hi"]) = 1.
Proof.
  pose proof (send_all_keeps_pairs (recovers_after 1) ["Hi"; "Hi"] 0
                (NewChatSession Examples.echo_client)) as H.
  cbv zeta in H. destruct H as (_ & Hlen & _).
  split; [rewrite Hlen |]; reflexivity.
Defined.

(** A request that is rejected and then sent again: the first call
    leaves nothing, the second the completed turn. *)
Example send_all_retry :
  send_all (recovers_after 1) 0 (NewChatSession Examples.echo_client)
    ["Hi"; "Hi"]
  = ({| client := Examples.echo_client;
        conversation :=
          Conversation.mk [Message.mk "user" "Hi";
                           Message.mk "assistant" "reply to: Hi"] |}, 1).
Proof. vm_compute. reflexivity. Qed.

End Dialogues.
